(** * SalesForce_to_Parquet: a model of [main.py]

    The script exports Salesforce objects to CSV and parquet files.  The
    development follows the source function by function:

    - Python values, strings, exceptions and dictionaries;
    - the pandas operations the script calls ([DataFrame.from_dict], [drop],
      [astype], [to_csv], [to_parquet]) on a small table model;
    - the file system and the log as an explicit world, threaded through a
      state-and-exception monad;
    - [get_sf_data], [pre_steps], [get_sf_conn], [execute] and the main block;
    - the [ThreadPoolExecutor] used by [execute], as a transition system over
      worker threads, the work queue and the futures.

    External collaborators (the Salesforce client, the casts of pandas and
    the conversion of pyarrow, [argparse], the parsers of the two input
    files, [int], the thread scheduler) are parameters.  A task takes effect
    in one step, when its thread completes it: what is stated of the files
    of a task is stated of tasks that are complete. *)

From Stdlib Require Import ZArith NArith String Ascii List Lia.
From stdpp Require Import base option list gmap fin_maps.
Import ListNotations.

Local Open Scope Z_scope.

#[local] Set Warnings "-register-all,-clear-no-such-hyp".

(** ** Python strings *)

(** A [str] is a sequence of Unicode code points. *)
Abbreviation pystr := (list N).

(** A literal of the source, written as a Rocq string of ASCII characters. *)
Definition lit (s : string) : pystr :=
  map N_of_ascii (list_ascii_of_string s).

(** [ch.isspace()]: the code points [str.strip()] removes. *)
Definition isspace (c : N) : bool :=
  ((9 <=? c) && (c <=? 13) || (28 <=? c) && (c <=? 32)
   || (c =? 133) || (c =? 160) || (c =? 5760)
   || (8192 <=? c) && (c <=? 8202)
   || (c =? 8232) || (c =? 8233) || (c =? 8239) || (c =? 8287)
   || (c =? 12288))%N.

Fixpoint lstrip (s : pystr) : pystr :=
  match s with
  | c :: s' => if isspace c then lstrip s' else s
  | [] => []
  end.

Definition rstrip (s : pystr) : pystr := rev (lstrip (rev s)).

(** [s.strip()] *)
Definition strip (s : pystr) : pystr := rstrip (lstrip s).

(** [sep.join(l)] *)
Fixpoint join (sep : pystr) (l : list pystr) : pystr :=
  match l with
  | [] => []
  | [s] => s
  | s :: l' => s ++ sep ++ join sep l'
  end.

(** ** Python values *)

(** The values a decoded API response is made of. *)
Inductive pyval :=
| PNone
| PBool (b : bool)
| PInt (z : Z)
| PStr (s : pystr)
| PList (l : list pyval)
| PDict (d : list (pystr * pyval)).

(** [bool(v)], the test behind [if not data]. *)
Definition truthy (v : pyval) : bool :=
  match v with
  | PNone => false
  | PBool b => b
  | PInt z => negb (z =? 0)
  | PStr s => negb (bool_decide (s = []))
  | PList l => match l with [] => false | _ => true end
  | PDict d => match d with [] => false | _ => true end
  end.

(** Dictionaries keep insertion order, so they are association lists read
    the way [dict(pairs)] builds them: the last binding of a key gives its
    value, its first occurrence gives its position. *)
Fixpoint dict_get {V} (k : pystr) (d : list (pystr * V)) : option V :=
  match d with
  | [] => None
  | (k', v) :: d' =>
      match dict_get k d' with
      | Some v' => Some v'
      | None => if decide (k = k') then Some v else None
      end
  end.

Definition add_key (acc : list pystr) (k : pystr) : list pystr :=
  if decide (k ∈ acc) then acc else acc ++ [k].

Definition dict_keys {V} (d : list (pystr * V)) : list pystr :=
  fold_left add_key (map fst d) [].

(** ** Exceptions *)

Inductive exn_class :=
| KeyError | ValueError | TypeError | OSError | ArrowInvalid
| SalesforceAuthenticationFailed | SalesforceError | ParseError.

Record exn := Exn { exn_class_of : exn_class; exn_msg : pystr }.

(** What ends a call early: an exception, or [sys.exit(code)]. *)
Inductive abort :=
| Raise (e : exn)
| SysExit (code : Z).

(** ** Tables *)

(** A table cell: a value, or the [NaN] pandas puts where a record has no
    such key. *)
Inductive cell :=
| Val (v : pyval)
| NaN.

(** A [DataFrame]: the length of its index and its columns in order. *)
Record DataFrame := {
  df_index : nat;
  df_columns : list (pystr * list cell)
}.

Definition column_names (df : DataFrame) : list pystr :=
  map fst (df_columns df).

(** [len(df.index)] *)
Definition len_index (df : DataFrame) : Z := Z.of_nat (df_index df).

Definition cell_of (k : pystr) (r : list (pystr * pyval)) : cell :=
  match dict_get k r with
  | Some v => Val v
  | None => NaN
  end.

(** The columns of a list of records: every key, in order of first
    appearance. *)
Definition record_columns (rs : list (list (pystr * pyval))) : list pystr :=
  fold_left (fun acc r => fold_left add_key (map fst r) acc) rs [].

Definition frame_of_records (rs : list (list (pystr * pyval))) : DataFrame :=
  {| df_index := length rs;
     df_columns := map (fun k => (k, map (cell_of k) rs)) (record_columns rs) |}.

Fixpoint as_records (l : list pyval) : option (list (list (pystr * pyval))) :=
  match l with
  | [] => Some []
  | PDict d :: l' =>
      match as_records l' with
      | Some rs => Some (d :: rs)
      | None => None
      end
  | _ => None
  end.

(** [pd.DataFrame.from_dict(data)] with [orient='columns'] (the default, and
    what the bulk branch passes).  Both Salesforce calls hand over a list of
    dicts, one per record; this is the shape modelled, any other raises. *)
Definition from_dict (data : pyval) : exn + DataFrame :=
  match data with
  | PList l =>
      match as_records l with
      | Some rs => inr (frame_of_records rs)
      | None => inl (Exn ValueError (lit "DataFrame constructor not properly called!"))
      end
  | _ => inl (Exn ValueError (lit "DataFrame constructor not properly called!"))
  end.

(** [df.drop(label, axis=1)]: a label that is no column raises [KeyError]. *)
Definition drop (label : pystr) (df : DataFrame) : exn + DataFrame :=
  if decide (label ∈ column_names df)
  then inr {| df_index := df_index df;
              df_columns := filter (fun c => c.1 ≠ label) (df_columns df) |}
  else inl (Exn KeyError (lit "['" ++ label ++ lit "'] not found in axis")).

(** Mapping a fallible function over a list, stopping at the first error. *)
Fixpoint traverse {E A B} (f : A → E + B) (l : list A) : E + list B :=
  match l with
  | [] => inr []
  | x :: l' =>
      match f x with
      | inl e => inl e
      | inr y =>
          match traverse f l' with
          | inl e => inl e
          | inr ys => inr (y :: ys)
          end
      end
  end.

Section Astype.

(** pandas' conversion of one value to a dtype, or the error it raises. *)
Variable cast_cell : pystr → cell → exn + cell.

Definition astype_column (dtypes : list (pystr * pystr))
    (c : pystr * list cell) : exn + (pystr * list cell) :=
  match dict_get c.1 dtypes with
  | None => inr c
  | Some t =>
      match traverse (cast_cell t) c.2 with
      | inl e => inl e
      | inr cells => inr (c.1, cells)
      end
  end.

(** [df.astype(dtypes)] for a dict of column name to dtype: every key has
    to be a column; the columns it names are cast, the others copied. *)
Definition astype (dtypes : list (pystr * pystr)) (df : DataFrame)
    : exn + DataFrame :=
  match filter (fun k => k ∉ column_names df) (dict_keys dtypes) with
  | k :: _ =>
      inl (Exn KeyError
             (lit "Only a column name can be used for the key in a dtype mappings argument. '"
                ++ k ++ lit "' not found in columns."))
  | [] =>
      match traverse (astype_column dtypes) (df_columns df) with
      | inl e => inl e
      | inr cols => inr {| df_index := df_index df; df_columns := cols |}
      end
  end.

End Astype.

(** ** pandas and pyarrow

    What the script takes from the two libraries, whose code is not part of
    the repository:
    - [cast_cell dtype]: the conversion of one value by [astype];
    - [arrow_error df]: the exception with which pyarrow refuses to convert
      a table, if it does (a column of mixed types, for one). *)
Record Pandas := {
  cast_cell : pystr → cell → exn + cell;
  arrow_error : DataFrame → option exn
}.


(** ** The world: files, log, network *)

(** A path is its sequence of components; [[]] is the working directory. *)
Abbreviation path := (list pystr).

(** What a written file holds.  [index] records whether the row labels were
    written as an extra column. *)
Inductive content :=
| Csv (header : list pystr) (rows : list (list cell)) (index : bool)
| Parquet (engine compression : pystr) (table : list (pystr * list cell))
    (index : bool)
| Text (t : pystr).

Inductive node :=
| Dir
| File (c : content).

Inductive level := DEBUG | INFO | WARNING | ERROR | CRITICAL.

(** A field of an entry of the schema file, with the keys the script reads:
    ['field_api_name'] and ['type']. *)
Record Field := { field_api_name : pystr; type : pystr }.

(** An entry of the schema file, with the keys the script reads:
    ['obj_api_name'] and ['fields'] in [get_sf_data], ['obj_name'] in
    [execute].  The task of an entry never reads ['obj_name']: that key is
    read by the loop of [execute] alone, outside the tasks, where nothing
    catches the [KeyError] for an entry that lacks it.  [obj_name] is [None]
    for such an entry. *)
Record SfObject := {
  obj_name : option pystr;
  obj_api_name : pystr;
  fields : list Field
}.

(** The pieces of a formatted log message. *)
Inductive part :=
| Txt (s : pystr)
| Num (n : Z)
| Obj (o : SfObject)
| Err (e : exn)
| Types (d : list (pystr * pystr))
| Dtypes (df : DataFrame)
| Where (p : path)
| Elapsed.

(** A call of the Salesforce API. *)
Inductive request :=
| Login (username domain : pystr)
| BulkQuery (object query : pystr)
| Query (query : pystr).

Record World := {
  w_fs : gmap path node;
  w_log : list (level * list part);
  w_net : list request
}.

(** Computations that read and change the world and may stop with an [E]. *)
Definition M (E A : Type) : Type := World → (E + A) * World.

#[global] Instance M_ret {E} : MRet (M E) := λ A x w, (inr x, w).

#[global] Instance M_bind {E} : MBind (M E) := λ A B f m w,
  match m w with
  | (inl e, w') => (inl e, w')
  | (inr x, w') => f x w'
  end.

(** The outcome of a pure step, raised when it is an error. *)
Definition lift {E A} (r : E + A) : M E A := λ w, (r, w).

(** [logging.<level>(message)] *)
Definition logging {E} (l : level) (msg : list part) : M E () := λ w,
  (inr (), {| w_fs := w_fs w; w_log := w_log w ++ [(l, msg)]; w_net := w_net w |}).

(** The file system as it is now. *)
Definition files {E} : M E (gmap path node) := λ w, (inr (w_fs w), w).

(** [sys.exit(code)] *)
Definition sys_exit {A} (code : Z) : M abort A := λ w, (inl (SysExit code), w).

(** A call whose exception nobody catches. *)
Definition uncaught {A} (m : M exn A) : M abort A := λ w,
  match m w with
  | (inl e, w') => (inl (Raise e), w')
  | (inr x, w') => (inr x, w')
  end.

(** [for x in l: body] *)
Fixpoint for_each {E A} (l : list A) (body : A → M E ()) : M E () :=
  match l with
  | [] => mret ()
  | x :: l' => body x;; for_each l' body
  end.

(** A call over the network, with the answer it gets. *)
Definition call {A} (r : request) (answer : exn + A) : M exn A := λ w,
  (answer, {| w_fs := w_fs w; w_log := w_log w; w_net := w_net w ++ [r] |}).

(** *** Files *)

Definition is_dir (fs : gmap path node) (p : path) : bool :=
  match p with
  | [] => true
  | _ => match fs !! p with Some Dir => true | _ => false end
  end.

(** [Path(p).exists()] *)
Definition path_exists (fs : gmap path node) (p : path) : bool :=
  match p with
  | [] => true
  | _ => bool_decide (is_Some (fs !! p))
  end.

Definition parent (p : path) : path := removelast p.

(** Opening [p] for writing and storing [c]: the directory has to be there,
    and [p] must not be a directory itself. *)
Definition write_file (p : path) (c : content) : M exn () := λ w,
  if is_dir (w_fs w) (parent p) && negb (is_dir (w_fs w) p)
  then (inr (), {| w_fs := <[p := File c]> (w_fs w);
                   w_log := w_log w; w_net := w_net w |})
  else (inl (Exn OSError (lit "cannot open file for writing")), w).

(** [shutil.rmtree(p, ignore_errors=True)]: the directory goes with all it
    holds; on a plain file the call fails, and the failure is ignored, as it
    is when nothing is at [p] (and then nothing lies below [p] either). *)
Definition rmtree (p : path) : M exn () := λ w,
  match w_fs w !! p with
  | Some (File _) => (inr (), w)
  | _ => (inr (), {| w_fs := filter (λ kv, ¬ p `prefix_of` kv.1) (w_fs w);
                     w_log := w_log w; w_net := w_net w |})
  end.

(** [p] and the directories above it, outermost first. *)
Definition ancestors (p : path) : list path :=
  map (λ n, take n p) (seq 1 (length p)).

Definition is_file (fs : gmap path node) (p : path) : bool :=
  match fs !! p with Some (File _) => true | _ => false end.

(** [p.mkdir(exist_ok=True, parents=True)]: creates what is missing of [p]
    and of the directories above it; a plain file in the way raises. *)
Definition mkdir (p : path) : M exn () := λ w,
  if existsb (is_file (w_fs w)) (ancestors p)
  then (inl (Exn OSError (lit "File exists")), w)
  else (inr (), {| w_fs := foldr (λ q fs, <[q := Dir]> fs) (w_fs w) (ancestors p);
                   w_log := w_log w; w_net := w_net w |}).

(** Opening [p] for appending, as a log handler does: the file is created
    when it is not there. *)
Definition open_append (p : path) : M exn () := λ w,
  if is_dir (w_fs w) (parent p) && negb (is_dir (w_fs w) p)
  then (inr (), {| w_fs := match w_fs w !! p with
                           | Some _ => w_fs w
                           | None => <[p := File (Text [])]> (w_fs w)
                           end;
                   w_log := w_log w; w_net := w_net w |})
  else (inl (Exn OSError (lit "cannot open file for appending")), w).

(** The rows of a table, each a list of cells in column order. *)
Definition rows_of (df : DataFrame) : list (list cell) :=
  map (fun i => map (fun c => default NaN (c.2 !! i)) (df_columns df))
      (seq 0 (df_index df)).

(** [df.to_csv(p, index=index)] *)
Definition to_csv (df : DataFrame) (p : path) (index : bool) : M exn () :=
  write_file p (Csv (column_names df) (rows_of df) index).

(** [df.to_parquet(p, engine=engine, compression=compression, index=index)]:
    the table is converted first, and the conversion may be refused; the file
    is opened and written after that. *)
Definition to_parquet (pd : Pandas) (df : DataFrame) (p : path)
    (engine compression : pystr) (index : bool) : M exn () :=
  match arrow_error pd df with
  | Some e => lift (inl e)
  | None => write_file p (Parquet engine compression (df_columns df) index)
  end.

(** ** The Salesforce client *)

(** A connection: what [sf.query_all(query)] and
    [SFBulkType(object, ...).query_all(query)] answer, or raise. *)
Record Salesforce := {
  query_all : pystr → exn + pyval;
  bulk_query_all : pystr → pystr → exn + pyval
}.

(** [data[key]] *)
Definition getitem (data : pyval) (key : pystr) : exn + pyval :=
  match data with
  | PDict d =>
      match dict_get key d with
      | Some v => inr v
      | None => inl (Exn KeyError key)
      end
  | _ => inl (Exn TypeError (lit "object is not subscriptable by str"))
  end.

(** The parsed command line, the script's global [args]. *)
Record Args := {
  config : path;
  json : path;
  exec_type : pystr;
  log_level : pystr;
  log_path : path;
  output_path : path
}.

Section Script.

Variable args : Args.

(** pandas and pyarrow. *)
Variable pd : Pandas.

(** [Salesforce(username=..., password=..., security_token=..., domain=...)] *)
Variable connect : pystr → pystr → pystr → pystr → exn + Salesforce.

(** [configparser] and [json.load] on the content of a file. *)
Variable parse_config : content → exn + gmap pystr (gmap pystr pystr).
Variable json_load : content → exn + list SfObject.

(** [int(s)] on a string; [None] where it raises [ValueError]. *)
Variable int_of_str : pystr → option Z.

(** *** [get_sf_data] *)

Definition field_names (sf_object : SfObject) : list pystr :=
  map (fun f => strip (field_api_name f)) (fields sf_object).

Definition query (sf_object : SfObject) : pystr :=
  lit "SELECT " ++ join (lit ",") (field_names sf_object)
    ++ lit " FROM " ++ obj_api_name sf_object.

Definition field_types (sf_object : SfObject) : list pystr :=
  map type (fields sf_object).

(** [dict(zip(field_names, field_types))] *)
Definition dict_fields (sf_object : SfObject) : list (pystr * pystr) :=
  zip (field_names sf_object) (field_types sf_object).

Definition csv_path (sf_object : SfObject) : path :=
  output_path args ++ [lit "csv"; obj_api_name sf_object ++ lit ".csv"].

Definition pq_path (sf_object : SfObject) : path :=
  output_path args ++ [lit "pq"; obj_api_name sf_object ++ lit ".parquet"].

(** Lines 72 to 84: the table of the fetched records, or [None] where the
    function returns 0 for want of data. *)
Definition fetch (sf : Salesforce) (sf_object : SfObject)
    : M exn (option DataFrame) :=
  let sf_obj_name := obj_api_name sf_object in
  if decide (exec_type args = lit "BULK") then
    data ← call (BulkQuery sf_obj_name (query sf_object))
                (bulk_query_all sf sf_obj_name (query sf_object));
    if negb (truthy data) then
      logging INFO [Obj sf_object; Txt (lit " has no data.")];;
      mret None
    else
      df ← lift (from_dict data);
      df ← lift (drop (lit "attributes") df);
      mret (Some df)
  else
    data ← call (Query (query sf_object)) (query_all sf (query sf_object));
    if negb (truthy data) then
      logging INFO [Obj sf_object; Txt (lit " has no data.")];;
      mret None
    else
      records ← lift (getitem data (lit "records"));
      df ← lift (from_dict records);
      df ← lift (drop (lit "attributes") df);
      mret (Some df).

(** Lines 86 to 96: coercion and the two writes. *)
Definition coerce_and_write (sf_object : SfObject) (df : DataFrame)
    : M exn Z :=
  logging DEBUG [Types (dict_fields sf_object)];;
  df ← lift (astype (cast_cell pd) (dict_fields sf_object) df);
  to_csv df (csv_path sf_object) false;;
  to_parquet pd df (pq_path sf_object) (lit "pyarrow") (lit "snappy") false;;
  logging DEBUG [Dtypes df];;
  mret (len_index df).

Definition get_sf_data (sf : Salesforce) (sf_object : SfObject) : M exn Z :=
  logging DEBUG [Txt (obj_api_name sf_object); Txt (lit " has fields ");
                 Txt (join (lit ",") (field_names sf_object))];;
  fetched ← fetch sf sf_object;
  match fetched with
  | None => mret 0
  | Some df => coerce_and_write sf_object df
  end.

(** The pure content of [fetch], for stating what a task does: the call it
    makes, the answer it gets, and the table built from an answer. *)
Definition issued (sf_object : SfObject) : request :=
  if decide (exec_type args = lit "BULK")
  then BulkQuery (obj_api_name sf_object) (query sf_object)
  else Query (query sf_object).

Definition answer (sf : Salesforce) (sf_object : SfObject) : exn + pyval :=
  if decide (exec_type args = lit "BULK")
  then bulk_query_all sf (obj_api_name sf_object) (query sf_object)
  else query_all sf (query sf_object).

(** The record list inside an answer: the answer itself in bulk mode,
    [data['records']] otherwise. *)
Definition records_in (data : pyval) : exn + pyval :=
  if decide (exec_type args = lit "BULK")
  then inr data
  else getitem data (lit "records").

Definition raw_table (data : pyval) : exn + DataFrame :=
  match records_in data with
  | inl e => inl e
  | inr records =>
      match from_dict records with
      | inl e => inl e
      | inr df => drop (lit "attributes") df
      end
  end.

(** *** [pre_steps] *)

Definition CONFIG_FILE : path := config args.
Definition JSON_FILE : path := json args.

Definition pre_steps : M abort () :=
  uncaught (for_each [lit "csv"; lit "pq"] (λ dir,
    rmtree (output_path args ++ [dir]);;
    mkdir (output_path args ++ [dir])));;
  fs ← files;
  if negb (path_exists fs CONFIG_FILE && path_exists fs JSON_FILE) then
    logging ERROR [Where CONFIG_FILE; Txt (lit " or "); Where JSON_FILE;
                   Txt (lit " missing.")];;
    sys_exit 1
  else
    uncaught (mkdir (log_path args)).

(** *** [init_logger]: the file handler opens the log file. *)
Definition init_logger : M abort () :=
  uncaught (open_append (log_path args ++ [lit "salesforce_script.log"])).

(** *** [read_config]: [config.read] skips a file it cannot open. *)
Definition read_config (config_file : path)
    : M abort (gmap pystr (gmap pystr pystr)) := λ w,
  match w_fs w !! config_file with
  | Some (File c) =>
      match parse_config c with
      | inl e => (inl (Raise e), w)
      | inr cfg => (inr cfg, w)
      end
  | _ => (inr ∅, w)
  end.

(** [config[section][key]] *)
Definition config_get (cfg : gmap pystr (gmap pystr pystr))
    (section key : pystr) : M abort pystr := λ w,
  match cfg !! section with
  | None => (inl (Raise (Exn KeyError section)), w)
  | Some sec =>
      match sec !! key with
      | None => (inl (Raise (Exn KeyError key)), w)
      | Some v => (inr v, w)
      end
  end.

(** *** [get_sf_conn] *)
Definition get_sf_conn (sf_username sf_passwd sf_token sf_domain : pystr)
    : M abort Salesforce := λ w,
  let w1 := {| w_fs := w_fs w; w_log := w_log w;
               w_net := w_net w ++ [Login sf_username sf_domain] |} in
  match connect sf_username sf_passwd sf_token sf_domain with
  | inr sf => (inr sf, w1)
  | inl e =>
      match exn_class_of e with
      | SalesforceAuthenticationFailed =>
          (logging ERROR [Txt (lit "Invalid credentials in Config file."); Err e];;
           sys_exit 1) w1
      | _ =>
          (logging ERROR [Txt (lit "Could not connect to Salesforce"); Err e];;
           sys_exit 1) w1
      end
  end.

(** *** [get_json_data] *)
Definition get_json_data (json_file : path) : M abort (list SfObject) := λ w,
  match w_fs w !! json_file with
  | Some (File c) =>
      match json_load c with
      | inl e => (inl (Raise e), w)
      | inr l => (inr l, w)
      end
  | _ => (inl (Raise (Exn OSError (lit "cannot open file for reading"))), w)
  end.

(** *** [execute]: the thread pool *)

(** The life of a task: [Pending → Running → Succeeded | Failed]. *)
Inductive task_state :=
| Pending
| Running
| Succeeded (row_count : Z)
| Failed (reason : exn).

Definition outcome (r : exn + Z) : task_state :=
  match r with
  | inl e => Failed e
  | inr n => Succeeded n
  end.

(** An entry of [genr]: a future, the object it was submitted for, and
    whether the [as_completed] loop has handled it. *)
Record Future := {
  fut_obj : SfObject;
  fut_state : task_state;
  fut_seen : bool
}.

(** The executor and the dispatcher in the middle of [execute]:
    - [todo]: the objects the comprehension has not submitted yet;
    - [futures]: [genr], in submission order; a future is its position;
    - [work_queue]: the futures no thread has taken yet;
    - [threads]: the worker threads, each idle or running a future;
    - [idle_semaphore]: the executor's count of threads gone idle;
    - [raised]: an exception that escaped the body of the loop. *)
Record Pool := {
  todo : list SfObject;
  futures : list Future;
  work_queue : list nat;
  threads : list (option nat);
  idle_semaphore : nat;
  raised : option exn;
  world : World
}.

(** What can happen next: the dispatcher submits the next object or handles
    a completed future; a thread takes a task from the queue or finishes
    the one it runs. *)
Inductive event :=
| Submit
| Take (t : nat)
| Finish (t : nat)
| Yield (f : nat).

(** [_adjust_thread_count]: a new thread is started unless one is idle or
    [max_workers] threads exist. *)
Definition adjust_thread_count (max_workers : nat) (s : Pool) : Pool :=
  match idle_semaphore s with
  | S n =>
      {| todo := todo s; futures := futures s; work_queue := work_queue s;
         threads := threads s; idle_semaphore := n;
         raised := raised s; world := world s |}
  | O =>
      if decide (length (threads s) < max_workers)%nat
      then {| todo := todo s; futures := futures s;
              work_queue := work_queue s;
              threads := threads s ++ [None]; idle_semaphore := O;
              raised := raised s; world := world s |}
      else s
  end.

(** [obj["obj_name"]] *)
Definition name_of (obj : SfObject) : exn + pystr :=
  match obj_name obj with
  | Some name => inr name
  | None => inl (Exn KeyError (lit "obj_name"))
  end.

(** The body of the [as_completed] loop for one future: in either branch
    the message is formatted first, and [obj["obj_name"]] raises there when
    the entry has no such key. *)
Definition report (obj : SfObject) (result : exn + Z) : M exn () :=
  match result with
  | inl e =>
      name ← lift (name_of obj);
      logging WARNING [Txt name; Txt (lit " generated exception: "); Err e]
  | inr data =>
      name ← lift (name_of obj);
      logging INFO [Txt name; Txt (lit " has "); Num data;
                    Txt (lit " fields.")]
  end.

Definition result_of (st : task_state) : option (exn + Z) :=
  match st with
  | Succeeded n => Some (inr n)
  | Failed e => Some (inl e)
  | _ => None
  end.

Definition fire (max_workers : nat) (sf : Salesforce) (e : event) (s : Pool)
    : option Pool :=
  match e with
  | Submit =>
      match raised s, todo s with
      | None, json_sf_object :: rest =>
          Some (adjust_thread_count max_workers
            {| todo := rest;
               futures := futures s ++ [{| fut_obj := json_sf_object;
                                           fut_state := Pending;
                                           fut_seen := false |}];
               work_queue := work_queue s ++ [length (futures s)];
               threads := threads s; idle_semaphore := idle_semaphore s;
               raised := raised s; world := world s |})
      | _, _ => None
      end
  | Take t =>
      match threads s !! t, work_queue s with
      | Some None, f :: queue =>
          match futures s !! f with
          | Some fu =>
              Some {| todo := todo s;
                      futures := <[f := {| fut_obj := fut_obj fu;
                                           fut_state := Running;
                                           fut_seen := fut_seen fu |}]>
                                   (futures s);
                      work_queue := queue;
                      threads := <[t := Some f]> (threads s);
                      idle_semaphore := idle_semaphore s;
                      raised := raised s; world := world s |}
          | None => None
          end
      | _, _ => None
      end
  | Finish t =>
      match threads s !! t with
      | Some (Some f) =>
          match futures s !! f with
          | Some fu =>
              let '(r, w) := get_sf_data sf (fut_obj fu) (world s) in
              Some {| todo := todo s;
                      futures := <[f := {| fut_obj := fut_obj fu;
                                           fut_state := outcome r;
                                           fut_seen := fut_seen fu |}]>
                                   (futures s);
                      work_queue := work_queue s;
                      threads := <[t := None]> (threads s);
                      idle_semaphore := S (idle_semaphore s);
                      raised := raised s; world := w |}
          | None => None
          end
      | _ => None
      end
  | Yield f =>
      match raised s, todo s, futures s !! f with
      | None, [], Some fu =>
          match fut_seen fu, result_of (fut_state fu) with
          | false, Some result =>
              let '(r, w) := report (fut_obj fu) result (world s) in
              Some {| todo := [];
                      futures := <[f := {| fut_obj := fut_obj fu;
                                           fut_state := fut_state fu;
                                           fut_seen := true |}]>
                                   (futures s);
                      work_queue := work_queue s;
                      threads := threads s;
                      idle_semaphore := idle_semaphore s;
                      raised := match r with inl e => Some e | inr _ => None end;
                      world := w |}
          | _, _ => None
          end
      | _, _, _ => None
      end
  end.

(** One step of the pool, whoever takes it. *)
Definition step (max_workers : nat) (sf : Salesforce) (s s' : Pool) : Prop :=
  ∃ e, fire max_workers sf e s = Some s'.

Definition candidates (s : Pool) : list event :=
  Submit :: map Take (seq 0 (length (threads s)))
    ++ map Finish (seq 0 (length (threads s)))
    ++ map Yield (seq 0 (length (futures s))).

Definition enabled (max_workers : nat) (sf : Salesforce) (s : Pool)
    : list event :=
  filter (λ e, is_Some (fire max_workers sf e s)) (candidates s).

(** The scheduler: which of the enabled events happens in a state. *)
Variable choose : Pool → nat.

Definition next (max_workers : nat) (sf : Salesforce) (s : Pool)
    : option Pool :=
  let es := enabled max_workers sf s in
  e ← es !! (choose s mod length es)%nat;
  fire max_workers sf e s.

Fixpoint run (max_workers : nat) (sf : Salesforce) (fuel : nat) (s : Pool)
    : Pool :=
  match fuel with
  | O => s
  | S fuel' =>
      match next max_workers sf s with
      | Some s' => run max_workers sf fuel' s'
      | None => s
      end
  end.

Definition submitted (list_sf_objects : list SfObject) (w : World) : Pool :=
  {| todo := list_sf_objects; futures := []; work_queue := [];
     threads := []; idle_semaphore := O; raised := None; world := w |}.

(** The pool when [execute] leaves its [with] block: every object takes a
    submission, a start, a completion and a turn of the loop. *)
Definition pool_at_exit (max_workers : nat) (sf : Salesforce)
    (list_sf_objects : list SfObject) (w : World) : Pool :=
  run max_workers sf (4 * length list_sf_objects)
      (submitted list_sf_objects w).

(** [ThreadPoolExecutor(max_workers=int(threads))]: the number of workers
    the pool of [execute] is given, or the [ValueError] of [int] or of the
    constructor. *)
Definition max_workers_of (threads : pystr) : exn + nat :=
  match int_of_str threads with
  | None => inl (Exn ValueError (lit "invalid literal for int()"))
  | Some n =>
      if n <=? 0
      then inl (Exn ValueError (lit "max_workers must be greater than 0"))
      else inr (Z.to_nat n)
  end.

Definition execute (sf : Salesforce) (list_sf_objects : list SfObject)
    (threads : pystr) : M exn () := λ w,
  match max_workers_of threads with
  | inl e => (inl e, w)
  | inr max_workers =>
      let s := pool_at_exit max_workers sf list_sf_objects w in
      (match raised s with Some e => inl e | None => inr () end, world s)
  end.

(** A state the pool of [execute] can be in, under some scheduling. *)
Definition during_execute (sf : Salesforce) (list_sf_objects : list SfObject)
    (threads : pystr) (w : World) (s : Pool) : Prop :=
  ∃ max_workers,
    max_workers_of threads = inr max_workers
    ∧ rtc (step max_workers sf) (submitted list_sf_objects w) s.

(** *** The main block *)

Definition main : M abort () :=
  pre_steps;;
  init_logger;;
  config ← read_config CONFIG_FILE;
  SF_USERNAME ← config_get config (lit "salesforce") (lit "username");
  SF_PASSWORD ← config_get config (lit "salesforce") (lit "password");
  SF_TOKEN ← config_get config (lit "salesforce") (lit "token");
  SF_DOMAIN ← config_get config (lit "salesforce") (lit "domain");
  THREAD_COUNT ← config_get config (lit "proc") (lit "threads");
  sf ← get_sf_conn SF_USERNAME SF_PASSWORD SF_TOKEN SF_DOMAIN;
  json_data ← get_json_data JSON_FILE;
  uncaught (execute sf json_data THREAD_COUNT);;
  logging INFO [Txt (lit "--- Script took "); Elapsed; Txt (lit " ---")].

(** The exit status of the process: that of [sys.exit], 1 after an
    exception nobody caught, 0 when the script runs to its end. *)
Definition exit_code {A} (r : abort + A) : Z :=
  match r with
  | inl (SysExit code) => code
  | inl (Raise _) => 1
  | inr _ => 0
  end.

End Script.

(** *** The command line *)

Section CommandLine.

(** [argparse] on the command line: the arguments it parses, or the status
    with which [parse_args] ends the process itself (2 for a command line it
    rejects, 0 after [--help]). *)
Variable parse_args : list pystr → Z + Args.

Variable pd : Pandas.
Variable connect : pystr → pystr → pystr → pystr → exn + Salesforce.
Variable parse_config : content → exn + gmap pystr (gmap pystr pystr).
Variable json_load : content → exn + list SfObject.
Variable int_of_str : pystr → option Z.
Variable choose : Pool → nat.

Definition get_args (argv : list pystr) : M abort Args := λ w,
  match parse_args argv with
  | inl status => (inl (SysExit status), w)
  | inr args => (inr args, w)
  end.

(** The script as it is run: [args = get_args()], then the main block. *)
Definition script (argv : list pystr) : M abort () :=
  args ← get_args argv;
  main args pd connect parse_config json_load int_of_str choose.

End CommandLine.

(** * Vocabulary of the statements *)

(** Changes of the world. *)
Definition add_log (l : list (level * list part)) (w : World) : World :=
  {| w_fs := w_fs w; w_log := w_log w ++ l; w_net := w_net w |}.

Definition add_net (r : list request) (w : World) : World :=
  {| w_fs := w_fs w; w_log := w_log w; w_net := w_net w ++ r |}.

Definition add_file (p : path) (c : content) (w : World) : World :=
  {| w_fs := <[p := File c]> (w_fs w); w_log := w_log w; w_net := w_net w |}.

(** [p] can be opened for writing. *)
Definition writable (w : World) (p : path) : bool :=
  is_dir (w_fs w) (parent p) && negb (is_dir (w_fs w) p).

(** The first log line of a task. *)
Definition fields_line (sf_object : SfObject) : level * list part :=
  (DEBUG, [Txt (obj_api_name sf_object); Txt (lit " has fields ");
           Txt (join (lit ",") (field_names sf_object))]).

Definition no_data_line (sf_object : SfObject) : level * list part :=
  (INFO, [Obj sf_object; Txt (lit " has no data.")]).

(** The two files of a table. *)
Definition csv_of (df : DataFrame) : content :=
  Csv (column_names df) (rows_of df) false.

Definition parquet_of (df : DataFrame) : content :=
  Parquet (lit "pyarrow") (lit "snappy") (df_columns df) false.

(** The query as the specification words it: the field names as they
    stand in the schema. *)
Definition query_spec (sf_object : SfObject) : pystr :=
  lit "SELECT " ++ join (lit ",") (map field_api_name (fields sf_object))
    ++ lit " FROM " ++ obj_api_name sf_object.

(** * A small installation, for the examples *)

Module Example.

Definition normal : Args :=
  {| config := [lit "config.ini"]; json := [lit "objects.json"];
     exec_type := lit "NORMAL"; log_level := lit "INFO";
     log_path := [lit "logs"]; output_path := [lit "out"] |}.

Definition bulk : Args :=
  {| config := [lit "config.ini"]; json := [lit "objects.json"];
     exec_type := lit "BULK"; log_level := lit "INFO";
     log_path := [lit "logs"]; output_path := [lit "out"] |}.

(** A cast that knows one numeric dtype: [int64] takes integers only. *)
Definition cast (dtype : pystr) (c : cell) : exn + cell :=
  if decide (dtype = lit "int64") then
    match c with
    | Val (PInt z) => inr c
    | _ => inl (Exn ValueError (lit "invalid literal for int()"))
    end
  else inr c.

(** A pyarrow that refuses a column holding both an integer and a string. *)
Definition mixed (cells : list cell) : bool :=
  existsb (λ c, match c with Val (PInt _) => true | _ => false end) cells
  && existsb (λ c, match c with Val (PStr _) => true | _ => false end) cells.

Definition arrow (df : DataFrame) : option exn :=
  if existsb (λ c, mixed c.2) (df_columns df)
  then Some (Exn ArrowInvalid (lit "Could not convert with type str: tried to convert to int64"))
  else None.

Definition pandas : Pandas :=
  {| cast_cell := cast; arrow_error := arrow |}.

Definition Account : SfObject :=
  {| obj_name := Some (lit "Account"); obj_api_name := lit "Account";
     fields := [{| field_api_name := lit "Id"; type := lit "str" |};
                {| field_api_name := lit "Name"; type := lit "str" |}] |}.

Definition Contact : SfObject :=
  {| obj_name := Some (lit "Contact"); obj_api_name := lit "Contact";
     fields := [{| field_api_name := lit "Id"; type := lit "str" |};
                {| field_api_name := lit "Age"; type := lit "int64" |}] |}.

Definition attributes (object : string) : pystr * pyval :=
  (lit "attributes", PDict [(lit "type", PStr (lit object))]).

Definition account (id name : string) : pyval :=
  PDict [attributes "Account"; (lit "Id", PStr (lit id));
         (lit "Name", PStr (lit name))].

Definition contact (id : string) (age : pyval) : pyval :=
  PDict [attributes "Contact"; (lit "Id", PStr (lit id)); (lit "Age", age)].

Definition accounts : list pyval :=
  [account "001" "Acme"; account "002" "Globex"; account "003" "Initech"].

(** What [sf.query_all] returns: the records in their envelope. *)
Definition envelope (records : list pyval) : pyval :=
  PDict [(lit "records", PList records);
         (lit "totalSize", PInt (Z.of_nat (length records)));
         (lit "done", PBool true)].

(** An organisation with three accounts and no contact. *)
Definition sf : Salesforce :=
  {| query_all := λ q,
       if decide (q = query Account) then inr (envelope accounts)
       else inr (envelope []);
     bulk_query_all := λ object q,
       if decide (object = lit "Account") then inr (PList accounts)
       else inr (PList []) |}.

(** An organisation whose one contact has a name where the age goes. *)
Definition sf_bad_age : Salesforce :=
  {| query_all := λ q,
       if decide (q = query Contact)
       then inr (envelope [contact "003" (PStr (lit "abc"))])
       else inr (envelope accounts);
     bulk_query_all := λ object q,
       if decide (object = lit "Contact")
       then inr (PList [contact "003" (PStr (lit "abc"))])
       else inr (PList accounts) |}.

(** The world after [pre_steps]: empty output directories. *)
Definition clean : World :=
  {| w_fs := {[ [lit "out"] := Dir;
                [lit "out"; lit "csv"] := Dir;
                [lit "out"; lit "pq"] := Dir;
                [lit "logs"] := Dir;
                [lit "config.ini"] := File (Text (lit "2"));
                [lit "objects.json"] := File (Text (lit "[]")) ]};
     w_log := []; w_net := [] |}.

(** [int] on one ASCII digit. *)
Definition int_of_digit (s : pystr) : option Z :=
  match s with
  | [c] => if ((48 <=? c) && (c <=? 57))%N then Some (Z.of_N c - 48) else None
  | _ => None
  end.

(** A scheduler: it favours the later events the more futures there are. *)
Definition scheduler (s : Pool) : nat := length (futures s).

(** A login that succeeds, and one that is refused. *)
Definition connect (username password token domain : pystr)
    : exn + Salesforce :=
  inr sf_bad_age.

Definition refuse (username password token domain : pystr)
    : exn + Salesforce :=
  inl (Exn SalesforceAuthenticationFailed (lit "INVALID_LOGIN")).

(** Stand-ins for the parsers: the config file holds the thread count for
    all text, the schema file always lists the same three objects. *)
Definition parse_config (c : content)
    : exn + gmap pystr (gmap pystr pystr) :=
  match c with
  | Text t =>
      inr {[ lit "salesforce" := {[ lit "username" := lit "user";
                                    lit "password" := lit "secret";
                                    lit "token" := lit "token";
                                    lit "domain" := lit "login" ]};
             lit "proc" := {[ lit "threads" := t ]} ]}
  | _ => inl (Exn ParseError (lit "File contains no section headers."))
  end.

Definition json_load (c : content) : exn + list SfObject :=
  inr [Account; Contact; Account].

(** The clean world with a config file that asks for no thread at all. *)
Definition no_threads : World :=
  {| w_fs := <[ [lit "config.ini"] := File (Text (lit "0")) ]> (w_fs clean);
     w_log := []; w_net := [] |}.

(** A stand-in for [argparse] that knows one command line and rejects every
    other with status 2. *)
Definition argv : list pystr :=
  [lit "config.ini"; lit "objects.json"; lit "--output_path"; lit "out"].

Definition parse_args (l : list pystr) : Z + Args :=
  if decide (l = argv) then inr normal else inl 2.

End Example.

Module Unnamed.

(** A schema file whose second entry comes without the key [obj_name]. *)
Definition Contact : SfObject :=
  {| obj_name := None; obj_api_name := lit "Contact";
     fields := fields Example.Contact |}.

Definition json_load (c : content) : exn + list SfObject :=
  inr [Example.Account; Contact].

End Unnamed.

Module Mixed.

(** An object whose one column is declared [object], and an organisation
    where one record holds a number in it and the next a string. *)
Definition Item : SfObject :=
  {| obj_name := Some (lit "Item"); obj_api_name := lit "Item";
     fields := [{| field_api_name := lit "Code"; type := lit "object" |}] |}.

Definition item (code : pyval) : pyval :=
  PDict [Example.attributes "Item"; (lit "Code", code)].

Definition items : list pyval := [item (PInt 7); item (PStr (lit "seven"))].

Definition sf : Salesforce :=
  {| query_all := λ q, inr (Example.envelope items);
     bulk_query_all := λ object q, inr (PList items) |}.

(** The table of the two records, as fetched and as cast. *)
Definition table : DataFrame :=
  frame_of_records [[(lit "Code", PInt 7)];
                    [(lit "Code", PStr (lit "seven"))]].

End Mixed.

(** [p] lies inside the directory [d]. *)
Definition inside (d p : path) : Prop := d `prefix_of` p ∧ p ≠ d.

Module Leftover.

(** A world with the output of an earlier run, and no schema file. *)
Definition world : World :=
  {| w_fs := {[ [lit "out"] := Dir;
                [lit "out"; lit "csv"] := Dir;
                [lit "out"; lit "csv"; lit "Account.csv"] :=
                  File (Csv [lit "Id"] [[Val (PStr (lit "001"))]] false);
                [lit "out"; lit "pq"] := Dir;
                [lit "out"; lit "pq"; lit "Account.parquet"] :=
                  File (Parquet (lit "pyarrow") (lit "snappy")
                          [(lit "Id", [Val (PStr (lit "001"))])] false);
                [lit "config.ini"] := File (Text (lit "2")) ]};
     w_log := []; w_net := [] |}.

End Leftover.

(** ** The pool *)

#[global] Instance level_eq_dec : EqDecision level.
Proof. solve_decision. Defined.

#[global] Instance exn_class_eq_dec : EqDecision exn_class.
Proof. solve_decision. Defined.

#[global] Instance exn_eq_dec : EqDecision exn.
Proof. solve_decision. Defined.

#[global] Instance task_state_eq_dec : EqDecision task_state.
Proof. solve_decision. Defined.

(** The state of a future, by its position in [genr]. *)
Definition state_of (s : Pool) (f : nat) : option task_state :=
  fut_state <$> futures s !! f.

(** The futures the threads are running. *)
Definition busy (s : Pool) : list nat := omap id (threads s).

(** How many tasks are executing: the futures in state [Running]. *)
Definition running (s : Pool) : nat :=
  length (filter (λ f, state_of s f = Some Running)
            (seq 0 (length (futures s)))).

(** The bookkeeping of the executor agrees with the futures: the queue holds
    the pending ones, the threads run the running ones, and there are no
    more threads than [max_workers]. *)
Record pool_ok (max_workers : nat) (s : Pool) : Prop := {
  ok_threads : (length (threads s) ≤ max_workers)%nat;
  ok_queue_nodup : NoDup (work_queue s);
  ok_queue : ∀ f, f ∈ work_queue s ↔ state_of s f = Some Pending;
  ok_busy_nodup : NoDup (busy s);
  ok_busy : ∀ f, f ∈ busy s ↔ state_of s f = Some Running;
  ok_spawned : (0 < max_workers)%nat →
               (futures s = [] ∧ idle_semaphore s = O) ∨ threads s ≠ []
}.

(** The line the loop of [execute] logs for a result, for an object of
    that name. *)
Definition report_line (name : pystr) (r : exn + Z) : level * list part :=
  match r with
  | inl e => (WARNING, [Txt name; Txt (lit " generated exception: "); Err e])
  | inr data => (INFO, [Txt name; Txt (lit " has "); Num data;
                        Txt (lit " fields.")])
  end.

(** A schema entry with its ['obj_name']. *)
Definition named (o : SfObject) : Prop := is_Some (obj_name o).

(** The exception of the loop of [execute] on an entry without. *)
Definition no_obj_name : exn := Exn KeyError (lit "obj_name").

(** The steps a future still has to take: start, completion, its turn in
    the loop. *)
Definition weight (fu : Future) : nat :=
  match fut_state fu with
  | Pending => 3
  | Running => 2
  | _ => if fut_seen fu then 0 else 1
  end.

(** The steps a task still has to take, whatever becomes of the loop. *)
Definition steps (fu : Future) : nat :=
  match fut_state fu with
  | Pending => 2
  | Running => 1
  | _ => 0
  end.

(** The events left before [execute] is through.  Once the body of the loop
    has raised, the loop is over, and the [with] block waits for the tasks
    that have not completed. *)
Definition remaining (s : Pool) : nat :=
  match raised s with
  | None => 4 * length (todo s) + sum_list (weight <$> futures s)
  | Some _ => sum_list (steps <$> futures s)
  end.

Section PoolRun.

Variable args : Args.
Variable pd : Pandas.
Variable sf : Salesforce.

(** The request of a task that has completed. *)
Definition done_request (fu : Future) : option request :=
  match result_of (fut_state fu) with
  | Some _ => Some (issued args (fut_obj fu))
  | None => None
  end.

(** What a pool that [execute] started on [objs] in the world [w0] has done
    so far: the futures are those of the objects submitted, in order; the
    one exception that can have reached the dispatcher is the [KeyError] of
    an entry without ['obj_name'], raised in the loop once everything was
    submitted; a future the loop has handled has its line in the log, or has
    no name and has ended the loop; a result is what [get_sf_data] gave for
    the object; the requests made are those of the completed tasks. *)
Record pool_run (objs : list SfObject) (w0 : World) (s : Pool) : Prop := {
  run_objs : map fut_obj (futures s) ++ todo s = objs;
  run_raised : ∀ e, raised s = Some e →
               e = no_obj_name ∧ todo s = []
               ∧ ∃ o, o ∈ objs ∧ obj_name o = None;
  run_seen : ∀ f fu, futures s !! f = Some fu → fut_seen fu = true →
             ∃ r, result_of (fut_state fu) = Some r
                  ∧ match obj_name (fut_obj fu) with
                    | Some name => report_line name r ∈ w_log (world s)
                    | None => raised s = Some no_obj_name
                    end;
  run_result : ∀ f fu r, futures s !! f = Some fu →
               result_of (fut_state fu) = Some r →
               ∃ w1, (get_sf_data args pd sf (fut_obj fu) w1).1 = r;
  run_net : w_net (world s) ≡ₚ w_net w0 ++ omap done_request (futures s);
  run_files_log : ∃ l, w_log (world s) = w_log w0 ++ l
}.

(** Events fired one after the other. *)
Fixpoint fire_all (max_workers : nat) (es : list event) (s : Pool)
    : option Pool :=
  match es with
  | [] => Some s
  | e :: es' =>
      match fire args pd max_workers sf e s with
      | Some s' => fire_all max_workers es' s'
      | None => None
      end
  end.

End PoolRun.

Module Midway.

(** Three objects submitted to two workers, both of them at work. *)
Definition schedule : list event := [Submit; Take 0; Submit; Take 1; Submit].

Definition start : Pool :=
  submitted [Example.Account; Example.Contact; Example.Account] Example.clean.

Definition pool : Pool :=
  default start
    (fire_all Example.normal Example.pandas Example.sf 2 schedule start).

End Midway.

(** ** The main block *)

Section StartUp.

Variable args : Args.
Variable connect : pystr → pystr → pystr → pystr → exn + Salesforce.
Variable parse_config : content → exn + gmap pystr (gmap pystr pystr).
Variable json_load : content → exn + list SfObject.

(** The main block up to the call of [execute]: what it hands over. *)
Definition start_up : M abort (Salesforce * list SfObject * pystr) :=
  pre_steps args;;
  init_logger args;;
  config ← read_config parse_config (CONFIG_FILE args);
  SF_USERNAME ← config_get config (lit "salesforce") (lit "username");
  SF_PASSWORD ← config_get config (lit "salesforce") (lit "password");
  SF_TOKEN ← config_get config (lit "salesforce") (lit "token");
  SF_DOMAIN ← config_get config (lit "salesforce") (lit "domain");
  THREAD_COUNT ← config_get config (lit "proc") (lit "threads");
  sf ← get_sf_conn connect SF_USERNAME SF_PASSWORD SF_TOKEN SF_DOMAIN;
  json_data ← get_json_data json_load (JSON_FILE args);
  mret (sf, json_data, THREAD_COUNT).

End StartUp.

(** A computation that, when it stops early, stops the process with exit
    status 1: by [sys.exit(1)] or by an exception nobody catches. *)
Definition fatal {A} (m : M abort A) : Prop :=
  ∀ w a w', m w = (inl a, w') → a = SysExit 1 ∨ ∃ e, a = Raise e.

(** No plain file at [p]. *)
Definition no_file (fs : gmap path node) (p : path) : Prop :=
  ∀ c, fs !! p ≠ Some (File c).

Module NoParquet.

(** A world whose [pq] directory is not there. *)
Definition world : World :=
  {| w_fs := {[ [lit "out"] := Dir; [lit "out"; lit "csv"] := Dir ]};
     w_log := []; w_net := [] |}.

(** The three accounts as a table, fetched and cast. *)
Definition accounts : DataFrame :=
  frame_of_records
    [[(lit "Id", PStr (lit "001")); (lit "Name", PStr (lit "Acme"))];
     [(lit "Id", PStr (lit "002")); (lit "Name", PStr (lit "Globex"))];
     [(lit "Id", PStr (lit "003")); (lit "Name", PStr (lit "Initech"))]].

End NoParquet.

(** The schema entry with its field names stripped beforehand. *)
Definition stripped (o : SfObject) : SfObject :=
  {| obj_name := obj_name o; obj_api_name := obj_api_name o;
     fields := map (λ f, {| field_api_name := strip (field_api_name f);
                            type := type f |}) (fields o) |}.

Module Wide.

(** Contacts wanted with a field the API does not return. *)
Definition Contact : SfObject :=
  {| obj_name := Some (lit "Contact"); obj_api_name := lit "Contact";
     fields := [{| field_api_name := lit "Id"; type := lit "str" |};
                {| field_api_name := lit "Age"; type := lit "int64" |};
                {| field_api_name := lit "Age"; type := lit "str" |};
                {| field_api_name := lit "Email"; type := lit "str" |}] |}.

Definition row : list (pystr * pyval) :=
  [Example.attributes "Contact"; (lit "Id", PStr (lit "003"));
   (lit "Age", PInt 41)].

(** A record as a mock without the envelope would give it. *)
Definition bare : list (pystr * pyval) :=
  [(lit "Id", PStr (lit "003")); (lit "Age", PInt 41)].

Definition sf : Salesforce :=
  {| query_all := λ q, inr (Example.envelope [PDict row]);
     bulk_query_all := λ object q, inr (PList [PDict bare]) |}.

End Wide.

(** ** Counting in the log and among the futures *)

(** The warnings of a log. *)
Definition warnings (log : list (level * list part)) : nat :=
  length (filter (λ l, l.1 = WARNING) log).

(** The exception of a failed task, once the loop of [execute] has handled
    its future and found the name of its object for the warning. *)
Definition reported_failure (fu : Future) : option exn :=
  if fut_seen fu then
    match obj_name (fut_obj fu), fut_state fu with
    | Some _, Failed e => Some e
    | _, _ => None
    end
  else None.

(** The exception of a failed task. *)
Definition failure (fu : Future) : option exn :=
  match fut_state fu with
  | Failed e => Some e
  | _ => None
  end.

Module Later.

(** The pool of two workers on an account, the contact with a name for an
    age and another account: after the first two tasks, and after the
    third. *)
Definition start : Pool :=
  submitted [Example.Account; Example.Contact; Example.Account] Example.clean.

Definition first : Pool :=
  default start
    (fire_all Example.normal Example.pandas Example.sf_bad_age 2
       [Submit; Take 0; Finish 0; Submit; Take 0; Finish 0] start).

Definition second : Pool :=
  default first
    (fire_all Example.normal Example.pandas Example.sf_bad_age 2
       [Submit; Take 0; Finish 0] first).

End Later.

(** ** What a computation keeps *)

(** However [m] ends, the world it leaves satisfies [P] if the world it
    started in did. *)
Definition preserves {E A} (P : World → Prop) (m : M E A) : Prop :=
  ∀ w, P w → P (m w).2.

(** ** The output directories *)

(** The output directories as the tasks need them: [csv] and [pq] are
    there, and no directory stands where a task writes. *)
Definition output_ready (args : Args) (fs : gmap path node) : Prop :=
  fs !! (output_path args ++ [lit "csv"]) = Some Dir
  ∧ fs !! (output_path args ++ [lit "pq"]) = Some Dir
  ∧ ∀ o, fs !! csv_path args o ≠ Some Dir ∧ fs !! pq_path args o ≠ Some Dir.

(** [csv] and [pq] hold a file for the same objects. *)
Definition paired (args : Args) (fs : gmap path node) : Prop :=
  ∀ o, is_file fs (csv_path args o) = is_file fs (pq_path args o).

(** A parquet file in [pq] has the CSV file of its object in [csv]. *)
Definition parquet_has_csv (args : Args) (fs : gmap path node) : Prop :=
  ∀ o, is_file fs (pq_path args o) = true → is_file fs (csv_path args o) = true.

(** The file the log handler writes to. *)
Definition log_file (args : Args) : path :=
  log_path args ++ [lit "salesforce_script.log"].

(** * Properties *)

(** Unfolding the monad of the script. *)
Ltac unfold_M :=
  unfold mbind, M_bind, mret, M_ret, lift, logging, call, files, sys_exit,
    uncaught in *.

(** ** The monad *)

Lemma bind_inr {E A B} (m : M E A) (f : A → M E B) (w w' : World) (y : B) :
  (m ≫= f) w = (inr y, w') →
  ∃ x w1, m w = (inr x, w1) ∧ f x w1 = (inr y, w').
Proof.
  unfold mbind, M_bind. destruct (m w) as [[e|x] w1]; [done|]. eauto.
Qed.

Lemma bind_inl {E A B} (m : M E A) (f : A → M E B) (w w' : World) (e : E) :
  (m ≫= f) w = (inl e, w') →
  m w = (inl e, w') ∨ ∃ x w1, m w = (inr x, w1) ∧ f x w1 = (inl e, w').
Proof.
  unfold mbind, M_bind. destruct (m w) as [[e1|x] w1].
  - intros [= -> ->]. by left.
  - intros H. right. eauto.
Qed.

Lemma uncaught_inr {A} (m : M exn A) (w w' : World) (x : A) :
  uncaught m w = (inr x, w') → m w = (inr x, w').
Proof.
  unfold uncaught. destruct (m w) as [[e|y] w1]; congruence.
Qed.

Lemma uncaught_sys_exit {A} (m : M exn A) (w w' : World) (code : Z) :
  uncaught m w ≠ (inl (SysExit code), w').
Proof.
  unfold uncaught. destruct (m w) as [[e|y] w1]; congruence.
Qed.

(** ** Strings and dictionaries *)

Lemma dict_get_keys {V} (k : pystr) (d : list (pystr * V)) (v : V) :
  dict_get k d = Some v → k ∈ map fst d.
Proof.
  revert v. induction d as [|[k' v'] d IH]; intros v; simpl; [done|].
  destruct (dict_get k d) as [v''|] eqn:Hd.
  - intros _. apply elem_of_cons. right. by eapply IH.
  - case_decide; [|done]. intros _. subst. apply elem_of_cons. by left.
Qed.

Lemma add_key_elem (acc : list pystr) (k x : pystr) :
  x ∈ add_key acc k ↔ x ∈ acc ∨ x = k.
Proof.
  unfold add_key. case_decide; set_solver.
Qed.

Lemma fold_add_key_elem (ks acc : list pystr) (x : pystr) :
  x ∈ fold_left add_key ks acc ↔ x ∈ acc ∨ x ∈ ks.
Proof.
  revert acc. induction ks as [|k ks IH]; intros acc; simpl.
  - set_solver.
  - rewrite IH, add_key_elem. set_solver.
Qed.

Lemma dict_keys_elem {V} (d : list (pystr * V)) (x : pystr) :
  x ∈ dict_keys d ↔ x ∈ map fst d.
Proof.
  unfold dict_keys. rewrite fold_add_key_elem. set_solver.
Qed.

(** ** Traversals *)

Lemma traverse_fails {E A B} (f : A → E + B) (l : list A) (x : A) (e : E) :
  x ∈ l → f x = inl e → ∃ e', traverse f l = inl e'.
Proof.
  intros Hx Hf. induction l as [|y l IH]; [by apply elem_of_nil in Hx|].
  simpl. destruct (f y) as [e1|z] eqn:Hy; [by eauto|].
  apply elem_of_cons in Hx as [->|Hx]; [congruence|].
  destruct (IH Hx) as [e' ->]. eauto.
Qed.

(** ** One task: [get_sf_data] *)

Section Task.

Variable args : Args.
Variable pd : Pandas.

(** The task after its request: what is left once the answer is in. *)
Lemma coerce_and_write_spec (o : SfObject) (df : DataFrame) (w : World) :
  coerce_and_write args pd o df w =
  let w1 := add_log [(DEBUG, [Types (dict_fields o)])] w in
  match astype (cast_cell pd) (dict_fields o) df with
  | inl e => (inl e, w1)
  | inr df' =>
      if writable w1 (csv_path args o) then
        let w2 := add_file (csv_path args o) (csv_of df') w1 in
        match arrow_error pd df' with
        | Some e => (inl e, w2)
        | None =>
            if writable w2 (pq_path args o) then
              (inr (len_index df'),
               add_log [(DEBUG, [Dtypes df'])]
                 (add_file (pq_path args o) (parquet_of df') w2))
            else (inl (Exn OSError (lit "cannot open file for writing")), w2)
        end
      else (inl (Exn OSError (lit "cannot open file for writing")), w1)
  end.
Proof.
  unfold coerce_and_write, to_csv, to_parquet, write_file, writable.
  unfold_M. simpl.
  destruct (astype _ _ _) as [e|df']; [done|]. simpl.
  destruct (is_dir (w_fs w) (parent (csv_path args o))
            && negb (is_dir (w_fs w) (csv_path args o))); [|done].
  simpl. destruct (arrow_error pd df') as [e|]; [done|].
  destruct (is_dir _ (parent (pq_path args o)) && negb (is_dir _ (pq_path args o)));
    done.
Qed.

Lemma get_sf_data_spec (sf : Salesforce) (o : SfObject) (w : World) :
  get_sf_data args pd sf o w =
  let w1 := add_net [issued args o] (add_log [fields_line o] w) in
  match answer args sf o with
  | inl e => (inl e, w1)
  | inr data =>
      if truthy data then
        match raw_table args data with
        | inl e => (inl e, w1)
        | inr df => coerce_and_write args pd o df w1
        end
      else (inr 0, add_log [no_data_line o] w1)
  end.
Proof.
  unfold get_sf_data, fetch, answer, issued, raw_table, records_in.
  unfold_M. simpl.
  destruct (decide (exec_type args = lit "BULK")) as [Hb|Hb]; simpl.
  - destruct (bulk_query_all sf _ _) as [e|data]; [done|].
    destruct (truthy data); simpl; [|done].
    destruct (from_dict data) as [e|df]; [done|].
    destruct (drop _ df); done.
  - destruct (query_all sf _) as [e|data]; [done|].
    destruct (truthy data); simpl; [|done].
    destruct (getitem data _) as [e|records]; [done|].
    destruct (from_dict records) as [e|df]; [done|].
    destruct (drop _ df); done.
Qed.

End Task.

(** ** The query *)

Section Query.

Variable args : Args.
Variable pd : Pandas.

Lemma coerce_and_write_net (o : SfObject) (df : DataFrame) (w : World) :
  w_net (coerce_and_write args pd o df w).2 = w_net w.
Proof.
  rewrite coerce_and_write_spec. simpl.
  repeat case_match; done.
Qed.

Lemma get_sf_data_net (sf : Salesforce) (o : SfObject) (w : World) :
  w_net (get_sf_data args pd sf o w).2 = w_net w ++ [issued args o].
Proof.
  rewrite get_sf_data_spec. simpl.
  repeat case_match; try done.
  by rewrite coerce_and_write_net.
Qed.

(** C7, as amended: a task issues one request, and its query is [SELECT],
    the field API names stripped of surrounding whitespace and joined by
    commas in schema order, [FROM], and the object API name. *)
Theorem query_issued_strips_names (sf : Salesforce) (o : SfObject) (w : World) :
  let q := lit "SELECT "
             ++ join (lit ",") (map (λ f, strip (field_api_name f)) (fields o))
             ++ lit " FROM " ++ obj_api_name o in
  w_net (get_sf_data args pd sf o w).2 =
  w_net w ++ [if decide (exec_type args = lit "BULK")
              then BulkQuery (obj_api_name o) q
              else Query q].
Proof.
  intros q. rewrite get_sf_data_net. reflexivity.
Qed.

(** Where no field name carries surrounding whitespace, the query is the
    one the specification words. *)
Lemma query_of_stripped_names (o : SfObject) :
  Forall (λ f, strip (field_api_name f) = field_api_name f) (fields o) →
  query o = query_spec o.
Proof.
  intros H. unfold query, query_spec, field_names. do 2 f_equal.
  f_equal. apply map_ext_Forall. exact H.
Qed.

End Query.

(** C7, as stated, fails: a field name written with a leading blank reaches
    the query without it. *)
Lemma query_unstripped_counterexample :
  ¬ (∀ o : SfObject, query o = query_spec o).
Proof.
  intros H.
  specialize (H {| obj_name := Some (lit "Account"); obj_api_name := lit "Account";
                   fields := [{| field_api_name := lit " Id";
                                 type := lit "str" |}] |}).
  vm_compute in H. discriminate H.
Qed.

(** ** Objects without rows *)

Section EmptyResult.

Variable args : Args.
Variable pd : Pandas.

Lemma getitem_truthy (data v : pyval) (k : pystr) :
  getitem data k = inr v → truthy data = true.
Proof.
  destruct data as [| | | | |d]; simpl; try done.
  destruct d; [done|]. done.
Qed.

(** No file is made for an object without rows, whichever way the task
    ends. *)
Lemma zero_rows_no_files
    (sf : Salesforce) (o : SfObject) (w : World) (data : pyval) :
  answer args sf o = inr data →
  records_in args data = inr (PList []) →
  w_fs (get_sf_data args pd sf o w).2 = w_fs w.
Proof.
  intros Ha Hr. rewrite get_sf_data_spec, Ha. simpl.
  destruct (truthy data); [|done].
  unfold raw_table. rewrite Hr. reflexivity.
Qed.

(** C9: when the data fetched is empty in Python's sense, the task returns
    0 right after logging so: the log shows no coercion, the files are as
    they were.  And no file is made for an object without rows, whether
    the task takes that branch or not. *)
Theorem empty_branch_returns_before_writes
    (sf : Salesforce) (o : SfObject) (w : World) (data : pyval) :
  answer args sf o = inr data →
  (truthy data = false →
   get_sf_data args pd sf o w =
   (inr 0, {| w_fs := w_fs w;
              w_log := w_log w ++ [fields_line o; no_data_line o];
              w_net := w_net w ++ [issued args o] |}))
  ∧ (records_in args data = inr (PList []) →
     w_fs (get_sf_data args pd sf o w).2 = w_fs w).
Proof.
  intros Ha. split; [|by apply zero_rows_no_files].
  intros Ht. rewrite get_sf_data_spec, Ha. simpl. rewrite Ht.
  unfold add_log, add_net. simpl. by rewrite <- app_assoc.
Qed.

(** In bulk mode zero rows are an empty list, and the task returns 0. *)
Lemma bulk_zero_rows_returns_0 (sf : Salesforce) (o : SfObject) (w : World) :
  exec_type args = lit "BULK" →
  bulk_query_all sf (obj_api_name o) (query o) = inr (PList []) →
  (get_sf_data args pd sf o w).1 = inr 0.
Proof.
  intros Hb Ha. rewrite get_sf_data_spec. unfold answer.
  rewrite decide_True by done. by rewrite Ha.
Qed.

(** C1 fails in normal mode: [query_all] returns a dict; with the key
    [records] in it the dict is not empty, the test [not data] is false,
    and dropping [attributes] from the table of no record raises. *)
Theorem normal_zero_rows_raises
    (sf : Salesforce) (o : SfObject) (w : World) (d : list (pystr * pyval)) :
  exec_type args ≠ lit "BULK" →
  query_all sf (query o) = inr (PDict d) →
  dict_get (lit "records") d = Some (PList []) →
  (get_sf_data args pd sf o w).1 =
  inl (Exn KeyError (lit "['attributes'] not found in axis")).
Proof.
  intros Hb Ha Hr. rewrite get_sf_data_spec.
  unfold answer, raw_table, records_in.
  destruct (decide (exec_type args = lit "BULK")); [done|].
  rewrite Ha. destruct d as [|kv d]; [done|].
  cbn [truthy getitem]. rewrite Hr. reflexivity.
Qed.

End EmptyResult.

Lemma empty_branch_returns_before_writes_witness :
  get_sf_data Example.bulk Example.pandas Example.sf Example.Contact Example.clean =
  (inr 0, {| w_fs := w_fs Example.clean;
             w_log := [fields_line Example.Contact; no_data_line Example.Contact];
             w_net := [issued Example.bulk Example.Contact] |})
  ∧ w_fs (get_sf_data Example.normal Example.pandas Example.sf Example.Contact
            Example.clean).2 = w_fs Example.clean.
Proof.
  split.
  - apply (empty_branch_returns_before_writes Example.bulk Example.pandas
             Example.sf Example.Contact Example.clean (PList []));
      reflexivity.
  - apply (empty_branch_returns_before_writes Example.normal Example.pandas
             Example.sf Example.Contact Example.clean (Example.envelope []));
      reflexivity.
Defined.

Lemma normal_zero_rows_raises_witness :
  (get_sf_data Example.normal Example.pandas Example.sf Example.Contact
     Example.clean).1 =
  inl (Exn KeyError (lit "['attributes'] not found in axis")).
Proof.
  apply (normal_zero_rows_raises Example.normal Example.pandas Example.sf
           Example.Contact Example.clean
           [(lit "records", PList []); (lit "totalSize", PInt 0);
            (lit "done", PBool true)]).
  - vm_compute. discriminate.
  - reflexivity.
  - reflexivity.
Defined.

(** ** Coercion *)

Section Coercion.

Variable args : Args.
Variable pd : Pandas.

Lemma astype_column_names (dtypes : list (pystr * pystr))
    (cols cols' : list (pystr * list cell)) :
  traverse (astype_column (cast_cell pd) dtypes) cols = inr cols' →
  map fst cols' = map fst cols.
Proof.
  revert cols'. induction cols as [|c cols IH]; intros cols'; simpl.
  - by intros [= <-].
  - destruct (astype_column _ _ c) as [e|c'] eqn:Hc; [done|].
    destruct (traverse _ cols) as [e|cs]; [done|].
    intros [= <-]. simpl. f_equal; [|by apply IH].
    unfold astype_column in Hc.
    destruct (dict_get _ _); [|by inversion Hc].
    destruct (traverse _ c.2); by inversion Hc.
Qed.

(** A table that is cast has a column for every key of the dtypes, keeps
    its column names and its index. *)
Lemma astype_ok (dtypes : list (pystr * pystr)) (df df' : DataFrame) :
  astype (cast_cell pd) dtypes df = inr df' →
  (∀ k, k ∈ dict_keys dtypes → k ∈ column_names df)
  ∧ column_names df' = column_names df
  ∧ df_index df' = df_index df.
Proof.
  unfold astype.
  destruct (filter _ (dict_keys dtypes)) as [|k0 ks] eqn:Hf; [|done].
  destruct (traverse _ (df_columns df)) as [e|cols] eqn:Ht; [done|].
  intros [= <-]. split_and!; [| |done].
  - intros k Hk. destruct (decide (k ∈ column_names df)) as [|Hn]; [done|].
    assert (k ∈ filter (λ k, k ∉ column_names df) (dict_keys dtypes)) as Hin
      by (by apply list_elem_of_filter).
    rewrite Hf in Hin. by apply elem_of_nil in Hin.
  - unfold column_names. simpl. by eapply astype_column_names.
Qed.

(** One cell that cannot be cast fails the cast of the table. *)
Lemma astype_fails (dtypes : list (pystr * pystr)) (df : DataFrame)
    (c t : pystr) :
  dict_get c dtypes = Some t →
  (∀ cells, (c, cells) ∈ df_columns df →
     ∃ x e, x ∈ cells ∧ cast_cell pd t x = inl e) →
  ∃ e, astype (cast_cell pd) dtypes df = inl e.
Proof.
  intros Ht Hcells.
  destruct (astype (cast_cell pd) dtypes df) as [e|df'] eqn:Ha; [by eauto|].
  exfalso. pose proof (astype_ok _ _ _ Ha) as (Hkeys & _ & _).
  assert (c ∈ column_names df) as Hc.
  { apply Hkeys, dict_keys_elem. by eapply dict_get_keys. }
  apply list_elem_of_fmap in Hc as ([c' cells] & -> & Hin). simpl in *.
  destruct (Hcells cells Hin) as (x & e & Hx & Hcast).
  destruct (traverse_fails (cast_cell pd t) cells x e Hx Hcast) as [e1 He1].
  assert (astype_column (cast_cell pd) dtypes (c', cells) = inl e1) as Hcol.
  { unfold astype_column. simpl. by rewrite Ht, He1. }
  destruct (traverse_fails _ _ _ _ Hin Hcol) as [e2 He2].
  unfold astype in Ha.
  destruct (filter _ (dict_keys dtypes)); [|done].
  by rewrite He2 in Ha.
Qed.

(** The columns of the table of an answer hold, row by row, the values of
    the records. *)
Lemma raw_table_cells (data : pyval) (l : list pyval)
    (rs : list (list (pystr * pyval))) (df : DataFrame)
    (c : pystr) (cells : list cell) :
  records_in args data = inr (PList l) →
  as_records l = Some rs →
  raw_table args data = inr df →
  (c, cells) ∈ df_columns df →
  cells = map (cell_of c) rs.
Proof.
  intros Hr Hl. unfold raw_table. rewrite Hr. simpl. rewrite Hl.
  unfold drop. case_decide; [|done]. intros [= <-]. simpl.
  intros Hin. apply list_elem_of_filter in Hin as [_ Hin].
  apply list_elem_of_fmap in Hin as (k & [= -> ->] & _). done.
Qed.

Lemma records_truthy (data : pyval) (l : list pyval) :
  records_in args data = inr (PList l) → l ≠ [] → truthy data = true.
Proof.
  unfold records_in. case_decide.
  - intros [= ->] Hl. by destruct l.
  - intros Hg _. by eapply getitem_truthy.
Qed.

(** C3: a record with a value that cannot be cast to the declared type of
    its field fails the task, and the files are as they were: neither file
    of the object is made, no other file is touched. *)
Theorem coercion_failure_leaves_files
    (sf : Salesforce) (o : SfObject) (w : World) (data : pyval)
    (l : list pyval) (rs : list (list (pystr * pyval)))
    (r : list (pystr * pyval)) (c t : pystr) (v : pyval) (e0 : exn) :
  answer args sf o = inr data →
  records_in args data = inr (PList l) →
  as_records l = Some rs →
  r ∈ rs →
  dict_get c r = Some v →
  dict_get c (dict_fields o) = Some t →
  cast_cell pd t (Val v) = inl e0 →
  ∃ e w', get_sf_data args pd sf o w = (inl e, w')
          ∧ w_fs w' = w_fs w.
Proof.
  intros Ha Hr Hl Hin Hv Ht Hcast.
  rewrite get_sf_data_spec, Ha. simpl.
  rewrite (records_truthy data l Hr).
  2:{ intros ->. injection Hl as <-. by apply elem_of_nil in Hin. }
  destruct (raw_table args data) as [e|df] eqn:Hdf; [by eauto|].
  rewrite coerce_and_write_spec. simpl.
  destruct (astype_fails (dict_fields o) df c t Ht) as [e ->]; [|by eauto].
  intros cells Hc.
  rewrite (raw_table_cells data l rs df c cells Hr Hl Hdf Hc).
  exists (Val v), e0. split; [|done].
  apply list_elem_of_fmap. exists r. split; [|done].
  unfold cell_of. by rewrite Hv.
Qed.

End Coercion.

Lemma coercion_failure_leaves_files_witness :
  ∃ e w', get_sf_data Example.normal Example.pandas Example.sf_bad_age
            Example.Contact Example.clean = (inl e, w')
          ∧ w_fs w' = w_fs Example.clean.
Proof.
  apply (coercion_failure_leaves_files Example.normal Example.pandas
           Example.sf_bad_age Example.Contact Example.clean
           (Example.envelope [Example.contact "003" (PStr (lit "abc"))])
           [Example.contact "003" (PStr (lit "abc"))]
           [[Example.attributes "Contact"; (lit "Id", PStr (lit "003"));
             (lit "Age", PStr (lit "abc"))]]
           [Example.attributes "Contact"; (lit "Id", PStr (lit "003"));
            (lit "Age", PStr (lit "abc"))]
           (lit "Age") (lit "int64") (PStr (lit "abc"))
           (Exn ValueError (lit "invalid literal for int()")));
    try reflexivity.
  apply list_elem_of_here.
Defined.

(** ** The two files *)

Section Writing.

Variable args : Args.
Variable pd : Pandas.

Lemma parent_snoc (p : path) (d x : pystr) : parent (p ++ [d; x]) = p ++ [d].
Proof.
  unfold parent. change [d; x] with ([d] ++ [x]).
  by rewrite app_assoc, removelast_last.
Qed.

Lemma is_dir_add_file (w : World) (p q : path) (c : content) :
  p ≠ q → is_dir (w_fs (add_file p c w)) q = is_dir (w_fs w) q.
Proof.
  intros Hne. unfold is_dir, add_file. simpl.
  destruct q; [done|]. by rewrite lookup_insert_ne.
Qed.

Lemma csv_pq_distinct (o : SfObject) :
  csv_path args o ≠ pq_path args o
  ∧ csv_path args o ≠ output_path args ++ [lit "pq"].
Proof.
  unfold csv_path, pq_path. split.
  - intros H. apply app_inv_head in H. discriminate H.
  - intros H. apply (f_equal length) in H.
    rewrite !length_app in H. simpl in H. lia.
Qed.

(** C6, as amended: a table that was fetched and cast, and that pyarrow
    converts, is written twice, as [csv/<object>.csv] with the column names
    as header and as [pq/<object>.parquet] with snappy compression, both
    without an index column and both holding the table that was cast; the
    task returns the number of its rows.  The columns are those of the
    records fetched, and every declared field is among them. *)
Theorem coerced_table_written_twice
    (sf : Salesforce) (o : SfObject) (w : World) (data : pyval)
    (df df' : DataFrame) :
  answer args sf o = inr data →
  truthy data = true →
  raw_table args data = inr df →
  astype (cast_cell pd) (dict_fields o) df = inr df' →
  arrow_error pd df' = None →
  is_dir (w_fs w) (output_path args ++ [lit "csv"]) = true →
  is_dir (w_fs w) (output_path args ++ [lit "pq"]) = true →
  is_dir (w_fs w) (csv_path args o) = false →
  is_dir (w_fs w) (pq_path args o) = false →
  ∃ w', get_sf_data args pd sf o w = (inr (Z.of_nat (df_index df')), w')
    ∧ w_fs w' =
        <[output_path args ++ [lit "pq"; obj_api_name o ++ lit ".parquet"] :=
            File (Parquet (lit "pyarrow") (lit "snappy") (df_columns df') false)]>
          (<[output_path args ++ [lit "csv"; obj_api_name o ++ lit ".csv"] :=
               File (Csv (map fst (df_columns df')) (rows_of df') false)]>
             (w_fs w))
    ∧ map fst (df_columns df') = map fst (df_columns df)
    ∧ (∀ k, k ∈ field_names o → k ∈ map fst (df_columns df'))
    ∧ df_index df' = df_index df.
Proof.
  intros Ha Ht Hdf Hcast Harrow Hcsv Hpq Hc Hp.
  rewrite get_sf_data_spec, Ha. simpl. rewrite Ht, Hdf.
  rewrite coerce_and_write_spec. simpl. rewrite Hcast, Harrow.
  destruct (csv_pq_distinct o) as [Hne1 Hne2].
  unfold writable. simpl.
  unfold csv_path at 1 2. rewrite parent_snoc. fold (csv_path args o).
  rewrite Hcsv, Hc. simpl.
  change (is_dir (<[csv_path args o:=File (csv_of df')]> (w_fs w)))
    with (is_dir (w_fs (add_file (csv_path args o) (csv_of df') w))).
  unfold pq_path at 1 2. rewrite parent_snoc. fold (pq_path args o).
  rewrite !is_dir_add_file by done. rewrite Hpq, Hp. simpl.
  eexists. split; [reflexivity|]. simpl.
  pose proof (astype_ok _ _ _ _ Hcast) as (Hkeys & Hnames & Hidx).
  split_and!; [done|done| |done].
  intros k Hk. fold (column_names df'). rewrite Hnames.
  apply Hkeys, dict_keys_elem.
  unfold dict_fields, field_types.
  rewrite fst_zip; [done|]. unfold field_names. by rewrite !length_map.
Qed.

End Writing.

Lemma coerced_table_written_twice_witness :
  ∃ w', get_sf_data Example.normal Example.pandas Example.sf Example.Account
          Example.clean = (inr 3, w')
    ∧ w_fs w' !! [lit "out"; lit "csv"; lit "Account.csv"] =
        Some (File (Csv [lit "Id"; lit "Name"]
                [[Val (PStr (lit "001")); Val (PStr (lit "Acme"))];
                 [Val (PStr (lit "002")); Val (PStr (lit "Globex"))];
                 [Val (PStr (lit "003")); Val (PStr (lit "Initech"))]] false)).
Proof.
  destruct (coerced_table_written_twice Example.normal Example.pandas
              Example.sf Example.Account Example.clean
              (Example.envelope Example.accounts)
              (frame_of_records
                 [[(lit "Id", PStr (lit "001")); (lit "Name", PStr (lit "Acme"))];
                  [(lit "Id", PStr (lit "002")); (lit "Name", PStr (lit "Globex"))];
                  [(lit "Id", PStr (lit "003")); (lit "Name", PStr (lit "Initech"))]])
              (frame_of_records
                 [[(lit "Id", PStr (lit "001")); (lit "Name", PStr (lit "Acme"))];
                  [(lit "Id", PStr (lit "002")); (lit "Name", PStr (lit "Globex"))];
                  [(lit "Id", PStr (lit "003")); (lit "Name", PStr (lit "Initech"))]]))
    as (w' & Hrun & Hfs & _); try reflexivity.
  exists w'. split; [exact Hrun|].
  rewrite Hfs. rewrite lookup_insert_ne by discriminate.
  rewrite lookup_insert_eq. reflexivity.
Defined.

(** C6, as stated, fails.  The table of the two items is fetched and cast,
    and the two directories are there.  The task writes the CSV file; then
    pyarrow refuses the column that holds a number and a string, so there is
    no parquet file, and the task raises instead of returning its row
    count. *)
Lemma coerced_table_counterexample :
  let r := get_sf_data Example.normal Example.pandas Mixed.sf Mixed.Item
             Example.clean in
  answer Example.normal Mixed.sf Mixed.Item
    = inr (Example.envelope Mixed.items)
  ∧ truthy (Example.envelope Mixed.items) = true
  ∧ raw_table Example.normal (Example.envelope Mixed.items) = inr Mixed.table
  ∧ astype (cast_cell Example.pandas) (dict_fields Mixed.Item) Mixed.table
      = inr Mixed.table
  ∧ is_dir (w_fs Example.clean) (output_path Example.normal ++ [lit "csv"])
      = true
  ∧ is_dir (w_fs Example.clean) (output_path Example.normal ++ [lit "pq"])
      = true
  ∧ is_dir (w_fs Example.clean) (csv_path Example.normal Mixed.Item) = false
  ∧ is_dir (w_fs Example.clean) (pq_path Example.normal Mixed.Item) = false
  ∧ option_map exn_class_of (arrow_error Example.pandas Mixed.table)
      = Some ArrowInvalid
  ∧ r.1 = inl (default (Exn ArrowInvalid [])
                 (arrow_error Example.pandas Mixed.table))
  ∧ w_fs r.2 !! csv_path Example.normal Mixed.Item
      = Some (File (Csv [lit "Code"]
                      [[Val (PInt 7)]; [Val (PStr (lit "seven"))]] false))
  ∧ w_fs r.2 !! pq_path Example.normal Mixed.Item = None.
Proof.
  intros r. unfold r.
  split_and!; try reflexivity; vm_compute; reflexivity.
Qed.

(** ** [pre_steps] *)

Section PreSteps.

Variable args : Args.

Lemma lookup_mkdirs (fs : gmap path node) (l : list path) (p : path) :
  foldr (λ q fs, <[q := Dir]> fs) fs l !! p =
  if decide (p ∈ l) then Some Dir else fs !! p.
Proof.
  induction l as [|q l IH]; simpl; [done|].
  destruct (decide (q = p)) as [->|Hne].
  - rewrite lookup_insert_eq. rewrite decide_True; [done|]. by left.
  - rewrite lookup_insert_ne by done. rewrite IH.
    destruct (decide (p ∈ l)) as [Hin|Hin].
    + rewrite decide_True; [done|]. by right.
    + rewrite decide_False; [done|].
      intros [->|?]%elem_of_cons; done.
Qed.

Lemma ancestors_length (d p : path) :
  p ∈ ancestors d → (length p ≤ length d)%nat.
Proof.
  unfold ancestors. intros (n & -> & _)%list_elem_of_fmap.
  rewrite length_take. lia.
Qed.

Lemma inside_length (d p : path) : inside d p → (length d < length p)%nat.
Proof.
  intros [[k ->] Hne]. rewrite length_app.
  destruct k; [|simpl; lia]. by rewrite app_nil_r in Hne.
Qed.

Lemma ancestors_self (d : path) : d ≠ [] → d ∈ ancestors d.
Proof.
  intros Hd. unfold ancestors. apply list_elem_of_fmap.
  exists (length d). split; [by rewrite firstn_all|].
  apply elem_of_seq. destruct d; [done|]. simpl. lia.
Qed.

(** Cleaning one directory: what is left when [rmtree] and [mkdir] both
    went through. *)
Lemma clean_dir_spec (d : path) (w w' : World) :
  d ≠ [] →
  (rmtree d;; mkdir d) w = (inr (), w') →
  w_log w' = w_log w ∧ w_net w' = w_net w ∧
  w_fs w' !! d = Some Dir ∧
  (∀ p, inside d p → w_fs w' !! p = None) ∧
  (∀ p, ¬ d `prefix_of` p → p ∉ ancestors d → w_fs w' !! p = w_fs w !! p).
Proof.
  intros Hd. unfold rmtree, mkdir. unfold_M.
  destruct (w_fs w !! d) as [[|c]|] eqn:Hlook; simpl.
  2:{ (* a plain file: [rmtree] leaves it, [mkdir] raises *)
      assert (existsb (is_file (w_fs w)) (ancestors d) = true) as ->; [|done].
      apply existsb_exists. exists d. split.
      - apply list_elem_of_In. by apply ancestors_self.
      - unfold is_file. by rewrite Hlook. }
  all: destruct (existsb _ (ancestors d)); [done|].
  all: intros [= <-]; simpl; split_and!; try done.
  all: try (rewrite lookup_mkdirs, decide_True; [done|by apply ancestors_self]).
  all: try (intros p Hin; rewrite lookup_mkdirs, decide_False;
            [ apply map_lookup_filter_None; right; intros x _ Hp;
              apply Hp; simpl; by destruct Hin
            | intros Ha%ancestors_length; apply inside_length in Hin; lia ]).
  all: intros p Hp Ha; rewrite lookup_mkdirs, decide_False by done.
  all: destruct (w_fs w !! p) as [x|] eqn:Hx.
  all: try (by apply map_lookup_filter_Some).
  all: apply map_lookup_filter_None; by left.
Qed.

Lemma csv_pq_apart (out p : path) :
  (out ++ [lit "csv"] `prefix_of` p → ¬ out ++ [lit "pq"] `prefix_of` p)
  ∧ (out ++ [lit "csv"] `prefix_of` p → p ∉ ancestors (out ++ [lit "pq"])).
Proof.
  split.
  - intros [k ->] [k' Heq]. rewrite <- !app_assoc in Heq.
    apply app_inv_head in Heq. discriminate Heq.
  - intros [k ->] (n & Heq & Hn)%list_elem_of_fmap.
    apply elem_of_seq in Hn. rewrite length_app in Hn. simpl in Hn.
    assert (n ≤ length out ∨ n = S (length out))%nat as [Hle| ->] by lia.
    + apply (f_equal length) in Heq. rewrite length_take in Heq.
      rewrite !length_app in Heq. simpl in Heq. lia.
    + rewrite take_ge in Heq by (rewrite length_app; simpl; lia).
      rewrite <- app_assoc in Heq. apply app_inv_head in Heq.
      discriminate Heq.
Qed.

(** The loop of [pre_steps], when no step of it raises. *)
Lemma clean_output_spec (w w' : World) :
  for_each [lit "csv"; lit "pq"] (λ dir,
    rmtree (output_path args ++ [dir]);;
    mkdir (output_path args ++ [dir])) w = (inr (), w') →
  w_log w' = w_log w ∧ w_net w' = w_net w ∧
  (∀ dir, dir ∈ [lit "csv"; lit "pq"] →
     w_fs w' !! (output_path args ++ [dir]) = Some Dir
     ∧ ∀ p, inside (output_path args ++ [dir]) p → w_fs w' !! p = None).
Proof.
  simpl. intros ([] & w1 & H1 & ([] & w2 & H2 & Hret)%bind_inr)%bind_inr.
  injection Hret as <-.
  apply clean_dir_spec in H1 as (Hl1 & Hn1 & Hd1 & Hin1 & Hout1);
    [|by destruct (output_path args)].
  apply clean_dir_spec in H2 as (Hl2 & Hn2 & Hd2 & Hin2 & Hout2);
    [|by destruct (output_path args)].
  split_and!; [congruence|congruence|].
  intros dir [->|[->|[]%elem_of_nil]%elem_of_cons]%elem_of_cons.
  - destruct (csv_pq_apart (output_path args) (output_path args ++ [lit "csv"]))
      as [Ha Hb].
    split.
    + rewrite Hout2; [done|by apply Ha|by apply Hb].
    + intros p Hp.
      destruct (csv_pq_apart (output_path args) p) as [Ha' Hb'].
      rewrite Hout2; [by apply Hin1|apply Ha', Hp|apply Hb', Hp].
  - split; [done|]. exact Hin2.
Qed.

(** Once the loop is through, a config or schema file that is not there
    ends [pre_steps] with [sys.exit(1)]. *)
Lemma pre_steps_exits_when_missing (w w1 : World) :
  for_each [lit "csv"; lit "pq"] (λ dir,
    rmtree (output_path args ++ [dir]);;
    mkdir (output_path args ++ [dir])) w = (inr (), w1) →
  path_exists (w_fs w1) (config args) && path_exists (w_fs w1) (json args)
    = false →
  pre_steps args w =
  (inl (SysExit 1),
   add_log [(ERROR, [Where (config args); Txt (lit " or ");
                     Where (json args); Txt (lit " missing.")])] w1).
Proof.
  intros Hclean Hex. unfold pre_steps, CONFIG_FILE, JSON_FILE.
  unfold mbind at 1, M_bind at 1, uncaught at 1. rewrite Hclean.
  unfold files, mbind at 1, M_bind at 1. by rewrite Hex.
Qed.

(** C10: a run of [pre_steps] that ends in [sys.exit(1)] has emptied both
    output directories first: they are there, nothing is inside, and the
    exit is owed to the config or schema file missing afterwards. *)
Theorem exit_for_missing_file_after_cleaning (w w' : World) :
  pre_steps args w = (inl (SysExit 1), w') →
  (∀ dir, dir ∈ [lit "csv"; lit "pq"] →
     w_fs w' !! (output_path args ++ [dir]) = Some Dir
     ∧ ∀ p, inside (output_path args ++ [dir]) p → w_fs w' !! p = None)
  ∧ path_exists (w_fs w') (config args) && path_exists (w_fs w') (json args)
    = false.
Proof.
  unfold pre_steps.
  intros [Hx|([] & w1 & Hclean & Hrest)]%bind_inl;
    [by apply uncaught_sys_exit in Hx|].
  apply uncaught_inr, clean_output_spec in Hclean as (_ & _ & Hdirs).
  revert Hrest. unfold files, mbind at 1, M_bind at 1.
  unfold CONFIG_FILE, JSON_FILE.
  destruct (path_exists (w_fs w1) (config args)
            && path_exists (w_fs w1) (json args)) eqn:Hex; simpl.
  - intros Hx. by apply uncaught_sys_exit in Hx.
  - unfold_M. intros [= <-]. simpl. by split.
Qed.

End PreSteps.

Lemma exit_for_missing_file_after_cleaning_witness :
  is_Some (w_fs Leftover.world !! [lit "out"; lit "csv"; lit "Account.csv"])
  ∧ ∃ w', pre_steps Example.normal Leftover.world = (inl (SysExit 1), w')
          ∧ w_fs w' !! [lit "out"; lit "csv"; lit "Account.csv"] = None
          ∧ w_fs w' !! [lit "out"; lit "pq"; lit "Account.parquet"] = None.
Proof.
  split; [eexists; vm_compute; reflexivity|].
  destruct (pre_steps Example.normal Leftover.world) as [r w'] eqn:Hrun.
  assert (r = inl (SysExit 1)) as ->.
  { apply (f_equal fst) in Hrun. vm_compute in Hrun. congruence. }
  exists w'. split; [done|].
  destruct (exit_for_missing_file_after_cleaning Example.normal
              Leftover.world w' Hrun) as [Hdirs _].
  split.
  - apply (Hdirs (lit "csv")); [by left|].
    split; [by exists [lit "Account.csv"]|discriminate].
  - apply (Hdirs (lit "pq")); [right; by left|].
    split; [by exists [lit "Account.parquet"]|discriminate].
Defined.

(** ** The thread pool *)

(** *** Lists updated in place *)

Lemma omap_insert_same {A B} (h : A → option B) (l : list A) (i : nat) (x y : A) :
  l !! i = Some x → h y = h x → omap h (<[i:=y]> l) = omap h l.
Proof.
  revert i. induction l as [|a l IH]; intros [|i]; simpl; try done.
  - intros [= ->] ->. done.
  - intros Hl Hh. by rewrite IH.
Qed.

Lemma omap_insert_Some {A B} (h : A → option B) (l : list A) (i : nat)
    (x y : A) (v : B) :
  l !! i = Some x → h x = None → h y = Some v →
  omap h (<[i:=y]> l) ≡ₚ v :: omap h l.
Proof.
  revert i. induction l as [|a l IH]; intros [|i]; simpl; try done.
  - intros [= ->] -> ->. done.
  - intros Hl Hx Hy. pose proof (IH i Hl Hx Hy) as Hp.
    destruct (h a); [|done]. rewrite Hp. apply perm_swap.
Qed.

Lemma omap_insert_None {A B} (h : A → option B) (l : list A) (i : nat)
    (x y : A) (v : B) :
  l !! i = Some x → h x = Some v → h y = None →
  omap h l ≡ₚ v :: omap h (<[i:=y]> l).
Proof.
  revert i. induction l as [|a l IH]; intros [|i]; simpl; try done.
  - intros [= ->] -> ->. done.
  - intros Hl Hx Hy. pose proof (IH i Hl Hx Hy) as Hp.
    destruct (h a); [|done]. rewrite Hp. apply perm_swap.
Qed.

Lemma omap_length_le {A B} (h : A → option B) (l : list A) :
  (length (omap h l) ≤ length l)%nat.
Proof.
  induction l as [|a l IH]; [done|].
  change (omap h (a :: l)) with
    (match h a with Some y => y :: omap h l | None => omap h l end).
  destruct (h a); simpl length; lia.
Qed.

(** *** The events, one by one *)

Section Pool.

Variable args : Args.
Variable pd : Pandas.
Variable sf : Salesforce.
Variable max_workers : nat.

Lemma fire_submit (s s' : Pool) :
  fire args pd max_workers sf Submit s = Some s' →
  ∃ o rest,
    raised s = None ∧ todo s = o :: rest ∧
    s' = adjust_thread_count max_workers
           {| todo := rest;
              futures := futures s ++ [{| fut_obj := o; fut_state := Pending;
                                          fut_seen := false |}];
              work_queue := work_queue s ++ [length (futures s)];
              threads := threads s; idle_semaphore := idle_semaphore s;
              raised := raised s; world := world s |}.
Proof.
  simpl. destruct (raised s); [done|]. destruct (todo s) as [|o rest]; [done|].
  intros [= <-]. eauto.
Qed.

Lemma fire_take (t : nat) (s s' : Pool) :
  fire args pd max_workers sf (Take t) s = Some s' →
  ∃ f queue fu,
    threads s !! t = Some None ∧ work_queue s = f :: queue ∧
    futures s !! f = Some fu ∧
    s' = {| todo := todo s;
            futures := <[f := {| fut_obj := fut_obj fu; fut_state := Running;
                                 fut_seen := fut_seen fu |}]> (futures s);
            work_queue := queue;
            threads := <[t := Some f]> (threads s);
            idle_semaphore := idle_semaphore s;
            raised := raised s; world := world s |}.
Proof.
  simpl. destruct (threads s !! t) as [[f'|]|]; try done.
  destruct (work_queue s) as [|f queue]; [done|].
  destruct (futures s !! f) as [fu|] eqn:Hf; [|done].
  intros [= <-]. by exists f, queue, fu.
Qed.

Lemma fire_finish (t : nat) (s s' : Pool) :
  fire args pd max_workers sf (Finish t) s = Some s' →
  ∃ f fu,
    threads s !! t = Some (Some f) ∧ futures s !! f = Some fu ∧
    s' = {| todo := todo s;
            futures := <[f := {| fut_obj := fut_obj fu;
                                 fut_state := outcome
                                   (get_sf_data args pd sf (fut_obj fu)
                                      (world s)).1;
                                 fut_seen := fut_seen fu |}]> (futures s);
            work_queue := work_queue s;
            threads := <[t := None]> (threads s);
            idle_semaphore := S (idle_semaphore s);
            raised := raised s;
            world := (get_sf_data args pd sf (fut_obj fu) (world s)).2 |}.
Proof.
  simpl. destruct (threads s !! t) as [[f|]|]; try done.
  destruct (futures s !! f) as [fu|] eqn:Hf; [|done].
  destruct (get_sf_data _ _ _ _ _) as [r w] eqn:Hrun. intros [= <-].
  exists f, fu. by rewrite Hrun.
Qed.

Lemma report_spec (o : SfObject) (r : exn + Z) (w : World) :
  report o r w =
  match obj_name o with
  | Some name => (inr (), add_log [report_line name r] w)
  | None => (inl no_obj_name, w)
  end.
Proof. unfold report, name_of. by destruct r, (obj_name o). Qed.

Lemma fire_yield (f : nat) (s s' : Pool) :
  fire args pd max_workers sf (Yield f) s = Some s' →
  ∃ fu r,
    raised s = None ∧ todo s = [] ∧ futures s !! f = Some fu ∧
    fut_seen fu = false ∧ result_of (fut_state fu) = Some r ∧
    s' = {| todo := [];
            futures := <[f := {| fut_obj := fut_obj fu;
                                 fut_state := fut_state fu;
                                 fut_seen := true |}]> (futures s);
            work_queue := work_queue s; threads := threads s;
            idle_semaphore := idle_semaphore s;
            raised := match obj_name (fut_obj fu) with
                      | Some _ => None
                      | None => Some no_obj_name
                      end;
            world := match obj_name (fut_obj fu) with
                     | Some name => add_log [report_line name r] (world s)
                     | None => world s
                     end |}.
Proof.
  simpl. destruct (raised s); [done|]. destruct (todo s); [|done].
  destruct (futures s !! f) as [fu|] eqn:Hf; [|done].
  destruct (fut_seen fu) eqn:Hseen; [done|].
  destruct (result_of (fut_state fu)) as [r|] eqn:Hr; [|done].
  rewrite report_spec. exists fu, r.
  destruct (obj_name (fut_obj fu)); injection H as <-; done.
Qed.

Lemma state_of_insert (l : list Future) (f g : nat) (fu fu' : Future) :
  l !! f = Some fu →
  fut_state <$> <[f := fu']> l !! g =
  if decide (g = f) then Some (fut_state fu') else fut_state <$> l !! g.
Proof.
  intros Hf. rewrite list_lookup_insert.
  apply lookup_lt_Some in Hf.
  destruct (decide (g = f)) as [->|Hne].
  - by rewrite decide_True.
  - rewrite decide_False; [done|]. intros [-> _]. done.
Qed.

Lemma adjust_thread_count_fields (s : Pool) :
  let s' := adjust_thread_count max_workers s in
  todo s' = todo s ∧ futures s' = futures s ∧ work_queue s' = work_queue s
  ∧ raised s' = raised s ∧ world s' = world s
  ∧ busy s' = busy s
  ∧ (length (threads s') ≤ max_workers ∨ threads s' = threads s)%nat
  ∧ (threads s ≠ [] → threads s' ≠ [])
  ∧ ((0 < max_workers)%nat → idle_semaphore s = O → threads s' ≠ []).
Proof.
  unfold adjust_thread_count, busy.
  destruct (idle_semaphore s) as [|n] eqn:Hidle; simpl.
  - case_decide; simpl; split_and!; try done.
    + by rewrite omap_app, app_nil_r.
    + left. rewrite length_app. simpl. lia.
    + by destruct (threads s).
    + by destruct (threads s).
    + by right.
    + intros HW _ Hnil. rewrite Hnil in *. simpl in *. lia.
  - split_and!; try done. by right.
Qed.

Lemma state_of_snoc (l : list Future) (g : nat) (fu : Future) :
  fut_state <$> (l ++ [fu]) !! g =
  if decide (g = length l) then Some (fut_state fu) else fut_state <$> l !! g.
Proof.
  destruct (decide (g = length l)) as [->|Hne].
  - by rewrite list_lookup_middle.
  - destruct (decide (g < length l)%nat) as [Hlt|Hge].
    + by rewrite lookup_app_l.
    + rewrite !(proj2 (lookup_ge_None _ _)); [done|lia|].
      rewrite length_app. simpl. lia.
Qed.

Lemma state_of_valid (s : Pool) (f : nat) (st : task_state) :
  state_of s f = Some st → (f < length (futures s))%nat.
Proof.
  unfold state_of. destruct (futures s !! f) eqn:Hf; [|done].
  intros _. by eapply lookup_lt_Some.
Qed.

Lemma outcome_done (r : exn + Z) :
  outcome r ≠ Pending ∧ outcome r ≠ Running.
Proof. by destruct r. Qed.

Lemma elem_of_busy (s : Pool) (t f : nat) :
  threads s !! t = Some (Some f) → f ∈ busy s.
Proof.
  intros Ht. apply list_elem_of_omap. exists (Some f). split; [|done].
  by eapply list_elem_of_lookup_2.
Qed.

(** Every event keeps the bookkeeping in order. *)
Lemma pool_ok_fire (e : event) (s s' : Pool) :
  pool_ok max_workers s →
  fire args pd max_workers sf e s = Some s' →
  pool_ok max_workers s'.
Proof.
  intros [Hthreads Hqnd Hq Hbnd Hb Hsp] Hfire. destruct e as [|t|t|f].
  - (* Submit *)
    apply fire_submit in Hfire as (o & rest & Hraised & Htodo & ->).
    match goal with |- pool_ok _ (adjust_thread_count _ ?s1) =>
      pose proof (adjust_thread_count_fields s1)
        as (_ & Hfut & Hqueue & _ & _ & Hbusy & Hlen & Hne & Hnew)
    end.
    simpl in *. split.
    + destruct Hlen as [Hlen|Heq]; [done|]. by rewrite Heq.
    + rewrite Hqueue. apply NoDup_app. split_and!; [done| |apply NoDup_singleton].
      intros x Hx%Hq%state_of_valid ->%list_elem_of_singleton. lia.
    + intros g. unfold state_of. rewrite Hqueue, Hfut, state_of_snoc.
      rewrite elem_of_app, list_elem_of_singleton, Hq. simpl.
      case_decide as Hg; [naive_solver|]. unfold state_of. naive_solver.
    + by rewrite Hbusy.
    + intros g. unfold state_of. rewrite Hbusy, Hfut, state_of_snoc, Hb. simpl.
      case_decide as Hg; [|done]. subst g. split; [|done].
      intros Hx%state_of_valid. lia.
    + intros HW. right. destruct (Hsp HW) as [[_ Hidle]|Hthr]; eauto.
  - (* Take *)
    apply fire_take in Hfire as (f & queue & fu & Ht & Hqueue & Hf & ->).
    rewrite Hqueue in Hqnd, Hq. apply NoDup_cons in Hqnd as [Hfq Hqnd].
    assert (state_of s f = Some Pending) as Hpend by (apply Hq; left).
    assert (busy {| todo := todo s;
                    futures := <[f := {| fut_obj := fut_obj fu;
                                         fut_state := Running;
                                         fut_seen := fut_seen fu |}]> (futures s);
                    work_queue := queue;
                    threads := <[t := Some f]> (threads s);
                    idle_semaphore := idle_semaphore s;
                    raised := raised s; world := world s |}
            ≡ₚ f :: busy s) as Hperm.
    { unfold busy. simpl. by eapply omap_insert_Some. }
    split; simpl.
    + by rewrite length_insert.
    + done.
    + intros g. unfold state_of. simpl. rewrite (state_of_insert _ _ _ fu) by done.
      simpl. case_decide as Hg.
      * subst g. split; [done|discriminate].
      * rewrite <- (Hq g). rewrite elem_of_cons. naive_solver.
    + rewrite Hperm. apply NoDup_cons. split; [|done].
      intros Hx%Hb. congruence.
    + intros g. rewrite Hperm, elem_of_cons, Hb. unfold state_of. simpl.
      rewrite (state_of_insert _ _ _ fu) by done. simpl.
      case_decide; naive_solver.
    + intros _. right. intros Hnil. apply (f_equal length) in Hnil.
      rewrite length_insert in Hnil. apply lookup_lt_Some in Ht.
      simpl in Hnil. lia.
  - (* Finish *)
    apply fire_finish in Hfire as (f & fu & Ht & Hf & ->).
    assert (state_of s f = Some Running) as Hrun by (by eapply Hb, elem_of_busy).
    set (r := (get_sf_data args pd sf (fut_obj fu) (world s)).1).
    destruct (outcome_done r) as [Hnp Hnr].
    assert (busy s ≡ₚ
            f :: busy {| todo := todo s;
                         futures := <[f := {| fut_obj := fut_obj fu;
                                              fut_state := outcome r;
                                              fut_seen := fut_seen fu |}]>
                                      (futures s);
                         work_queue := work_queue s;
                         threads := <[t := None]> (threads s);
                         idle_semaphore := S (idle_semaphore s);
                         raised := raised s;
                         world := (get_sf_data args pd sf (fut_obj fu)
                                     (world s)).2 |}) as Hperm.
    { unfold busy. simpl. by eapply omap_insert_None. }
    rewrite Hperm in Hbnd. apply NoDup_cons in Hbnd as [Hfb Hbnd].
    split; simpl.
    + by rewrite length_insert.
    + done.
    + intros g. rewrite Hq. unfold state_of. simpl.
      rewrite (state_of_insert _ _ _ fu) by done. simpl.
      case_decide as Hg; [|done]. subst g. unfold state_of in Hrun.
      rewrite Hrun. split; congruence.
    + done.
    + intros g. unfold state_of. simpl.
      rewrite (state_of_insert _ _ _ fu) by done. simpl.
      case_decide as Hg.
      * subst g. split; [done|congruence].
      * rewrite <- (Hb g), Hperm, elem_of_cons. naive_solver.
    + intros _. right. intros Hnil. apply (f_equal length) in Hnil.
      rewrite length_insert in Hnil. apply lookup_lt_Some in Ht.
      simpl in Hnil. lia.
  - (* Yield *)
    apply fire_yield in Hfire as (fu & r & Hraised & Htodo & Hf & Hseen & Hr & ->).
    assert (∀ g, fut_state <$> <[f := {| fut_obj := fut_obj fu;
                                         fut_state := fut_state fu;
                                         fut_seen := true |}]> (futures s) !! g
                 = state_of s g) as Hsame.
    { intros g. rewrite (state_of_insert _ _ _ fu) by done. simpl.
      case_decide; [|done]. subst g. unfold state_of. by rewrite Hf. }
    split; simpl; try done.
    + intros g. unfold state_of at 1. simpl. by rewrite Hsame.
    + intros g. unfold state_of at 1. simpl. by rewrite Hsame.
    + intros HW. destruct (Hsp HW) as [[Hnil _]|?]; [|by right].
      by rewrite Hnil in Hf.
Qed.

End Pool.

(** *** The worker budget *)

Section Budget.

Variable args : Args.
Variable pd : Pandas.
Variable sf : Salesforce.
Variable max_workers : nat.

Lemma pool_ok_submitted (objs : list SfObject) (w : World) :
  pool_ok max_workers (submitted objs w).
Proof.
  split; simpl.
  - lia.
  - apply NoDup_nil_2.
  - intros f. unfold state_of. simpl. split; [by intros ?%elem_of_nil|done].
  - apply NoDup_nil_2.
  - intros f. unfold state_of, busy. simpl.
    split; [by intros ?%elem_of_nil|done].
  - intros _. by left.
Qed.

Lemma pool_ok_reachable (s s' : Pool) :
  pool_ok max_workers s →
  rtc (step args pd max_workers sf) s s' →
  pool_ok max_workers s'.
Proof.
  intros Hok Hreach. induction Hreach as [|s s1 s' [e Hfire] _ IH]; [done|].
  apply IH. by eapply pool_ok_fire.
Qed.

(** No more tasks run than there are threads. *)
Lemma running_le_threads (s : Pool) :
  pool_ok max_workers s → (running s ≤ length (threads s))%nat.
Proof.
  intros Hok. unfold running.
  etrans; [|apply (omap_length_le id)].
  apply submseteq_length, NoDup_submseteq.
  - apply NoDup_filter, NoDup_seq.
  - intros f [Hrun _]%list_elem_of_filter. by apply Hok.
Qed.

Lemma fire_all_reachable (es : list event) (s s' : Pool) :
  fire_all args pd sf max_workers es s = Some s' →
  rtc (step args pd max_workers sf) s s'.
Proof.
  revert s. induction es as [|e es IH]; intros s; simpl.
  - intros [= <-]. apply rtc_refl.
  - destruct (fire _ _ _ _ e s) as [s1|] eqn:Hfire; [|done].
    intros Hrest. eapply rtc_l; [by exists e|]. by apply IH.
Qed.

(** The state a list of events leads to, when they can all fire. *)
Lemma fire_all_default (es : list event) (s : Pool) :
  bool_decide (is_Some (fire_all args pd sf max_workers es s)) = true →
  rtc (step args pd max_workers sf) s
      (default s (fire_all args pd sf max_workers es s)).
Proof.
  intros [s' Hs]%bool_decide_eq_true. rewrite Hs. simpl.
  by apply (fire_all_reachable es).
Qed.

End Budget.

(** *** What a run has done *)

Section Run.

Variable args : Args.
Variable pd : Pandas.
Variable sf : Salesforce.
Variable max_workers : nat.

Lemma coerce_and_write_log (o : SfObject) (df : DataFrame) (w : World) :
  ∃ l, w_log (coerce_and_write args pd o df w).2 = w_log w ++ l.
Proof.
  rewrite coerce_and_write_spec. simpl.
  repeat case_match; simpl; eauto using app_assoc.
Qed.

(** A task adds to the log and takes nothing from it. *)
Lemma get_sf_data_log (o : SfObject) (w : World) :
  ∃ l, w_log (get_sf_data args pd sf o w).2 = w_log w ++ l.
Proof.
  rewrite get_sf_data_spec. simpl.
  repeat case_match; simpl; eauto.
  - destruct (coerce_and_write_log o d
                (add_net [issued args o] (add_log [fields_line o] w)))
      as [l ->].
    simpl. eexists. by rewrite <- app_assoc.
  - eexists. by rewrite <- app_assoc.
Qed.

Lemma pool_run_submitted (objs : list SfObject) (w : World) :
  pool_run args pd sf objs w (submitted objs w).
Proof.
  split; simpl; try done.
  - by rewrite app_nil_r.
  - exists []. by rewrite app_nil_r.
Qed.

Lemma pool_run_fire (objs : list SfObject) (w0 : World) (e : event)
    (s s' : Pool) :
  pool_ok max_workers s →
  pool_run args pd sf objs w0 s →
  fire args pd max_workers sf e s = Some s' →
  pool_run args pd sf objs w0 s'.
Proof.
  intros Hok [Hobjs Hraised Hseen Hresult Hnet [l0 Hlog]] Hfire.
  destruct e as [|t|t|f].
  - (* Submit *)
    apply fire_submit in Hfire as (o & rest & Hnone & Htodo & ->).
    match goal with |- pool_run _ _ _ _ _ (adjust_thread_count _ ?s1) =>
      pose proof (adjust_thread_count_fields max_workers s1)
        as (Ht & Hfut & _ & Hr & Hw & _)
    end.
    simpl in *. split; rewrite ?Ht, ?Hfut, ?Hr, ?Hw.
    + rewrite map_app, <- app_assoc. simpl. by rewrite <- Htodo.
    + intros e He. by rewrite Hnone in He.
    + intros g fu [[_ Hg]|[_ <-]]%lookup_snoc_Some; [by eapply Hseen|done].
    + intros g fu r [[_ Hg]|[_ <-]]%lookup_snoc_Some; [by eapply Hresult|done].
    + rewrite omap_app. simpl. by rewrite app_nil_r.
    + eauto.
  - (* Take *)
    apply fire_take in Hfire as (f & queue & fu & Ht & Hqueue & Hf & ->).
    assert (fut_state fu = Pending) as Hpend.
    { assert (state_of s f = Some Pending) as Hst
        by (apply Hok; rewrite Hqueue; left).
      unfold state_of in Hst. rewrite Hf in Hst. by injection Hst. }
    split; simpl.
    + rewrite <- Hobjs. f_equal.
      change (map fut_obj ?l) with (fut_obj <$> l).
      rewrite list_fmap_insert. simpl. apply list_insert_id.
      by rewrite list_lookup_fmap, Hf.
    + done.
    + intros g fu' [(-> & <- & _)|[_ Hg]]%list_lookup_insert_Some; simpl.
      * intros Hs. destruct (Hseen _ _ Hf Hs) as (r & Hr & _).
        by rewrite Hpend in Hr.
      * by eapply Hseen.
    + intros g fu' r [(-> & <- & _)|[_ Hg]]%list_lookup_insert_Some; simpl;
        [done|by eapply Hresult].
    + rewrite (omap_insert_same _ _ _ fu); [done|done|].
      unfold done_request. simpl. by rewrite Hpend.
    + eauto.
  - (* Finish *)
    apply fire_finish in Hfire as (f & fu & Ht & Hf & ->).
    assert (fut_state fu = Running) as Hrun.
    { assert (state_of s f = Some Running) as Hst
        by (by eapply Hok, elem_of_busy).
      unfold state_of in Hst. rewrite Hf in Hst. by injection Hst. }
    destruct (get_sf_data_log (fut_obj fu) (world s)) as [l Hl].
    split; simpl.
    + rewrite <- Hobjs. f_equal.
      change (map fut_obj ?l) with (fut_obj <$> l).
      rewrite list_fmap_insert. simpl. apply list_insert_id.
      by rewrite list_lookup_fmap, Hf.
    + done.
    + intros g fu' [(-> & <- & _)|[_ Hg]]%list_lookup_insert_Some; simpl.
      * intros Hs. destruct (Hseen _ _ Hf Hs) as (r & Hr & _).
        by rewrite Hrun in Hr.
      * intros Hs. destruct (Hseen _ _ Hg Hs) as (r & Hr & Hin).
        exists r. split; [done|]. destruct (obj_name (fut_obj fu')); [|done].
        rewrite Hl. apply elem_of_app. by left.
    + intros g fu' r [(-> & <- & _)|[_ Hg]]%list_lookup_insert_Some; simpl;
        [|by eapply Hresult].
      destruct (get_sf_data _ _ _ _ _).1 eqn:Hres; simpl; intros [= <-]; eauto.
    + rewrite get_sf_data_net, Hnet.
      rewrite (omap_insert_Some _ _ _ fu _ (issued args (fut_obj fu))); [|done| |].
      * rewrite <- app_assoc. f_equiv. symmetry. apply Permutation_cons_append.
      * unfold done_request. by rewrite Hrun.
      * unfold done_request. simpl. by destruct (get_sf_data _ _ _ _ _).1.
    + rewrite Hl, Hlog. eexists. by rewrite <- app_assoc.
  - (* Yield *)
    apply fire_yield in Hfire as (fu & r & Hnone & Htodo & Hf & Hs & Hr & ->).
    assert (fut_obj fu ∈ objs) as Hin.
    { rewrite <- Hobjs. apply elem_of_app. left.
      apply list_elem_of_fmap. exists fu. split; [done|].
      by eapply list_elem_of_lookup_2. }
    split; simpl.
    + rewrite <- Hobjs, Htodo. f_equal.
      change (map fut_obj ?l) with (fut_obj <$> l).
      rewrite list_fmap_insert. simpl. apply list_insert_id.
      by rewrite list_lookup_fmap, Hf.
    + intros e. destruct (obj_name (fut_obj fu)) eqn:Hname; [done|].
      intros [= <-]. split_and!; [done|done|]. by exists (fut_obj fu).
    + intros g fu' [(-> & <- & _)|[_ Hg]]%list_lookup_insert_Some; simpl.
      * intros _. exists r. split; [done|].
        destruct (obj_name (fut_obj fu)); [|done].
        apply elem_of_app. right. left.
      * intros Hs'. destruct (Hseen _ _ Hg Hs') as (r' & Hr' & Hline).
        exists r'. split; [done|].
        destruct (obj_name (fut_obj fu')); [|congruence].
        destruct (obj_name (fut_obj fu)); [|done].
        apply elem_of_app. by left.
    + intros g fu' r' [(-> & <- & _)|[_ Hg]]%list_lookup_insert_Some; simpl;
        [by eapply Hresult|by eapply Hresult].
    + rewrite (omap_insert_same _ _ _ fu); [|done|done].
      by destruct (obj_name (fut_obj fu)).
    + destruct (obj_name (fut_obj fu)); simpl; [|eauto].
      rewrite Hlog. eexists. by rewrite <- app_assoc.
Qed.

End Run.

(** *** Every run comes to its end *)

Lemma sum_list_insert {A} (h : A → nat) (l : list A) (i : nat) (x y : A) :
  l !! i = Some x →
  (sum_list (h <$> <[i:=y]> l) + h x = sum_list (h <$> l) + h y)%nat.
Proof.
  revert i. induction l as [|a l IH]; intros [|i]; csimpl; try done.
  - intros [= ->]. lia.
  - intros Hl. specialize (IH i Hl). lia.
Qed.

Lemma sum_list_pos {A} (h : A → nat) (l : list A) :
  (0 < sum_list (h <$> l))%nat → ∃ i x, l !! i = Some x ∧ (0 < h x)%nat.
Proof.
  induction l as [|a l IH]; csimpl; [lia|].
  destruct (h a) as [|n] eqn:Ha.
  - intros Hpos. destruct (IH Hpos) as (i & x & Hl & Hx). by exists (S i), x.
  - intros _. exists O, a. split; [done|lia].
Qed.

Lemma sum_list_zero {A} (h : A → nat) (l : list A) (i : nat) (x : A) :
  sum_list (h <$> l) = O → l !! i = Some x → h x = O.
Proof.
  revert i. induction l as [|a l IH]; intros [|i]; csimpl; try done.
  - intros Hs [= ->]. lia.
  - intros Hs Hl. apply (IH i); [lia|done].
Qed.

Section Progress.

Variable args : Args.
Variable pd : Pandas.
Variable choose : Pool → nat.
Variable sf : Salesforce.
Variable max_workers : nat.

Lemma steps_le_weight (fu : Future) : (steps fu ≤ weight fu)%nat.
Proof. unfold steps, weight. destruct (fut_state fu); lia. Qed.

Lemma sum_list_le {A} (h g : A → nat) (l : list A) :
  (∀ x, h x ≤ g x)%nat → (sum_list (h <$> l) ≤ sum_list (g <$> l))%nat.
Proof.
  intros Hle. induction l as [|a l IH]; csimpl; [lia|].
  specialize (Hle a). lia.
Qed.

(** Every event uses up one of the steps that remain. *)
Lemma fire_remaining (e : event) (s s' : Pool) :
  pool_ok max_workers s →
  fire args pd max_workers sf e s = Some s' →
  (remaining s' < remaining s)%nat.
Proof.
  intros Hok Hfire. unfold remaining. destruct e as [|t|t|f].
  - apply fire_submit in Hfire as (o & rest & Hnone & Htodo & ->).
    match goal with |- context [adjust_thread_count _ ?s1] =>
      pose proof (adjust_thread_count_fields max_workers s1)
        as (Ht & Hfut & _ & Hr & _)
    end.
    simpl in Ht, Hfut, Hr. rewrite Hr, Ht, Hfut, Hnone, Htodo, fmap_app,
      sum_list_with_app.
    csimpl. lia.
  - apply fire_take in Hfire as (f & queue & fu & Ht & Hqueue & Hf & ->). simpl.
    assert (state_of s f = Some Pending) as Hst
      by (apply Hok; rewrite Hqueue; left).
    unfold state_of in Hst. rewrite Hf in Hst. injection Hst as Hst.
    destruct (raised s).
    + match goal with |- context [<[f := ?y]> _] =>
        pose proof (sum_list_insert steps _ _ _ y Hf) as Hsum;
        assert (steps y = 1%nat) as Hy by done
      end.
      assert (steps fu = 2%nat) as Hx by (unfold steps; by rewrite Hst).
      lia.
    + match goal with |- context [<[f := ?y]> _] =>
        pose proof (sum_list_insert weight _ _ _ y Hf) as Hsum;
        assert (weight y = 2%nat) as Hy by done
      end.
      assert (weight fu = 3%nat) as Hx by (unfold weight; by rewrite Hst).
      lia.
  - apply fire_finish in Hfire as (f & fu & Ht & Hf & ->). simpl.
    assert (state_of s f = Some Running) as Hst by (by eapply Hok, elem_of_busy).
    unfold state_of in Hst. rewrite Hf in Hst. injection Hst as Hst.
    destruct (raised s).
    + match goal with |- context [<[f := ?y]> _] =>
        pose proof (sum_list_insert steps _ _ _ y Hf) as Hsum;
        assert (steps y = 0%nat) as Hy
      end.
      { unfold steps. simpl. by destruct (get_sf_data _ _ _ _ _).1. }
      assert (steps fu = 1%nat) as Hx by (unfold steps; by rewrite Hst).
      lia.
    + match goal with |- context [<[f := ?y]> _] =>
        pose proof (sum_list_insert weight _ _ _ y Hf) as Hsum;
        assert (weight y ≤ 1)%nat as Hy
      end.
      { unfold weight. simpl.
        destruct (get_sf_data _ _ _ _ _).1; simpl; destruct (fut_seen fu); lia. }
      assert (weight fu = 2%nat) as Hx by (unfold weight; by rewrite Hst).
      lia.
  - apply fire_yield in Hfire as (fu & r & Hnone & Htodo & Hf & Hs & Hr & ->).
    simpl. rewrite Hnone, Htodo.
    match goal with |- context [<[f := ?y]> _] =>
      pose proof (sum_list_insert weight _ _ _ y Hf) as Hsum;
      assert (weight y = 0%nat) as Hy;
      [|pose proof (sum_list_le steps weight (<[f := y]> (futures s))
                      steps_le_weight) as Hle]
    end.
    { unfold weight. simpl. by destruct (fut_state fu). }
    assert (weight fu = 1%nat) as Hx.
    { unfold weight. rewrite Hs. by destruct (fut_state fu). }
    destruct (obj_name (fut_obj fu)); simpl; lia.
Qed.

Lemma next_fire (s s' : Pool) :
  next args pd choose max_workers sf s = Some s' →
  ∃ e, fire args pd max_workers sf e s = Some s'.
Proof.
  unfold next.
  destruct (enabled _ _ _ _ s !! _) as [e|]; simpl; [eauto|done].
Qed.

Lemma next_enabled (e : event) (s : Pool) :
  e ∈ candidates s →
  is_Some (fire args pd max_workers sf e s) →
  is_Some (next args pd choose max_workers sf s).
Proof.
  intros Hc He. unfold next.
  set (es := enabled args pd max_workers sf s).
  assert (e ∈ es) as Hin by (by apply list_elem_of_filter).
  assert (choose s mod length es < length es)%nat as Hlt.
  { apply Nat.mod_upper_bound. destruct es; [by apply elem_of_nil in Hin|done]. }
  apply lookup_lt_is_Some in Hlt as [e' He']. rewrite He'. simpl.
  apply list_elem_of_lookup_2, list_elem_of_filter in He'. apply He'.
Qed.

(** A task that has not completed can move on. *)
Lemma task_progress (s : Pool) (f : nat) (fu : Future) :
  (0 < max_workers)%nat →
  pool_ok max_workers s →
  futures s !! f = Some fu →
  result_of (fut_state fu) = None →
  ∃ e, e ∈ candidates s ∧ is_Some (fire args pd max_workers sf e s).
Proof.
  intros HW Hok Hf Hnone.
  destruct (busy s) as [|f' b] eqn:Hbusy.
  2:{ (* a thread is at work: it can finish *)
      assert (f' ∈ busy s) as Hin by (rewrite Hbusy; left).
      pose proof Hin as Hrun. apply Hok in Hrun.
      apply list_elem_of_omap in Hin as ([f''|] & Hin & [= ->]).
      apply list_elem_of_lookup_1 in Hin as [t Ht].
      exists (Finish t). split.
      - right. apply elem_of_app. right. apply elem_of_app. left.
        apply list_elem_of_fmap. exists t. split; [done|].
        apply elem_of_seq. apply lookup_lt_Some in Ht. lia.
      - simpl. rewrite Ht. unfold state_of in Hrun.
        destruct (futures s !! f') as [fu'|]; [|done].
        by destruct (get_sf_data _ _ _ _ _). }
  assert (threads s ≠ []) as Hthreads.
  { destruct (ok_spawned _ _ Hok HW) as [[Hnil _]|?]; [|done].
    by rewrite Hnil in Hf. }
  destruct (fut_state fu) eqn:Hst; try done.
  - (* pending: an idle thread can take the head of the queue *)
    assert (f ∈ work_queue s) as Hq.
    { apply Hok. unfold state_of. by rewrite Hf, <- Hst. }
    destruct (work_queue s) as [|f0 queue] eqn:Hqueue;
      [by apply elem_of_nil in Hq|].
    assert (state_of s f0 = Some Pending) as Hst0
      by (apply Hok; rewrite Hqueue; left).
    destruct (threads s) as [|[f1|] ths] eqn:Hths; [done| |].
    { unfold busy in Hbusy. rewrite Hths in Hbusy. done. }
    exists (Take 0). split.
    + right. apply elem_of_app. left. rewrite Hths. simpl. left.
    + simpl. rewrite Hths, Hqueue. simpl. unfold state_of in Hst0.
      by destruct (futures s !! f0).
  - (* running, yet no thread is at work *)
    assert (f ∈ busy s) as Hin.
    { apply Hok. unfold state_of. by rewrite Hf, <- Hst. }
    rewrite Hbusy in Hin. by apply elem_of_nil in Hin.
Qed.

(** While steps remain, some event can happen. *)
Lemma progress (s : Pool) :
  (0 < max_workers)%nat →
  pool_ok max_workers s →
  (0 < remaining s)%nat →
  ∃ e, e ∈ candidates s ∧ is_Some (fire args pd max_workers sf e s).
Proof.
  intros HW Hok Hrem. unfold remaining in Hrem.
  destruct (raised s) as [e0|] eqn:Hraised.
  { (* the loop is over: the tasks go on *)
    apply sum_list_pos in Hrem as (f & fu & Hf & Hw).
    apply (task_progress s f fu HW Hok Hf).
    unfold steps in Hw. destruct (fut_state fu); (done || lia). }
  destruct (todo s) as [|o rest] eqn:Htodo.
  2:{ exists Submit. split; [by left|]. simpl. by rewrite Hraised, Htodo. }
  simpl in Hrem.
  apply sum_list_pos in Hrem as (f & fu & Hf & Hw).
  destruct (result_of (fut_state fu)) as [r|] eqn:Hres;
    [|by apply (task_progress s f fu HW Hok Hf)].
  exists (Yield f). split.
  - right. apply elem_of_app. right. apply elem_of_app. right.
    apply list_elem_of_fmap. exists f. split; [done|].
    apply elem_of_seq. apply lookup_lt_Some in Hf. lia.
  - simpl. rewrite Hraised, Htodo, Hf, Hres. unfold weight in Hw.
    destruct (fut_seen fu).
    + destruct (fut_state fu); (done || lia).
    + by destruct (report _ _ _).
Qed.

(** With fuel for the steps that remain, [run] takes them all. *)
Lemma run_finishes (objs : list SfObject) (w0 : World) (fuel : nat) (s : Pool) :
  (0 < max_workers)%nat →
  pool_ok max_workers s →
  pool_run args pd sf objs w0 s →
  (remaining s ≤ fuel)%nat →
  let s' := run args pd choose max_workers sf fuel s in
  pool_ok max_workers s' ∧ pool_run args pd sf objs w0 s'
  ∧ remaining s' = O.
Proof.
  intros HW. revert s. induction fuel as [|fuel IH]; intros s Hok Hrun Hrem.
  - simpl. split_and!; [done|done|lia].
  - simpl.
    destruct (next args pd choose max_workers sf s) as [s1|] eqn:Hnext.
    + destruct (next_fire _ _ Hnext) as [e Hfire].
      pose proof (fire_remaining _ _ _ Hok Hfire).
      apply IH; [by eapply pool_ok_fire|by eapply pool_run_fire|lia].
    + split_and!; [done|done|].
      destruct (remaining s) as [|n] eqn:Hn; [done|].
      destruct (progress s HW Hok) as (e & Hc & He); [lia|].
      destruct (next_enabled e s Hc He) as [s1 Hs1]. congruence.
Qed.

Lemma run_reachable (fuel : nat) (s : Pool) :
  rtc (step args pd max_workers sf) s
      (run args pd choose max_workers sf fuel s).
Proof.
  revert s. induction fuel as [|fuel IH]; intros s; simpl; [done|].
  destruct (next args pd choose max_workers sf s) as [s1|] eqn:Hnext;
    [|done].
  eapply rtc_l; [by apply next_fire|apply IH].
Qed.

End Progress.

(** *** [execute] as a whole *)

Section Execute.

Variable args : Args.
Variable pd : Pandas.
Variable int_of_str : pystr → option Z.
Variable choose : Pool → nat.
Variable sf : Salesforce.

Lemma result_of_outcome (st : task_state) (r : exn + Z) :
  result_of st = Some r → st = outcome r.
Proof. destruct st; simpl; try done; by intros [= <-]. Qed.

Lemma weight_zero (fu : Future) :
  weight fu = O → fut_seen fu = true ∧ is_Some (result_of (fut_state fu)).
Proof.
  unfold weight. destruct (fut_state fu); try done;
    destruct (fut_seen fu); try done; by split; [|eexists].
Qed.

Lemma omap_done_request (l : list Future) :
  (∀ f fu, l !! f = Some fu → is_Some (result_of (fut_state fu))) →
  omap (done_request args) l = map (issued args) (map fut_obj l).
Proof.
  induction l as [|fu l IH]; intros Hdone; [done|].
  change (omap (done_request args) (fu :: l)) with
    (match done_request args fu with
     | Some y => y :: omap (done_request args) l
     | None => omap (done_request args) l
     end).
  unfold done_request at 1. destruct (Hdone O fu eq_refl) as [r ->].
  simpl. f_equal. apply IH. intros f fu'. apply (Hdone (S f)).
Qed.

Lemma steps_zero (fu : Future) :
  steps fu = O → is_Some (result_of (fut_state fu)).
Proof. unfold steps. destruct (fut_state fu); try done; by eexists. Qed.

(** The pool at the end of [execute]: nothing is left to do.  Every task
    has completed; the loop has handled every future unless it raised. *)
Lemma pool_at_exit_spec (max_workers : nat) (objs : list SfObject) (w : World) :
  (0 < max_workers)%nat →
  let s := pool_at_exit args pd choose max_workers sf objs w in
  pool_ok max_workers s ∧ pool_run args pd sf objs w s
  ∧ todo s = []
  ∧ (∀ f fu, futures s !! f = Some fu → is_Some (result_of (fut_state fu)))
  ∧ (raised s = None →
     ∀ f fu, futures s !! f = Some fu → fut_seen fu = true).
Proof.
  intros HW s.
  destruct (run_finishes args pd choose sf max_workers objs w
              (4 * length objs) (submitted objs w) HW
              (pool_ok_submitted max_workers objs w)
              (pool_run_submitted args pd sf objs w))
    as (Hok & Hrun & Hrem).
  { unfold remaining. simpl. lia. }
  fold (pool_at_exit args pd choose max_workers sf objs w) in Hok, Hrun, Hrem.
  fold s in Hok, Hrun, Hrem. unfold remaining in Hrem.
  split; [done|]. split; [done|].
  destruct (raised s) as [e|] eqn:Hraised.
  - destruct (run_raised _ _ _ _ _ _ Hrun e Hraised) as (_ & Htodo & _).
    split_and!; [done| |done].
    intros f fu Hf. apply steps_zero.
    by apply (sum_list_zero steps (futures s) f).
  - split_and!.
    + destruct (todo s); [done|simpl in Hrem; lia].
    + intros f fu Hf. apply weight_zero.
      apply (sum_list_zero weight (futures s) f); [lia|done].
    + intros _ f fu Hf. apply weight_zero.
      apply (sum_list_zero weight (futures s) f); [lia|done].
Qed.

(** The loop raises on an entry without its name, and on nothing else. *)
Lemma raised_named (objs : list SfObject) (w0 : World) (s : Pool) :
  pool_run args pd sf objs w0 s → Forall named objs → raised s = None.
Proof.
  intros Hrun Hnamed. destruct (raised s) as [e|] eqn:Hraised; [|done].
  destruct (run_raised _ _ _ _ _ _ Hrun e Hraised) as (_ & _ & o & Ho & Hnone).
  rewrite Forall_forall in Hnamed. destruct (Hnamed o Ho) as [name Hname].
  congruence.
Qed.

Lemma pool_at_exit_named (max_workers : nat) (objs : list SfObject) (w : World) :
  (0 < max_workers)%nat →
  raised (pool_at_exit args pd choose max_workers sf objs w) = None ↔
  Forall named objs.
Proof.
  intros HW.
  destruct (pool_at_exit_spec max_workers objs w HW)
    as (Hok & Hrun & Htodo & Hdone & Hseen).
  split; [|by eapply raised_named].
  intros Hnone. specialize (Hseen Hnone).
  rewrite <- (run_objs _ _ _ _ _ _ Hrun), Htodo, app_nil_r.
  apply Forall_forall. intros o (fu & -> & Hfu)%list_elem_of_fmap.
  apply list_elem_of_lookup_1 in Hfu as [f Hf].
  destruct (run_seen _ _ _ _ _ _ Hrun f fu Hf (Hseen f fu Hf)) as (r & _ & Hline).
  unfold named. destruct (obj_name (fut_obj fu)); [by eexists|congruence].
Qed.

(** [execute] on a thread count that is a positive integer. *)
Lemma execute_spec (objs : list SfObject) (threads : pystr) (n : Z) (w : World) :
  int_of_str threads = Some n →
  0 < n →
  let s := pool_at_exit args pd choose (Z.to_nat n) sf objs w in
  execute args pd int_of_str choose sf objs threads w =
  (match raised s with Some e => inl e | None => inr () end, world s).
Proof.
  intros Hint Hn. unfold execute, max_workers_of. rewrite Hint.
  by destruct (n <=? 0) eqn:Hle; [lia|].
Qed.

Lemma execute_named (objs : list SfObject) (threads : pystr) (n : Z) (w : World) :
  int_of_str threads = Some n →
  0 < n →
  Forall named objs →
  execute args pd int_of_str choose sf objs threads w =
  (inr (), world (pool_at_exit args pd choose (Z.to_nat n) sf objs w)).
Proof.
  intros Hint Hn Hnamed. rewrite (execute_spec objs threads n w Hint Hn).
  simpl. by rewrite (proj2 (pool_at_exit_named (Z.to_nat n) objs w ltac:(lia))).
Qed.

Lemma execute_inr (objs : list SfObject) (threads : pystr) (w w' : World) :
  execute args pd int_of_str choose sf objs threads w = (inr (), w') →
  ∃ n, int_of_str threads = Some n ∧ 0 < n ∧ Forall named objs
       ∧ w' = world (pool_at_exit args pd choose (Z.to_nat n) sf objs w).
Proof.
  unfold execute, max_workers_of.
  destruct (int_of_str threads) as [n|]; [|done].
  destruct (n <=? 0) eqn:Hle; [done|].
  destruct (raised _) eqn:Hraised; [done|]. intros [= <-].
  exists n. split_and!; [done|lia| |done].
  by apply (pool_at_exit_named (Z.to_nat n) objs w ltac:(lia)).
Qed.

(** What leaves [execute] as an exception: the [ValueError] of a thread
    count that is no positive integer, with nothing done, or the [KeyError]
    of the loop, after every task has run. *)
Lemma execute_inl (objs : list SfObject) (threads : pystr) (w w' : World)
    (e : exn) :
  execute args pd int_of_str choose sf objs threads w = (inl e, w') →
  (exn_class_of e = ValueError ∧ w' = w
   ∧ ∀ n, int_of_str threads = Some n → n ≤ 0)
  ∨ (e = no_obj_name
     ∧ ∃ n, int_of_str threads = Some n ∧ 0 < n
            ∧ w' = world (pool_at_exit args pd choose (Z.to_nat n) sf objs w)
            ∧ ¬ Forall named objs).
Proof.
  unfold execute, max_workers_of.
  destruct (int_of_str threads) as [n|] eqn:Hint.
  - destruct (n <=? 0) eqn:Hle.
    + intros [= <- <-]. left. split_and!; [done|done|].
      intros n' [= <-]. lia.
    + destruct (pool_at_exit_spec (Z.to_nat n) objs w ltac:(lia))
        as (_ & Hrun & _).
      destruct (raised _) as [e'|] eqn:Hraised; [|done]. intros [= <- <-].
      destruct (run_raised _ _ _ _ _ _ Hrun e' Hraised) as (-> & _).
      right. split; [done|]. exists n. split_and!; [done|lia|done|].
      intros Hnamed%(pool_at_exit_named (Z.to_nat n) objs w ltac:(lia)).
      congruence.
  - intros [= <- <-]. by left.
Qed.



(** C5: the worker budget of a run is the thread count of the config as
    [int] reads it, [W]: that is the [max_workers] the pool of [execute] is
    made with.  What [execute] returns and leaves is what that pool does, run
    to its end, and in every state the pool can reach, under any scheduling,
    at most [W] tasks are executing and at most [W] threads exist. *)
Theorem running_within_budget (objs : list SfObject) (count : pystr)
    (W : Z) (w : World) :
  int_of_str count = Some W →
  0 < W →
  max_workers_of int_of_str count = inr (Z.to_nat W)
  ∧ (∃ s_end,
       during_execute args pd int_of_str sf objs count w s_end
       ∧ remaining s_end = O
       ∧ execute args pd int_of_str choose sf objs count w
         = (match raised s_end with Some e => inl e | None => inr () end,
            world s_end))
  ∧ ∀ s, during_execute args pd int_of_str sf objs count w s →
         Z.of_nat (running s) ≤ W ∧ Z.of_nat (length (threads s)) ≤ W.
Proof.
  intros Hint HW.
  assert (max_workers_of int_of_str count = inr (Z.to_nat W)) as Hmax.
  { unfold max_workers_of. rewrite Hint. by destruct (W <=? 0) eqn:Hle; [lia|]. }
  split; [done|]. split.
  - exists (pool_at_exit args pd choose (Z.to_nat W) sf objs w). split_and!.
    + exists (Z.to_nat W). split; [done|]. apply run_reachable.
    + apply (run_finishes args pd choose sf (Z.to_nat W) objs w
               (4 * length objs) (submitted objs w)); [lia| | |].
      * apply pool_ok_submitted.
      * apply pool_run_submitted.
      * unfold remaining. simpl. lia.
    + by rewrite (execute_spec objs count W w Hint HW).
  - intros s (max_workers & Hmw & Hreach).
    rewrite Hmax in Hmw. injection Hmw as <-.
    assert (pool_ok (Z.to_nat W) s) as Hok
      by (eapply pool_ok_reachable; [apply pool_ok_submitted|done]).
    pose proof (running_le_threads (Z.to_nat W) s Hok) as Hrun.
    pose proof (ok_threads _ _ Hok) as Hthreads. lia.
Qed.

End Execute.



Lemma running_within_budget_witness :
  Example.int_of_digit (lit "2") = Some 2 ∧ 0 < 2
  ∧ during_execute Example.normal Example.pandas Example.int_of_digit
      Example.sf
      [Example.Account; Example.Contact; Example.Account] (lit "2")
      Example.clean Midway.pool
  ∧ running Midway.pool = 2%nat
  ∧ Z.of_nat (running Midway.pool) ≤ 2
  ∧ Z.of_nat (length (threads Midway.pool)) ≤ 2.
Proof.
  assert (during_execute Example.normal Example.pandas Example.int_of_digit
            Example.sf
            [Example.Account; Example.Contact; Example.Account] (lit "2")
            Example.clean Midway.pool) as Hduring.
  { exists 2%nat. split; [reflexivity|].
    apply (fire_all_default Example.normal Example.pandas Example.sf 2
             Midway.schedule).
    vm_cast_no_check (eq_refl true). }
  split; [reflexivity|]. split; [lia|]. split; [exact Hduring|].
  split; [by vm_compute|].
  destruct (running_within_budget Example.normal Example.pandas
              Example.int_of_digit Example.scheduler Example.sf
              [Example.Account; Example.Contact; Example.Account]
              (lit "2") 2 Example.clean eq_refl ltac:(lia))
    as (_ & _ & Hbudget).
  exact (Hbudget Midway.pool Hduring).
Defined.

(** That run, computed: the contact with a name for an age fails its task,
    both accounts are exported, and the loop logs two results and one
    warning. *)
Example one_failure_among_successes :
  let s := pool_at_exit Example.normal Example.pandas Example.scheduler 2
             Example.sf_bad_age
             [Example.Account; Example.Contact; Example.Account]
             Example.clean in
  map fut_state (futures s) =
    [Succeeded 3;
     Failed (Exn ValueError (lit "invalid literal for int()"));
     Succeeded 3]
  ∧ map fst (w_log (world s)) =
    [DEBUG; DEBUG; DEBUG; DEBUG; DEBUG; DEBUG; DEBUG; DEBUG;
     INFO; INFO; WARNING].
Proof. vm_compute. split; reflexivity. Qed.

(** ** The main block and the exit code *)

Lemma fatal_bind {A B} (m : M abort A) (f : A → M abort B) :
  fatal m → (∀ x, fatal (f x)) → fatal (m ≫= f).
Proof.
  intros Hm Hf w a w' [H|(x & w1 & _ & H)]%bind_inl.
  - by eapply Hm.
  - by eapply Hf.
Qed.

Lemma fatal_uncaught {A} (m : M exn A) : fatal (uncaught m).
Proof.
  intros w a w'. unfold uncaught. destruct (m w) as [[e|x] w1]; [|done].
  intros [= <- _]. eauto.
Qed.

Lemma fatal_mret {A} (x : A) : fatal (mret x).
Proof. intros w a w'. done. Qed.

Lemma fatal_logging (l : level) (msg : list part) : fatal (logging l msg).
Proof. intros w a w'. done. Qed.

Lemma fatal_sys_exit {A} : fatal (@sys_exit A 1).
Proof. intros w a w' [= <- _]. by left. Qed.

Section Main.

Variable args : Args.
Variable pd : Pandas.
Variable connect : pystr → pystr → pystr → pystr → exn + Salesforce.
Variable parse_config : content → exn + gmap pystr (gmap pystr pystr).
Variable json_load : content → exn + list SfObject.
Variable int_of_str : pystr → option Z.
Variable choose : Pool → nat.

Lemma fatal_pre_steps : fatal (pre_steps args).
Proof.
  unfold pre_steps. apply fatal_bind; [apply fatal_uncaught|]. intros _.
  apply fatal_bind; [done|]. intros fs. case_match.
  - apply fatal_bind; [apply fatal_logging|]. intros _. apply fatal_sys_exit.
  - apply fatal_uncaught.
Qed.

Lemma fatal_read_config (p : path) : fatal (read_config parse_config p).
Proof.
  intros w a w'. unfold read_config. repeat case_match; try done.
  intros [= <- _]. eauto.
Qed.

Lemma fatal_config_get (cfg : gmap pystr (gmap pystr pystr)) (sec key : pystr) :
  fatal (config_get cfg sec key).
Proof.
  intros w a w'. unfold config_get. repeat case_match; try done;
    intros [= <- _]; eauto.
Qed.

Lemma fatal_get_sf_conn (u p t d : pystr) : fatal (get_sf_conn connect u p t d).
Proof.
  intros w a w'. unfold get_sf_conn. unfold_M.
  repeat case_match; try done; intros [= <- _]; by left.
Qed.

Lemma fatal_get_json_data (p : path) : fatal (get_json_data json_load p).
Proof.
  intros w a w'. unfold get_json_data. repeat case_match; try done;
    intros [= <- _]; eauto.
Qed.

Lemma fatal_start_up : fatal (start_up args connect parse_config json_load).
Proof.
  unfold start_up.
  repeat first
    [ apply fatal_pre_steps | apply fatal_uncaught | apply fatal_read_config
    | apply fatal_config_get | apply fatal_get_sf_conn
    | apply fatal_get_json_data | apply fatal_mret
    | apply fatal_bind; [|intros ?] ].
Qed.

(** The main block is its start-up, then [execute] and the closing line. *)
Lemma main_start_up (w : World) :
  main args pd connect parse_config json_load int_of_str choose w =
  match start_up args connect parse_config json_load w with
  | (inl a, w1) => (inl a, w1)
  | (inr (sf, json_data, THREAD_COUNT), w1) =>
      (uncaught (execute args pd int_of_str choose sf json_data
                   THREAD_COUNT);;
       logging INFO [Txt (lit "--- Script took "); Elapsed; Txt (lit " ---")]) w1
  end.
Proof.
  unfold main, start_up. unfold mbind, M_bind, mret, M_ret.
  destruct (pre_steps args w) as [[a|[]] w1]; [done|].
  destruct (init_logger args w1) as [[a|[]] w2]; [done|].
  destruct (read_config parse_config (CONFIG_FILE args) w2)
    as [[a|cfg] w3]; [done|].
  destruct (config_get cfg _ (lit "username") w3) as [[a|u] w4]; [done|].
  destruct (config_get cfg _ (lit "password") w4) as [[a|p] w5]; [done|].
  destruct (config_get cfg _ (lit "token") w5) as [[a|t] w6]; [done|].
  destruct (config_get cfg _ (lit "domain") w6) as [[a|d] w7]; [done|].
  destruct (config_get cfg _ (lit "threads") w7) as [[a|n] w8]; [done|].
  destruct (get_sf_conn connect u p t d w8) as [[a|sf] w9]; [done|].
  destruct (get_json_data json_load (JSON_FILE args) w9) as [[a|objs] w10];
    done.
Qed.

(** *** What a start-up that completes has found *)

Lemma read_config_inr (p : path) (w w' : World)
    (cfg : gmap pystr (gmap pystr pystr)) :
  read_config parse_config p w = (inr cfg, w') →
  w' = w ∧ ((∃ c, w_fs w !! p = Some (File c) ∧ parse_config c = inr cfg)
            ∨ cfg = ∅).
Proof.
  unfold read_config. destruct (w_fs w !! p) as [[|c]|] eqn:Hp.
  - intros [= <- <-]. eauto.
  - destruct (parse_config c) eqn:Hc; [done|]. intros [= <- <-].
    split; [done|]. left. eauto.
  - intros [= <- <-]. eauto.
Qed.

Lemma config_get_inr (cfg : gmap pystr (gmap pystr pystr)) (sec key v : pystr)
    (w w' : World) :
  config_get cfg sec key w = (inr v, w') →
  w' = w ∧ ∃ m, cfg !! sec = Some m ∧ m !! key = Some v.
Proof.
  unfold config_get. destruct (cfg !! sec) as [m|]; [|done].
  destruct (m !! key) as [v'|] eqn:Hk; [|done]. intros [= <- <-]. eauto.
Qed.

Lemma get_sf_conn_inr (u p t d : pystr) (w w' : World) (sf : Salesforce) :
  get_sf_conn connect u p t d w = (inr sf, w') →
  connect u p t d = inr sf ∧ w_fs w' = w_fs w.
Proof.
  unfold get_sf_conn. unfold_M. destruct (connect u p t d) as [e|sf'].
  - by destruct (exn_class_of e).
  - by intros [= <- <-].
Qed.

Lemma get_json_data_inr (p : path) (w w' : World) (l : list SfObject) :
  get_json_data json_load p w = (inr l, w') →
  w' = w ∧ ∃ c, w_fs w !! p = Some (File c) ∧ json_load c = inr l.
Proof.
  unfold get_json_data. destruct (w_fs w !! p) as [[|c]|]; try done.
  destruct (json_load c) eqn:Hc; [done|]. intros [= <- <-]. eauto.
Qed.

Lemma start_up_inr (w w' : World) (sf : Salesforce) (objs : list SfObject)
    (threads : pystr) :
  start_up args connect parse_config json_load w = (inr (sf, objs, threads), w') →
  ∃ w0 w1 c cj u p t d,
    pre_steps args w = (inr (), w0) ∧ init_logger args w0 = (inr (), w1)
    ∧ w_fs w1 !! config args = Some (File c)
    ∧ connect u p t d = inr sf
    ∧ w_fs w1 !! json args = Some (File cj) ∧ json_load cj = inr objs.
Proof.
  unfold start_up.
  intros ([] & w0 & Hpre & ([] & w1 & Hlog & (cfg & w2 & Hcfg &
    (u & w3 & Hu & (p & w4 & Hp & (t & w5 & Ht & (d & w6 & Hd &
    (n & w7 & Hn & (sf' & w8 & Hsf & (objs' & w9 & Hjs & Hret)%bind_inr
    )%bind_inr)%bind_inr)%bind_inr)%bind_inr)%bind_inr)%bind_inr)%bind_inr
    )%bind_inr)%bind_inr.
  injection Hret as <- <- <- <-.
  apply read_config_inr in Hcfg as [-> Hcfg].
  apply config_get_inr in Hu as [-> (m & Hm & _)].
  apply config_get_inr in Hp as [-> _]. apply config_get_inr in Ht as [-> _].
  apply config_get_inr in Hd as [-> _]. apply config_get_inr in Hn as [-> _].
  apply get_sf_conn_inr in Hsf as [Hsf Hfs].
  apply get_json_data_inr in Hjs as [-> (cj & Hcj & Hload)].
  destruct Hcfg as [(c & Hc & _)| ->]; [|by rewrite lookup_empty in Hm].
  exists w0, w1, c, cj, u, p, t, d. unfold CONFIG_FILE, JSON_FILE in *.
  rewrite Hfs in Hcj. done.
Qed.

(** *** A file that is missing stays missing *)

Lemma rmtree_lookup (d p : path) (w w' : World) (x : node) :
  rmtree d w = (inr (), w') → w_fs w' !! p = Some x → w_fs w !! p = Some x.
Proof.
  unfold rmtree. destruct (w_fs w !! d) as [[|c]|]; intros [= <-]; simpl;
    try done; by intros [? _]%map_lookup_filter_Some.
Qed.

Lemma mkdir_lookup (d p : path) (w w' : World) :
  mkdir d w = (inr (), w') →
  w_fs w' !! p = Some Dir ∨ w_fs w' !! p = w_fs w !! p.
Proof.
  unfold mkdir. destruct (existsb _ _); [done|]. intros [= <-]. simpl.
  rewrite lookup_mkdirs. case_decide; [by left|by right].
Qed.

Lemma clean_dir_lookup (d p : path) (w w' : World) :
  (rmtree d;; mkdir d) w = (inr (), w') →
  w_fs w !! p = None ∨ w_fs w !! p = Some Dir →
  w_fs w' !! p = None ∨ w_fs w' !! p = Some Dir.
Proof.
  intros ([] & w1 & Hrm & Hmk)%bind_inr Hp.
  destruct (mkdir_lookup d p _ _ Hmk) as [->| ->]; [by right|].
  destruct (w_fs w1 !! p) as [x|] eqn:Hx; [|by left].
  apply (rmtree_lookup d p _ _ x Hrm) in Hx. destruct Hp; [congruence|].
  right. congruence.
Qed.

(** A path with nothing at it before the set-up holds no plain file when
    [pre_steps] and [init_logger] are through, if it is the path of the
    config or the schema file. *)
Lemma set_up_no_file (p : path) (w w0 w1 : World) :
  pre_steps args w = (inr (), w0) →
  init_logger args w0 = (inr (), w1) →
  p = config args ∨ p = json args →
  w_fs w !! p = None →
  no_file (w_fs w1) p.
Proof.
  unfold pre_steps.
  intros ([] & wa & Hclean%uncaught_inr & Hrest)%bind_inr Hlog Hp Hnone.
  simpl in Hclean.
  apply bind_inr in Hclean as ([] & wb & Hcsv & ([] & wc & Hpq & Hret)%bind_inr).
  injection Hret as <-.
  assert (w_fs wc !! p = None ∨ w_fs wc !! p = Some Dir) as Hwc.
  { apply (clean_dir_lookup _ p _ _ Hpq), (clean_dir_lookup _ p _ _ Hcsv).
    by left. }
  revert Hrest. unfold files, mbind at 1, M_bind at 1.
  unfold CONFIG_FILE, JSON_FILE.
  destruct (path_exists (w_fs wc) (config args)
            && path_exists (w_fs wc) (json args)) eqn:Hex; simpl.
  2:{ unfold_M. done. }
  intros Hmk%uncaught_inr.
  assert (path_exists (w_fs wc) p = true) as Hpe.
  { apply andb_prop in Hex as [? ?]. by destruct Hp as [-> | ->]. }
  assert (p = [] ∨ w_fs w0 !! p = Some Dir) as Hw0.
  { destruct p as [|x p]; [by left|]. right. simpl in Hpe.
    apply bool_decide_eq_true in Hpe as [y Hy].
    destruct Hwc as [Hwc|Hwc]; [congruence|].
    destruct (mkdir_lookup _ (x :: p) _ _ Hmk) as [->| ->]; done. }
  apply uncaught_inr in Hlog. unfold open_append in Hlog.
  destruct (is_dir (w_fs w0) (parent _) && negb (is_dir (w_fs w0) _)) eqn:Hopen;
    [|done].
  apply andb_prop in Hopen as [_ Hnd%negb_true_iff].
  injection Hlog as <-. simpl. intros c Hc.
  set (logfile := log_path args ++ [lit "salesforce_script.log"]) in *.
  assert (logfile ≠ []) as Hlf by (unfold logfile; by destruct (log_path args)).
  destruct (decide (p = logfile)) as [->|Hne].
  - destruct Hw0 as [Hnil|Hdir]; [done|].
    unfold is_dir in Hnd. rewrite Hdir in Hnd. by destruct logfile.
  - assert (w_fs w0 !! p = Some (File c)) as Hc0.
    { destruct (w_fs w0 !! logfile); [done|].
      by rewrite lookup_insert_ne in Hc. }
    destruct Hw0 as [->|Hdir]; [|congruence].
    destruct (mkdir_lookup _ [] _ _ Hmk) as [Hx|Hx]; [congruence|].
    destruct Hwc as [Hwc|Hwc]; congruence.
Qed.

(** The exit code of the main block, for a command line that was parsed. *)
Lemma exit_code_main (w : World) :
  let code :=
    exit_code (main args pd connect parse_config json_load int_of_str
                 choose w).1 in
  (code = 0 ∨ code = 1)
  ∧ (w_fs w !! config args = None ∨ w_fs w !! json args = None → code = 1)
  ∧ ((∀ u p t d, ∃ e, connect u p t d = inl e) → code = 1)
  ∧ (code = 0 ↔
     ∃ sf objs threads n w1,
       start_up args connect parse_config json_load w
         = (inr (sf, objs, threads), w1)
       ∧ int_of_str threads = Some n ∧ 0 < n ∧ Forall named objs).
Proof.
  intros code. unfold code. clear code. rewrite main_start_up.
  destruct (start_up args connect parse_config json_load w)
    as [[a|[[sf objs] threads]] w1] eqn:Hstart.
  - (* the start-up stops *)
    assert (exit_code (@inl abort () a) = 1) as Hcode.
    { destruct (fatal_start_up _ _ _ Hstart) as [->|[e ->]]; done. }
    simpl in *. rewrite Hcode. split_and!; try by eauto.
    split; [done|]. by intros (? & ? & ? & ? & ? & ? & _).
  - (* the start-up completes *)
    destruct (start_up_inr _ _ _ _ _ Hstart)
      as (w0 & w2 & c & cj & u & p & t & d & Hpre & Hlog & Hc & Hconn & Hcj & _).
    assert (exit_code
              ((uncaught (execute args pd int_of_str choose sf objs threads);;
                logging INFO [Txt (lit "--- Script took "); Elapsed;
                              Txt (lit " ---")]) w1).1
            = match (execute args pd int_of_str choose sf objs threads w1).1
              with inl _ => 1 | inr _ => 0 end) as ->.
    { unfold mbind, M_bind, uncaught.
      by destruct (execute _ _ _ _ _ _ _ _) as [[e|[]] w3]. }
    split_and!.
    + case_match; eauto.
    + intros [Hm|Hm].
      * by destruct (set_up_no_file (config args) _ _ _ Hpre Hlog
                       ltac:(by left) Hm c).
      * by destruct (set_up_no_file (json args) _ _ _ Hpre Hlog
                       ltac:(by right) Hm cj).
    + intros Hfail. destruct (Hfail u p t d) as [e He]. congruence.
    + destruct (execute args pd int_of_str choose sf objs threads w1)
        as [[e|[]] w3] eqn:Hex; simpl.
      * split; [done|].
        intros (sf' & objs' & threads' & n & w1' & [= <- <- <- <-] & Hint & Hn
                & Hnamed).
        rewrite (execute_named _ _ _ _ _ _ _ n) in Hex by done.
        discriminate Hex.
      * split; [|done]. intros _.
        destruct (execute_inr _ _ _ _ _ _ _ _ _ Hex)
          as (n & Hint & Hn & Hnamed & _).
        by exists sf, objs, threads, n, w1.
Qed.

End Main.

(** *** The process *)

Section Process.

Variable parse_args : list pystr → Z + Args.
Variable pd : Pandas.
Variable connect : pystr → pystr → pystr → pystr → exn + Salesforce.
Variable parse_config : content → exn + gmap pystr (gmap pystr pystr).
Variable json_load : content → exn + list SfObject.
Variable int_of_str : pystr → option Z.
Variable choose : Pool → nat.

(** C8, as amended.  When [argparse] ends the process itself, the exit code
    is the status it gives (2 for a command line it rejects).  Otherwise the
    code is 0 or 1; it is 1 when the config or the schema file is missing
    and when the connection fails; and it is 0 exactly when the start-up
    completes, the thread count of the config is a positive integer and
    every schema entry has its ['obj_name'] for the loop of [execute].  What
    the tasks of [execute] do has no part in it. *)
Theorem exit_code_of_script (argv : list pystr) (w : World) :
  let code :=
    exit_code (script parse_args pd connect parse_config json_load int_of_str
                 choose argv w).1 in
  match parse_args argv with
  | inl status => code = status
  | inr args =>
      (code = 0 ∨ code = 1)
      ∧ (w_fs w !! config args = None ∨ w_fs w !! json args = None → code = 1)
      ∧ ((∀ u p t d, ∃ e, connect u p t d = inl e) → code = 1)
      ∧ (code = 0 ↔
         ∃ sf objs threads n w1,
           start_up args connect parse_config json_load w
             = (inr (sf, objs, threads), w1)
           ∧ int_of_str threads = Some n ∧ 0 < n ∧ Forall named objs)
  end.
Proof.
  intros code. unfold code. clear code.
  unfold script, get_args, mbind, M_bind.
  destruct (parse_args argv) as [status|args]; [done|].
  apply exit_code_main.
Qed.

End Process.

(** C8, as stated, fails, three times over.  With both input files there
    and a login that succeeds, a config that asks for 0 threads ends the
    process with status 1; so does a schema entry without [obj_name], after
    every task has run; and a command line that [argparse] rejects ends it
    with status 2. *)
Lemma exit_code_counterexample :
  Example.parse_args Example.argv = inr Example.normal
  ∧ is_Some (w_fs Example.no_threads !! config Example.normal)
  ∧ is_Some (w_fs Example.no_threads !! json Example.normal)
  ∧ is_Some (w_fs Example.clean !! config Example.normal)
  ∧ is_Some (w_fs Example.clean !! json Example.normal)
  ∧ (∀ u p t d, Example.connect u p t d = inr Example.sf_bad_age)
  ∧ exit_code (script Example.parse_args Example.pandas Example.connect
                 Example.parse_config Example.json_load Example.int_of_digit
                 Example.scheduler Example.argv Example.no_threads).1 = 1
  ∧ exit_code (script Example.parse_args Example.pandas Example.connect
                 Example.parse_config Unnamed.json_load Example.int_of_digit
                 Example.scheduler Example.argv Example.clean).1 = 1
  ∧ exit_code (script Example.parse_args Example.pandas Example.connect
                 Example.parse_config Example.json_load Example.int_of_digit
                 Example.scheduler [] Example.clean).1 = 2.
Proof.
  split_and!.
  - reflexivity.
  - eexists. vm_compute. reflexivity.
  - eexists. vm_compute. reflexivity.
  - eexists. vm_compute. reflexivity.
  - eexists. vm_compute. reflexivity.
  - reflexivity.
  - vm_compute. reflexivity.
  - vm_compute. reflexivity.
  - vm_compute. reflexivity.
Qed.

Lemma exit_code_of_script_witness :
  exit_code (script Example.parse_args Example.pandas Example.connect
               Example.parse_config Example.json_load Example.int_of_digit
               Example.scheduler Example.argv Example.clean).1 = 0
  ∧ exit_code (script Example.parse_args Example.pandas Example.refuse
                 Example.parse_config Example.json_load Example.int_of_digit
                 Example.scheduler Example.argv Example.clean).1 = 1
  ∧ exit_code (script Example.parse_args Example.pandas Example.connect
                 Example.parse_config Example.json_load Example.int_of_digit
                 Example.scheduler Example.argv Leftover.world).1 = 1
  ∧ exit_code (script Example.parse_args Example.pandas Example.connect
                 Example.parse_config Example.json_load Example.int_of_digit
                 Example.scheduler [] Example.clean).1 = 2.
Proof.
  assert (Example.parse_args Example.argv = inr Example.normal) as Hargs
    by reflexivity.
  split_and!.
  - pose proof (exit_code_of_script Example.parse_args Example.pandas
                  Example.connect Example.parse_config Example.json_load
                  Example.int_of_digit Example.scheduler Example.argv
                  Example.clean) as H.
    cbv zeta in H. rewrite Hargs in H. destruct H as (_ & _ & _ & H).
    apply H.
    destruct (start_up Example.normal Example.connect Example.parse_config
                Example.json_load Example.clean) as [r w1] eqn:Hstart.
    exists Example.sf_bad_age,
      [Example.Account; Example.Contact; Example.Account], (lit "2"), 2, w1.
    split; [|split; [reflexivity|split; [lia|]]].
    + apply (f_equal fst) in Hstart. vm_compute in Hstart. subst r.
      reflexivity.
    + repeat constructor; eexists; reflexivity.
  - pose proof (exit_code_of_script Example.parse_args Example.pandas
                  Example.refuse Example.parse_config Example.json_load
                  Example.int_of_digit Example.scheduler Example.argv
                  Example.clean) as H.
    cbv zeta in H. rewrite Hargs in H. destruct H as (_ & _ & H & _).
    apply H. intros u p t d. eexists. reflexivity.
  - pose proof (exit_code_of_script Example.parse_args Example.pandas
                  Example.connect Example.parse_config Example.json_load
                  Example.int_of_digit Example.scheduler Example.argv
                  Leftover.world) as H.
    cbv zeta in H. rewrite Hargs in H. destruct H as (_ & H & _).
    apply H. right. vm_compute. reflexivity.
  - exact (exit_code_of_script Example.parse_args Example.pandas
             Example.connect Example.parse_config Example.json_load
             Example.int_of_digit Example.scheduler [] Example.clean).
Defined.

(** ** The scenario of the specification *)

(** Three accounts and no contact, two workers.  In bulk mode both tasks
    succeed, with 3 and 0 rows; in normal mode the task of the object
    without rows fails on [drop]. *)
Example scenario_bulk :
  map fut_state
    (futures (pool_at_exit Example.bulk Example.pandas Example.scheduler 2
                Example.sf [Example.Account; Example.Contact] Example.clean))
  = [Succeeded 3; Succeeded 0].
Proof. by vm_compute. Qed.

Example scenario_normal :
  map fut_state
    (futures (pool_at_exit Example.normal Example.pandas Example.scheduler 2
                Example.sf [Example.Account; Example.Contact] Example.clean))
  = [Succeeded 3;
     Failed (Exn KeyError (lit "['attributes'] not found in axis"))].
Proof. by vm_compute. Qed.

(** * Further properties of the code *)

(** ** What a task does to the files *)

Section TaskFiles.

Variable args : Args.
Variable pd : Pandas.

Lemma get_sf_data_other_paths
    (sf : Salesforce) (o : SfObject) (w : World) (p : path) :
  p ≠ csv_path args o →
  p ≠ pq_path args o →
  w_fs (get_sf_data args pd sf o w).2 !! p = w_fs w !! p.
Proof.
  intros Hcsv Hpq. rewrite get_sf_data_spec. simpl.
  destruct (answer args sf o) as [e|data]; [done|].
  destruct (truthy data); [|done].
  destruct (raw_table args data) as [e|df]; [done|].
  rewrite coerce_and_write_spec. simpl.
  destruct (astype (cast_cell pd) (dict_fields o) df) as [e|df']; [done|].
  destruct (writable _ (csv_path args o)); [|done].
  destruct (arrow_error pd df'); simpl; [by rewrite lookup_insert_ne|].
  destruct (writable _ (pq_path args o)); simpl.
  - by rewrite !lookup_insert_ne.
  - by rewrite lookup_insert_ne.
Qed.


(** X2: a task that fails has written nothing, with one exception: when
    [to_parquet] fails the CSV file is already there.  The exception is then
    the one with which pyarrow refuses the table or, if pyarrow takes the
    table, the [OSError] of a parquet file that cannot be opened. *)
Theorem failed_task_files
    (sf : Salesforce) (o : SfObject) (w w' : World) (e : exn) :
  get_sf_data args pd sf o w = (inl e, w') →
  w_fs w' = w_fs w
  ∨ ∃ df',
      w_fs w' = <[csv_path args o :=
                    File (Csv (column_names df') (rows_of df') false)]> (w_fs w)
      ∧ (arrow_error pd df' = Some e
         ∨ (arrow_error pd df' = None ∧ exn_class_of e = OSError)).
Proof.
  rewrite get_sf_data_spec. simpl.
  destruct (answer args sf o) as [e1|data]; [intros [= <- <-]; by left|].
  destruct (truthy data); [|done].
  destruct (raw_table args data) as [e1|df]; [intros [= <- <-]; by left|].
  rewrite coerce_and_write_spec. simpl.
  destruct (astype (cast_cell pd) (dict_fields o) df) as [e1|df'];
    [intros [= <- <-]; by left|].
  destruct (writable _ (csv_path args o)); [|intros [= <- <-]; by left].
  destruct (arrow_error pd df') as [e1|] eqn:Harrow.
  { intros [= <- <-]. right. exists df'. split; [done|]. by left. }
  destruct (writable _ (pq_path args o)); [done|].
  intros [= <- <-]. right. exists df'. split; [done|]. by right.
Qed.

(** X3: the two writes are not one step.  With the [csv] directory in
    place, a table that was cast is written as CSV, and the task then fails
    in [to_parquet] when pyarrow refuses the table or the [pq] directory is
    missing: with the exception of pyarrow in the first case, whether the
    directory is there or not, and with an [OSError] otherwise. *)
Theorem csv_left_when_parquet_fails
    (sf : Salesforce) (o : SfObject) (w : World) (data : pyval)
    (df df' : DataFrame) :
  answer args sf o = inr data →
  truthy data = true →
  raw_table args data = inr df →
  astype (cast_cell pd) (dict_fields o) df = inr df' →
  is_dir (w_fs w) (output_path args ++ [lit "csv"]) = true →
  is_dir (w_fs w) (csv_path args o) = false →
  is_Some (arrow_error pd df')
    ∨ is_dir (w_fs w) (output_path args ++ [lit "pq"]) = false →
  ∃ w', get_sf_data args pd sf o w =
          (inl (default (Exn OSError (lit "cannot open file for writing"))
                  (arrow_error pd df')), w')
    ∧ w_fs w' = <[csv_path args o :=
                    File (Csv (map fst (df_columns df')) (rows_of df') false)]>
                  (w_fs w).
Proof.
  intros Ha Ht Hdf Hcast Hcsv Hc Hfail.
  rewrite get_sf_data_spec, Ha. simpl. rewrite Ht, Hdf.
  rewrite coerce_and_write_spec. simpl. rewrite Hcast.
  destruct (csv_pq_distinct args o) as [_ Hne].
  unfold writable. simpl.
  unfold csv_path at 1 2. rewrite parent_snoc. fold (csv_path args o).
  rewrite Hcsv, Hc. simpl.
  destruct (arrow_error pd df') as [e|] eqn:Harrow; simpl; [eauto|].
  destruct Hfail as [[e He]|Hpq]; [done|].
  change (is_dir (<[csv_path args o:=File (csv_of df')]> (w_fs w)))
    with (is_dir (w_fs (add_file (csv_path args o) (csv_of df') w))).
  unfold pq_path at 1. rewrite parent_snoc.
  rewrite is_dir_add_file by done. rewrite Hpq. simpl. eauto.
Qed.

End TaskFiles.


Lemma csv_left_when_parquet_fails_witness :
  ∃ w', get_sf_data Example.normal Example.pandas Example.sf Example.Account
          NoParquet.world =
          (inl (Exn OSError (lit "cannot open file for writing")), w')
    ∧ w_fs w' !! [lit "out"; lit "csv"; lit "Account.csv"] =
        Some (File (Csv [lit "Id"; lit "Name"]
                (rows_of NoParquet.accounts) false)).
Proof.
  destruct (csv_left_when_parquet_fails Example.normal Example.pandas Example.sf
              Example.Account NoParquet.world
              (Example.envelope Example.accounts)
              NoParquet.accounts NoParquet.accounts)
    as (w' & Hrun & Hfs); try reflexivity; [by right|].
  exists w'. split; [exact Hrun|].
  rewrite Hfs. rewrite lookup_insert_eq. reflexivity.
Defined.

Lemma failed_task_files_witness :
  ∃ e w', get_sf_data Example.normal Example.pandas Example.sf Example.Account
            NoParquet.world = (inl e, w')
    ∧ (w_fs w' = w_fs NoParquet.world
       ∨ ∃ df',
           w_fs w' = <[csv_path Example.normal Example.Account :=
                         File (Csv (column_names df') (rows_of df') false)]>
                       (w_fs NoParquet.world)
           ∧ (arrow_error Example.pandas df' = Some e
              ∨ (arrow_error Example.pandas df' = None
                 ∧ exn_class_of e = OSError))).
Proof.
  destruct (get_sf_data Example.normal Example.pandas Example.sf Example.Account
              NoParquet.world) as [r w'] eqn:Hrun.
  assert (r = inl (Exn OSError (lit "cannot open file for writing"))) as ->.
  { apply (f_equal fst) in Hrun. cbn [fst] in Hrun. rewrite <- Hrun.
    vm_compute. reflexivity. }
  eexists _, w'. split; [reflexivity|].
  exact (failed_task_files Example.normal Example.pandas Example.sf
           Example.Account NoParquet.world w' _ Hrun).
Defined.

(** ** The table of a task *)

Lemma traverse_length {E A B} (f : A → E + B) (l : list A) (l' : list B) :
  traverse f l = inr l' → length l' = length l.
Proof.
  revert l'. induction l as [|x l IH]; intros l'; simpl.
  - by intros [= <-].
  - destruct (f x); [done|]. destruct (traverse f l); [done|].
    intros [= <-]. simpl. f_equal. by apply IH.
Qed.

Lemma traverse_elem_of {E A B} (f : A → E + B) (l : list A) (l' : list B)
    (y : B) :
  traverse f l = inr l' → y ∈ l' → ∃ x, x ∈ l ∧ f x = inr y.
Proof.
  revert l'. induction l as [|a l IH]; intros l'; simpl.
  - intros [= <-] Hy. by apply elem_of_nil in Hy.
  - destruct (f a) as [e|b] eqn:Ha; [done|].
    destruct (traverse f l) as [e|bs]; [done|].
    intros [= <-] [->|Hy]%elem_of_cons.
    + exists a. split; [left|done].
    + destruct (IH bs eq_refl Hy) as (x & Hx & Hfx).
      exists x. split; [by right|done].
Qed.

Lemma as_records_length (l : list pyval) (rs : list (list (pystr * pyval))) :
  as_records l = Some rs → length rs = length l.
Proof.
  revert rs. induction l as [|v l IH]; intros rs; simpl.
  - by intros [= <-].
  - destruct v; try done. destruct (as_records l); [|done].
    intros [= <-]. simpl. f_equal. by apply IH.
Qed.

Lemma dict_get_None {V} (k : pystr) (d : list (pystr * V)) :
  dict_get k d = None ↔ k ∉ map fst d.
Proof.
  induction d as [|[k' v] d IH]; simpl.
  - split; [intros _; apply not_elem_of_nil|done].
  - rewrite not_elem_of_cons, <- IH.
    destruct (dict_get k d); [naive_solver|].
    case_decide; naive_solver.
Qed.

Lemma record_columns_elem (rs : list (list (pystr * pyval))) (k : pystr) :
  k ∈ record_columns rs ↔ ∃ r, r ∈ rs ∧ k ∈ map fst r.
Proof.
  unfold record_columns.
  assert (∀ acc, k ∈ fold_left (λ acc r, fold_left add_key (map fst r) acc) rs acc
                 ↔ k ∈ acc ∨ ∃ r, r ∈ rs ∧ k ∈ map fst r) as Hgen.
  { induction rs as [|r rs IH]; intros acc; simpl.
    - split; [by left|]. intros [?|(r & Hr & _)]; [done|].
      by apply elem_of_nil in Hr.
    - rewrite IH, fold_add_key_elem. split.
      + intros [[?|?]|(r' & Hr' & ?)]; [by left| |].
        * right. exists r. split; [left|done].
        * right. exists r'. split; [by right|done].
      + intros [?|(r' & [->|Hr']%elem_of_cons & ?)].
        * left. by left.
        * left. by right.
        * right. by exists r'. }
  rewrite Hgen. split; [|by right].
  intros [Hnil|?]; [by apply elem_of_nil in Hnil|done].
Qed.

Section Table.

Variable args : Args.
Variable pd : Pandas.

(** The table of an answer, taken apart. *)
Lemma raw_table_inr (data : pyval) (df : DataFrame) :
  raw_table args data = inr df →
  ∃ l rs,
    records_in args data = inr (PList l) ∧ as_records l = Some rs
    ∧ lit "attributes" ∈ record_columns rs
    ∧ df = {| df_index := length rs;
              df_columns :=
                filter (λ c, c.1 ≠ lit "attributes")
                  (map (λ k, (k, map (cell_of k) rs)) (record_columns rs)) |}.
Proof.
  unfold raw_table. destruct (records_in args data) as [e|records]; [done|].
  unfold from_dict. destruct records as [| | | |l|]; try done.
  destruct (as_records l) as [rs|] eqn:Hl; [|done].
  unfold drop. case_decide as Hin; [|done]. intros [= <-].
  exists l, rs. split_and!; try done.
  unfold column_names, frame_of_records in Hin. simpl in Hin.
  rewrite map_map in Hin. simpl in Hin. by rewrite map_id in Hin.
Qed.

(** A table that was fetched and cast has one cell per record in every
    column, and no column [attributes]. *)
Lemma typed_table_shape (o : SfObject) (data : pyval) (df df' : DataFrame) :
  raw_table args data = inr df →
  astype (cast_cell pd) (dict_fields o) df = inr df' →
  Forall (λ c, length c.2 = df_index df') (df_columns df')
  ∧ lit "attributes" ∉ map fst (df_columns df').
Proof.
  intros (l & rs & _ & _ & _ & ->)%raw_table_inr Hcast.
  pose proof (astype_ok _ _ _ _ Hcast) as (_ & Hnames & Hidx).
  unfold column_names in Hnames. simpl in *. split.
  - rewrite Hidx. unfold astype in Hcast.
    destruct (filter _ (dict_keys _)); [|done]. simpl in Hcast.
    destruct (traverse _ _) as [e|cols] eqn:Htr; [done|].
    injection Hcast as <-. simpl.
    apply Forall_forall. intros c' Hc'.
    destruct (traverse_elem_of _ _ _ _ Htr Hc') as (c & Hc & Hcol).
    apply list_elem_of_filter in Hc as [_ Hc].
    apply list_elem_of_fmap in Hc as (k & -> & _).
    unfold astype_column in Hcol. simpl in Hcol.
    destruct (dict_get k (dict_fields o)) as [t|].
    + destruct (traverse (cast_cell pd t) _) as [e|cells] eqn:Hcells; [done|].
      injection Hcol as <-. simpl.
      apply traverse_length in Hcells. by rewrite Hcells, length_map.
    + injection Hcol as <-. simpl. by rewrite length_map.
  - rewrite Hnames.
    intros (c & Hc1 & [Hc2 _]%list_elem_of_filter)%list_elem_of_fmap.
    by rewrite <- Hc1 in Hc2.
Qed.

(** X4: the number a task returns is the number of records it fetched: 0
    where the data are empty in Python's sense, the length of the record
    list otherwise. *)
Theorem row_count_is_records_fetched
    (sf : Salesforce) (o : SfObject) (w w' : World) (data : pyval) (n : Z) :
  answer args sf o = inr data →
  get_sf_data args pd sf o w = (inr n, w') →
  (truthy data = false ∧ n = 0)
  ∨ ∃ l, records_in args data = inr (PList l) ∧ n = Z.of_nat (length l).
Proof.
  intros Ha. rewrite get_sf_data_spec, Ha. simpl.
  destruct (truthy data); [|intros [= <- _]; by left].
  destruct (raw_table args data) as [e|df] eqn:Hdf; [done|].
  rewrite coerce_and_write_spec. simpl.
  destruct (astype (cast_cell pd) (dict_fields o) df) as [e|df'] eqn:Hcast; [done|].
  destruct (writable _ (csv_path args o)); [|done].
  destruct (arrow_error pd df'); [done|].
  destruct (writable _ (pq_path args o)); [|done].
  intros [= <- _]. right.
  apply raw_table_inr in Hdf as (l & rs & Hr & Hl & _ & ->).
  pose proof (astype_ok _ _ _ _ Hcast) as (_ & _ & Hidx). simpl in Hidx.
  exists l. split; [done|]. unfold len_index.
  by rewrite Hidx, (as_records_length l rs).
Qed.

(** X5: the files of a task that succeeds on data: a CSV file of exactly as
    many rows as the task returns, each with a cell for every column of the
    header; a parquet file with the same columns, each of that many cells;
    and no column [attributes] in either. *)
Theorem files_of_successful_task
    (sf : Salesforce) (o : SfObject) (w w' : World) (data : pyval) (n : Z) :
  answer args sf o = inr data →
  truthy data = true →
  get_sf_data args pd sf o w = (inr n, w') →
  ∃ header rows table,
    w_fs w' !! csv_path args o = Some (File (Csv header rows false))
    ∧ w_fs w' !! pq_path args o =
        Some (File (Parquet (lit "pyarrow") (lit "snappy") table false))
    ∧ map fst table = header
    ∧ (lit "attributes" ∉ header)
    ∧ Z.of_nat (length rows) = n
    ∧ Forall (λ row, length row = length header) rows
    ∧ Forall (λ c, Z.of_nat (length c.2) = n) table.
Proof.
  intros Ha Ht. rewrite get_sf_data_spec, Ha. simpl. rewrite Ht.
  destruct (raw_table args data) as [e|df] eqn:Hdf; [done|].
  rewrite coerce_and_write_spec. simpl.
  destruct (astype (cast_cell pd) (dict_fields o) df) as [e|df'] eqn:Hcast; [done|].
  destruct (writable _ (csv_path args o)); [|done].
  destruct (arrow_error pd df'); [done|].
  destruct (writable _ (pq_path args o)); [|done].
  intros [= <- <-]. simpl.
  destruct (csv_pq_distinct args o) as [Hne _].
  destruct (typed_table_shape o data df df' Hdf Hcast) as [Hrect Hattr].
  exists (column_names df'), (rows_of df'), (df_columns df').
  split_and!.
  - by rewrite lookup_insert_ne, lookup_insert_eq.
  - by rewrite lookup_insert_eq.
  - done.
  - done.
  - unfold rows_of, len_index. by rewrite length_map, length_seq.
  - unfold rows_of, column_names. apply Forall_forall.
    intros row (i & -> & _)%list_elem_of_fmap. by rewrite !length_map.
  - eapply Forall_impl; [exact Hrect|]. intros c Hc. simpl in Hc.
    unfold len_index. by rewrite Hc.
Qed.

End Table.

Lemma row_count_is_records_fetched_witness :
  ∃ w', get_sf_data Example.normal Example.pandas Example.sf Example.Account
          Example.clean = (inr 3, w')
    ∧ ((truthy (Example.envelope Example.accounts) = false ∧ 3 = 0)
       ∨ ∃ l, records_in Example.normal (Example.envelope Example.accounts)
                = inr (PList l)
              ∧ 3 = Z.of_nat (length l)).
Proof.
  destruct (get_sf_data Example.normal Example.pandas Example.sf Example.Account
              Example.clean) as [r w'] eqn:Hrun.
  assert (r = inr 3) as ->.
  { apply (f_equal fst) in Hrun. cbn [fst] in Hrun. rewrite <- Hrun.
    vm_compute. reflexivity. }
  exists w'. split; [reflexivity|].
  apply (row_count_is_records_fetched Example.normal Example.pandas Example.sf
           Example.Account Example.clean w' _ 3 eq_refl Hrun).
Defined.

Lemma files_of_successful_task_witness :
  ∃ w' header rows table,
    get_sf_data Example.normal Example.pandas Example.sf Example.Account
      Example.clean = (inr 3, w')
    ∧ w_fs w' !! csv_path Example.normal Example.Account
        = Some (File (Csv header rows false))
    ∧ w_fs w' !! pq_path Example.normal Example.Account
        = Some (File (Parquet (lit "pyarrow") (lit "snappy") table false))
    ∧ Z.of_nat (length rows) = 3
    ∧ (lit "attributes" ∉ header).
Proof.
  destruct (get_sf_data Example.normal Example.pandas Example.sf Example.Account
              Example.clean) as [r w'] eqn:Hrun.
  assert (r = inr 3) as ->.
  { apply (f_equal fst) in Hrun. cbn [fst] in Hrun. rewrite <- Hrun.
    vm_compute. reflexivity. }
  destruct (files_of_successful_task Example.normal Example.pandas Example.sf
              Example.Account Example.clean w' _ 3 eq_refl eq_refl Hrun)
    as (header & rows & table & Hcsv & Hpq & _ & Hattr & Hrows & _).
  exists w', header, rows, table.
  split; [reflexivity|]. split; [exact Hcsv|]. split; [exact Hpq|].
  split; [exact Hrows|exact Hattr].
Defined.

(** ** From records to cells *)

Section Cells.

Variable args : Args.
Variable pd : Pandas.

(** X7: a declared field that no record holds fails the task with a
    [KeyError], before anything is written. *)
Theorem missing_field_fails
    (sf : Salesforce) (o : SfObject) (w : World) (data : pyval)
    (l : list pyval) (rs : list (list (pystr * pyval))) (k : pystr) :
  answer args sf o = inr data →
  truthy data = true →
  records_in args data = inr (PList l) →
  as_records l = Some rs →
  k ∈ field_names o →
  (∀ r, r ∈ rs → dict_get k r = None) →
  ∃ e w', get_sf_data args pd sf o w = (inl e, w')
          ∧ exn_class_of e = KeyError ∧ w_fs w' = w_fs w.
Proof.
  intros Ha Ht Hr Hl Hk Hnone. rewrite get_sf_data_spec, Ha. simpl. rewrite Ht.
  destruct (raw_table args data) as [e|df] eqn:Hdf.
  - revert Hdf. unfold raw_table. rewrite Hr. simpl. rewrite Hl.
    unfold drop. case_decide; [done|]. intros [= <-]. eauto.
  - rewrite coerce_and_write_spec. simpl.
    apply raw_table_inr in Hdf as (l' & rs' & Hr' & Hl' & _ & ->).
    rewrite Hr in Hr'. injection Hr' as <-. rewrite Hl in Hl'.
    injection Hl' as <-.
    unfold astype.
    destruct (filter _ (dict_keys (dict_fields o))) as [|k0 ks] eqn:Hf;
      [|by eauto].
    exfalso.
    assert (k ∈ filter (λ k, k ∉ column_names
              {| df_index := length rs;
                 df_columns :=
                   filter (λ c, c.1 ≠ lit "attributes")
                     (map (λ k, (k, map (cell_of k) rs)) (record_columns rs)) |})
              (dict_keys (dict_fields o))) as Hin; [|by rewrite Hf in Hin;
                                                      apply elem_of_nil in Hin].
    apply list_elem_of_filter. split.
    + unfold column_names. simpl.
      intros (c & -> & [_ Hc]%list_elem_of_filter)%list_elem_of_fmap.
      apply list_elem_of_fmap in Hc as (k' & -> & Hk'). simpl in Hnone.
      apply record_columns_elem in Hk' as (r & Hrin & Hkr).
      by apply (dict_get_None k' r) in Hkr; [|apply Hnone].
    + apply dict_keys_elem. unfold dict_fields, field_types.
      rewrite fst_zip; [done|]. unfold field_names. by rewrite !length_map.
Qed.

(** X8: records that come without the key [attributes] fail the task on
    [drop], whatever else they hold; nothing is cast, nothing written. *)
Theorem records_without_attributes_fail
    (sf : Salesforce) (o : SfObject) (w : World) (data : pyval)
    (l : list pyval) (rs : list (list (pystr * pyval))) :
  answer args sf o = inr data →
  truthy data = true →
  records_in args data = inr (PList l) →
  as_records l = Some rs →
  (∀ r, r ∈ rs → dict_get (lit "attributes") r = None) →
  get_sf_data args pd sf o w =
  (inl (Exn KeyError (lit "['attributes'] not found in axis")),
   {| w_fs := w_fs w; w_log := w_log w ++ [fields_line o];
      w_net := w_net w ++ [issued args o] |}).
Proof.
  intros Ha Ht Hr Hl Hnone. rewrite get_sf_data_spec, Ha. simpl. rewrite Ht.
  unfold raw_table. rewrite Hr. simpl. rewrite Hl.
  unfold drop. case_decide as Hin; [|done]. exfalso.
  unfold column_names, frame_of_records in Hin. simpl in Hin.
  apply list_elem_of_fmap in Hin as (c & Hc & Hin).
  apply list_elem_of_fmap in Hin as (k & -> & Hk). simpl in Hc. subst k.
  apply record_columns_elem in Hk as (r & Hrin & Hkr).
  by apply (dict_get_None (lit "attributes") r) in Hkr; [|apply Hnone].
Qed.

End Cells.

Lemma missing_field_fails_witness :
  ∃ e w', get_sf_data Example.normal Example.pandas Wide.sf Wide.Contact
            Example.clean = (inl e, w')
          ∧ exn_class_of e = KeyError ∧ w_fs w' = w_fs Example.clean.
Proof.
  apply (missing_field_fails Example.normal Example.pandas Wide.sf Wide.Contact
           Example.clean (Example.envelope [PDict Wide.row]) [PDict Wide.row]
           [Wide.row] (lit "Email")); try reflexivity.
  - apply elem_of_cons. right. apply elem_of_cons. right.
    apply elem_of_cons. right. apply list_elem_of_here.
  - intros r ->%list_elem_of_singleton. reflexivity.
Defined.

Lemma records_without_attributes_fail_witness :
  get_sf_data Example.bulk Example.pandas Wide.sf Example.Contact Example.clean =
  (inl (Exn KeyError (lit "['attributes'] not found in axis")),
   {| w_fs := w_fs Example.clean;
      w_log := w_log Example.clean ++ [fields_line Example.Contact];
      w_net := w_net Example.clean ++ [issued Example.bulk Example.Contact] |}).
Proof.
  apply (records_without_attributes_fail Example.bulk Example.pandas Wide.sf
           Example.Contact Example.clean (PList [PDict Wide.bare])
           [PDict Wide.bare] [Wide.bare]); try reflexivity.
  intros r ->%list_elem_of_singleton. reflexivity.
Defined.

(** ** Field names and their types *)

Lemma dict_get_zip_last {A} (f g : A → pystr) (l : list A) (k : pystr) :
  dict_get k (zip (map f l) (map g l))
  = g <$> last (filter (λ x, f x = k) l).
Proof.
  induction l as [|x l IH]; [done|].
  change (zip (map f (x :: l)) (map g (x :: l)))
    with ((f x, g x) :: zip (map f l) (map g l)).
  cbn [dict_get]. rewrite IH. rewrite filter_cons.
  destruct (last (filter (λ x, f x = k) l)) as [y|] eqn:Hlast; simpl.
  - case_decide; [|by rewrite Hlast].
    destruct (filter (λ x, f x = k) l) as [|z zs]; [done|].
    rewrite last_cons, Hlast. done.
  - apply last_None in Hlast. rewrite Hlast.
    destruct (decide (k = f x)) as [->|Hne].
    + by rewrite decide_True.
    + by rewrite decide_False.
Qed.

(** X9: the dtype a column is cast to is the type of the last field of the
    schema whose stripped name is the name of the column; a column no field
    names is not cast. *)
Theorem dtype_is_type_of_last_field (o : SfObject) (k : pystr) :
  dict_get k (dict_fields o)
  = type <$> last (filter (λ f, strip (field_api_name f) = k) (fields o)).
Proof.
  unfold dict_fields, field_names, field_types.
  apply (dict_get_zip_last (λ f, strip (field_api_name f)) type).
Qed.

(** *** [strip] *)

Lemma lstrip_fixed (s : pystr) :
  lstrip s = s ↔ s = [] ∨ ∃ c t, s = c :: t ∧ isspace c = false.
Proof.
  destruct s as [|c t]; simpl; [split; [by left|done]|].
  destruct (isspace c) eqn:Hc.
  2:{ split; [intros _; right; by exists c, t|done]. }
  split; [|intros [?|(c' & t' & [= <- <-] & Hc')]; [done|congruence]].
  intros Heq. exfalso.
  assert (∀ u, length (lstrip u) ≤ length u)%nat as Hlen.
  { induction u as [|a u IH]; simpl; [done|]. destruct (isspace a); simpl; lia. }
  specialize (Hlen t). rewrite Heq in Hlen. simpl in Hlen. lia.
Qed.

Lemma lstrip_idemp (s : pystr) : lstrip (lstrip s) = lstrip s.
Proof.
  induction s as [|c t IH]; simpl; [done|].
  destruct (isspace c) eqn:Hc; [done|]. simpl. by rewrite Hc.
Qed.

Lemma lstrip_snoc (u : pystr) (c : N) :
  isspace c = false → lstrip (u ++ [c]) = lstrip u ++ [c].
Proof.
  intros Hc. induction u as [|a u IH]; simpl; [by rewrite Hc|].
  by destruct (isspace a).
Qed.

Lemma rstrip_idemp (s : pystr) : rstrip (rstrip s) = rstrip s.
Proof. unfold rstrip. by rewrite rev_involutive, lstrip_idemp. Qed.

Lemma lstrip_rstrip (s : pystr) : lstrip s = s → lstrip (rstrip s) = rstrip s.
Proof.
  intros [->|(c & t & -> & Hc)]%lstrip_fixed; [done|].
  unfold rstrip. simpl. rewrite lstrip_snoc by done.
  rewrite rev_app_distr. simpl. by rewrite Hc.
Qed.

Lemma strip_idemp (s : pystr) : strip (strip s) = strip s.
Proof.
  unfold strip. rewrite lstrip_rstrip by apply lstrip_idemp.
  apply rstrip_idemp.
Qed.

(** X10: a field name of a task carries no whitespace at either end, and
    stripping the names of a schema entry beforehand changes neither the
    query nor the dtypes of the task. *)
Theorem field_names_are_stripped (o : SfObject) :
  Forall (λ k, lstrip k = k ∧ rstrip k = k) (field_names o)
  ∧ query (stripped o) = query o
  ∧ dict_fields (stripped o) = dict_fields o.
Proof.
  assert (field_names (stripped o) = field_names o) as Hnames.
  { unfold field_names, stripped. simpl. rewrite map_map. simpl.
    apply map_ext. intros f. apply strip_idemp. }
  split_and!.
  - unfold field_names. apply Forall_forall.
    intros k (f & -> & _)%list_elem_of_fmap. unfold strip. split.
    + apply lstrip_rstrip, lstrip_idemp.
    + apply rstrip_idemp.
  - unfold query. by rewrite Hnames.
  - unfold dict_fields. rewrite Hnames. f_equal.
    unfold field_types, stripped. simpl. by rewrite map_map.
Qed.

Example dtype_of_a_field_declared_twice :
  dict_get (lit "Age") (dict_fields Wide.Contact) = Some (lit "str").
Proof. reflexivity. Qed.

(** ** More on the pool *)

Section PoolStates.

Variable args : Args.
Variable pd : Pandas.
Variable sf : Salesforce.
Variable max_workers : nat.

Lemma pool_invariants_reachable (objs : list SfObject) (w0 : World)
    (s s' : Pool) :
  pool_ok max_workers s →
  pool_run args pd sf objs w0 s →
  rtc (step args pd max_workers sf) s s' →
  pool_ok max_workers s' ∧ pool_run args pd sf objs w0 s'.
Proof.
  intros Hok Hrun Hreach.
  induction Hreach as [|s s1 s' [e Hfire] _ IH]; [done|].
  apply IH; [by eapply pool_ok_fire|by eapply pool_run_fire].
Qed.

Lemma pool_invariants_submitted (objs : list SfObject) (w : World) (s : Pool) :
  rtc (step args pd max_workers sf) (submitted objs w) s →
  pool_ok max_workers s ∧ pool_run args pd sf objs w s.
Proof.
  apply pool_invariants_reachable;
    [apply pool_ok_submitted|apply pool_run_submitted].
Qed.

(** The world after an event: as before, after the task of a future, or
    with the line of a result. *)
Lemma fire_world (e : event) (s s' : Pool) :
  fire args pd max_workers sf e s = Some s' →
  world s' = world s
  ∨ (∃ f fu, futures s !! f = Some fu
             ∧ world s' = (get_sf_data args pd sf (fut_obj fu)
                             (world s)).2)
  ∨ (∃ f fu r name, futures s !! f = Some fu
               ∧ obj_name (fut_obj fu) = Some name
               ∧ world s' = add_log [report_line name r] (world s)).
Proof.
  destruct e as [|t|t|f].
  - intros (o & rest & _ & _ & ->)%fire_submit. left.
    match goal with |- world (adjust_thread_count _ ?s1) = _ =>
      by destruct (adjust_thread_count_fields max_workers s1)
        as (_ & _ & _ & _ & -> & _)
    end.
  - intros (f & q & fu & _ & _ & _ & ->)%fire_take. by left.
  - intros (f & fu & _ & Hf & ->)%fire_finish. right. left. eauto.
  - intros (fu & r & _ & _ & Hf & _ & _ & ->)%fire_yield. simpl.
    destruct (obj_name (fut_obj fu)) as [name|] eqn:Hname; [|by left].
    right. right. by exists f, fu, r, name.
Qed.

Lemma future_of_the_list (objs : list SfObject) (w0 : World) (s : Pool)
    (f : nat) (fu : Future) :
  pool_run args pd sf objs w0 s →
  futures s !! f = Some fu → fut_obj fu ∈ objs.
Proof.
  intros Hrun Hf. rewrite <- (run_objs _ _ _ _ _ _ Hrun).
  apply elem_of_app. left. apply list_elem_of_fmap. exists fu.
  split; [done|]. by eapply list_elem_of_lookup_2.
Qed.

Lemma pool_other_paths_from (objs : list SfObject) (w0 : World)
    (s0 s : Pool) (p : path) :
  pool_ok max_workers s0 →
  pool_run args pd sf objs w0 s0 →
  rtc (step args pd max_workers sf) s0 s →
  (∀ o, o ∈ objs → p ≠ csv_path args o ∧ p ≠ pq_path args o) →
  w_fs (world s) !! p = w_fs (world s0) !! p.
Proof.
  intros Hok Hrun Hreach Hp.
  induction Hreach as [|s0 s1 s' [e Hfire] Hrest IH]; [done|].
  rewrite IH; [|by eapply pool_ok_fire|by eapply pool_run_fire].
  destruct (fire_world e _ _ Hfire)
    as [->|[(f & fu & Hf & ->)|(f & fu & r & name & Hf & Hname & ->)]]; [done| |done].
  destruct (Hp (fut_obj fu)) as [Hc Hq]; [by eapply future_of_the_list|].
  by apply get_sf_data_other_paths.
Qed.

Lemma pool_other_paths (objs : list SfObject) (w : World) (s : Pool) (p : path) :
  rtc (step args pd max_workers sf) (submitted objs w) s →
  (∀ o, o ∈ objs → p ≠ csv_path args o ∧ p ≠ pq_path args o) →
  w_fs (world s) !! p = w_fs w !! p.
Proof.
  intros Hreach Hp.
  apply (pool_other_paths_from objs w (submitted objs w) s p);
    [apply pool_ok_submitted|apply pool_run_submitted|done|done].
Qed.


End PoolStates.

(** *** Warnings *)

Lemma warnings_snoc (log : list (level * list part)) (l : level)
    (msg : list part) :
  warnings (log ++ [(l, msg)])
  = (warnings log + if decide (l = WARNING) then 1 else 0)%nat.
Proof.
  unfold warnings. rewrite filter_app, length_app. f_equal.
  rewrite filter_cons. simpl. by case_decide.
Qed.

Section Warnings.

Variable args : Args.
Variable pd : Pandas.
Variable sf : Salesforce.
Variable max_workers : nat.

(** A task logs no warning. *)
Lemma get_sf_data_warnings (o : SfObject) (w : World) :
  warnings (w_log (get_sf_data args pd sf o w).2) = warnings (w_log w).
Proof.
  rewrite get_sf_data_spec. simpl.
  assert (warnings (w_log w ++ [fields_line o]) = warnings (w_log w)) as H1
    by (unfold fields_line; rewrite warnings_snoc; simpl; lia).
  destruct (answer args sf o) as [e|data]; [done|].
  destruct (truthy data); simpl.
  2:{ unfold no_data_line. rewrite warnings_snoc. simpl. lia. }
  destruct (raw_table args data) as [e|df]; [done|].
  rewrite coerce_and_write_spec. simpl.
  assert (∀ d, warnings ((w_log w ++ [fields_line o]) ++ [(DEBUG, d)])
               = warnings (w_log w)) as H2
    by (intros d; rewrite warnings_snoc; simpl; lia).
  destruct (astype (cast_cell pd) (dict_fields o) df) as [e|df']; [apply H2|].
  destruct (writable _ (csv_path args o)); [|apply H2].
  destruct (arrow_error pd df'); [apply H2|].
  destruct (writable _ (pq_path args o)); simpl; [|apply H2].
  rewrite warnings_snoc, H2. simpl. lia.
Qed.

(** The warnings of the log are those that were there and one for every
    failure the loop has handled. *)
Lemma warnings_fire (objs : list SfObject) (w0 : World) (e : event)
    (s s' : Pool) :
  pool_ok max_workers s →
  pool_run args pd sf objs w0 s →
  fire args pd max_workers sf e s = Some s' →
  (warnings (w_log (world s')) + length (omap reported_failure (futures s))
   = warnings (w_log (world s)) + length (omap reported_failure (futures s')))%nat.
Proof.
  intros Hok Hrun Hfire. destruct e as [|t|t|f].
  - apply fire_submit in Hfire as (o & rest & _ & _ & ->).
    match goal with |- context [adjust_thread_count _ ?s1] =>
      destruct (adjust_thread_count_fields max_workers s1)
        as (_ & -> & _ & _ & -> & _)
    end.
    simpl. rewrite omap_app. simpl. by rewrite app_nil_r.
  - apply fire_take in Hfire as (f & q & fu & _ & Hq & Hf & ->). simpl.
    assert (state_of s f = Some Pending) as Hst
      by (apply Hok; rewrite Hq; left).
    unfold state_of in Hst. rewrite Hf in Hst. injection Hst as Hst.
    rewrite (omap_insert_same _ _ _ fu); [done|done|].
    unfold reported_failure. simpl. rewrite Hst.
    by destruct (fut_seen fu), (obj_name (fut_obj fu)).
  - apply fire_finish in Hfire as (f & fu & Ht & Hf & ->). simpl.
    assert (fut_seen fu = false) as Hseen.
    { assert (state_of s f = Some Running) as Hst
        by (by eapply Hok, elem_of_busy).
      unfold state_of in Hst. rewrite Hf in Hst. injection Hst as Hst.
      destruct (fut_seen fu) eqn:Hs; [|done].
      destruct (run_seen _ _ _ _ _ _ Hrun f fu Hf Hs) as (r & Hr & _).
      by rewrite Hst in Hr. }
    rewrite get_sf_data_warnings.
    rewrite (omap_insert_same _ _ _ fu); [done|done|].
    unfold reported_failure. simpl. by rewrite Hseen.
  - apply fire_yield in Hfire as (fu & r & _ & _ & Hf & Hseen & Hr & ->).
    apply result_of_outcome in Hr. simpl.
    destruct (obj_name (fut_obj fu)) as [name|] eqn:Hname.
    + destruct r as [e|n]; simpl in *; rewrite warnings_snoc; simpl.
      * rewrite (omap_insert_Some _ _ _ fu _ e); [simpl; lia|done| |].
        -- unfold reported_failure. by rewrite Hseen.
        -- unfold reported_failure. simpl. by rewrite Hname, Hr.
      * rewrite (omap_insert_same _ _ _ fu); [lia|done|].
        unfold reported_failure. simpl. by rewrite Hseen, Hname, Hr.
    + rewrite (omap_insert_same _ _ _ fu); [done|done|].
      unfold reported_failure. simpl. by rewrite Hseen, Hname.
Qed.

Lemma warnings_reachable (objs : list SfObject) (w0 : World) (s0 s : Pool) :
  pool_ok max_workers s0 →
  pool_run args pd sf objs w0 s0 →
  rtc (step args pd max_workers sf) s0 s →
  (warnings (w_log (world s)) + length (omap reported_failure (futures s0))
   = warnings (w_log (world s0)) + length (omap reported_failure (futures s)))%nat.
Proof.
  intros Hok Hrun Hreach.
  induction Hreach as [|s0 s1 s' [e Hfire] Hrest IH]; [done|].
  pose proof (warnings_fire objs w0 e _ _ Hok Hrun Hfire).
  specialize (IH ltac:(by eapply pool_ok_fire) ltac:(by eapply pool_run_fire)).
  lia.
Qed.

End Warnings.

Section Outcomes.

Variable args : Args.
Variable pd : Pandas.
Variable choose : Pool → nat.
Variable sf : Salesforce.
Variable max_workers : nat.

Lemma reported_failure_seen (l : list Future) :
  (∀ f fu, l !! f = Some fu → fut_seen fu = true ∧ named (fut_obj fu)) →
  omap reported_failure l = omap failure l.
Proof.
  intros Hseen. apply list_omap_ext. apply Forall2_same_length_lookup_2; [done|].
  intros i fu fu' Hi Hi'. rewrite Hi in Hi'. injection Hi' as <-.
  destruct (Hseen i fu Hi) as (Hs & name & Hname).
  unfold reported_failure, failure. by rewrite Hs, Hname.
Qed.

(** X12: when [execute] is through, the log has gained exactly one warning
    for every failed task whose future the loop has handled with the name
    of its object, and none besides; where every entry of the schema has a
    name, that is one warning for every task that failed. *)
Theorem one_warning_per_failed_task (objs : list SfObject) (w : World) :
  (0 < max_workers)%nat →
  let s := pool_at_exit args pd choose max_workers sf objs w in
  warnings (w_log (world s))
  = (warnings (w_log w) + length (omap reported_failure (futures s)))%nat
  ∧ (Forall named objs →
     warnings (w_log (world s))
     = (warnings (w_log w) + length (omap failure (futures s)))%nat).
Proof.
  intros HW s.
  destruct (pool_at_exit_spec args pd choose sf max_workers objs w HW)
    as (_ & Hrun & _ & _ & Hdone).
  fold s in Hdone, Hrun.
  pose proof (warnings_reachable args pd sf max_workers objs w
                (submitted objs w) s
                (pool_ok_submitted max_workers objs w)
                (pool_run_submitted args pd sf objs w)
                (run_reachable args pd choose sf max_workers _ _)) as H.
  simpl in H. split; [lia|]. intros Hnamed.
  rewrite reported_failure_seen in H; [lia|].
  intros f fu Hf. split.
  - apply (Hdone (raised_named args pd sf objs w s Hrun Hnamed) f fu Hf).
  - rewrite Forall_forall in Hnamed. apply Hnamed.
    rewrite <- (run_objs _ _ _ _ _ _ Hrun). apply elem_of_app. left.
    apply list_elem_of_fmap. exists fu. split; [done|].
    by eapply list_elem_of_lookup_2.
Qed.

End Outcomes.

Section Order.

Variable args : Args.
Variable pd : Pandas.
Variable sf : Salesforce.
Variable max_workers : nat.

(** An event leaves the result of a task as it is. *)
Lemma result_kept_fire (e : event) (s s' : Pool) (f : nat) (st : task_state) :
  pool_ok max_workers s →
  fire args pd max_workers sf e s = Some s' →
  state_of s f = Some st →
  is_Some (result_of st) →
  state_of s' f = Some st.
Proof.
  intros Hok Hfire Hst [r Hr]. destruct e as [|t|t|g].
  - apply fire_submit in Hfire as (o & rest & _ & _ & ->).
    match goal with |- context [adjust_thread_count _ ?s1] =>
      destruct (adjust_thread_count_fields max_workers s1)
        as (_ & Hfut & _)
    end.
    unfold state_of. rewrite Hfut. simpl. rewrite state_of_snoc.
    rewrite decide_False; [done|]. apply state_of_valid in Hst. lia.
  - apply fire_take in Hfire as (g & q & fu & _ & Hq & Hg & ->).
    unfold state_of. simpl. rewrite (state_of_insert _ _ _ fu) by done.
    case_decide as Heq; [|done]. subst g.
    assert (state_of s f = Some Pending) as Hp by (apply Hok; rewrite Hq; left).
    rewrite Hst in Hp. injection Hp as ->. done.
  - apply fire_finish in Hfire as (g & fu & Ht & Hg & ->).
    unfold state_of. simpl. rewrite (state_of_insert _ _ _ fu) by done.
    case_decide as Heq; [|done]. subst g.
    assert (state_of s f = Some Running) as Hp by (by eapply Hok, elem_of_busy).
    rewrite Hst in Hp. injection Hp as ->. done.
  - apply fire_yield in Hfire as (fu & r' & _ & _ & Hg & _ & _ & ->).
    unfold state_of. simpl. rewrite (state_of_insert _ _ _ fu) by done.
    case_decide as Heq; [|done]. subst g. simpl.
    unfold state_of in Hst. rewrite Hg in Hst. done.
Qed.

(** X14: the outcome of a task is final: once a future holds a result, it
    holds that result in every later state of the pool. *)
Theorem outcomes_are_final
    (objs : list SfObject) (w : World) (s s' : Pool) (f : nat) (st : task_state) :
  rtc (step args pd max_workers sf) (submitted objs w) s →
  rtc (step args pd max_workers sf) s s' →
  state_of s f = Some st →
  is_Some (result_of st) →
  state_of s' f = Some st.
Proof.
  intros Hreach Hlater Hst Hr.
  destruct (pool_invariants_submitted args pd sf max_workers objs w s
              Hreach) as [Hok _].
  clear Hreach. induction Hlater as [|s s1 s' [e Hfire] _ IH]; [done|].
  apply IH; [by eapply result_kept_fire|by eapply pool_ok_fire].
Qed.

(** X15: the executor never holds more threads than tasks were submitted
    to it. *)
Theorem threads_at_most_tasks (objs : list SfObject) (w : World) (s : Pool) :
  rtc (step args pd max_workers sf) (submitted objs w) s →
  (length (threads s) ≤ length (futures s))%nat.
Proof.
  intros Hreach. apply rtc_nsteps in Hreach as [n Hreach].
  revert s Hreach. induction n as [|n IH]; intros s Hreach.
  - inversion Hreach; subst. simpl. lia.
  - apply nsteps_inv_r in Hreach as (s1 & Hreach & [e Hfire]).
    specialize (IH s1 Hreach). destruct e as [|t|t|f].
    + apply fire_submit in Hfire as (o & rest & _ & _ & ->).
      unfold adjust_thread_count. simpl.
      destruct (idle_semaphore s1); simpl; [|rewrite length_app; simpl; lia].
      case_decide; simpl; rewrite !length_app; simpl; lia.
    + apply fire_take in Hfire as (f & q & fu & _ & _ & _ & ->). simpl.
      by rewrite !length_insert.
    + apply fire_finish in Hfire as (f & fu & _ & _ & ->). simpl.
      by rewrite !length_insert.
    + apply fire_yield in Hfire as (fu & r & _ & _ & _ & _ & _ & ->). simpl.
      by rewrite !length_insert.
Qed.

End Order.


Lemma one_warning_per_failed_task_witness :
  (0 < 2)%nat
  ∧ let s := pool_at_exit Example.normal Example.pandas Example.scheduler 2
               Example.sf_bad_age
               [Example.Account; Example.Contact; Example.Account]
               Example.clean in
    warnings (w_log (world s))
    = (warnings (w_log Example.clean)
       + length (omap reported_failure (futures s)))%nat
    ∧ (Forall named [Example.Account; Example.Contact; Example.Account] →
       warnings (w_log (world s))
       = (warnings (w_log Example.clean)
          + length (omap failure (futures s)))%nat).
Proof.
  split; [lia|].
  apply (one_warning_per_failed_task Example.normal Example.pandas
           Example.scheduler Example.sf_bad_age 2
           [Example.Account; Example.Contact; Example.Account] Example.clean).
  lia.
Defined.

Lemma outcomes_are_final_witness :
  state_of Later.second 1
  = Some (Failed (Exn ValueError (lit "invalid literal for int()"))).
Proof.
  apply (outcomes_are_final Example.normal Example.pandas Example.sf_bad_age 2
           [Example.Account; Example.Contact; Example.Account]
           Example.clean Later.first Later.second 1).
  - apply (fire_all_default Example.normal Example.pandas
             Example.sf_bad_age 2
             [Submit; Take 0; Finish 0; Submit; Take 0; Finish 0]).
    vm_cast_no_check (eq_refl true).
  - apply (fire_all_default Example.normal Example.pandas
             Example.sf_bad_age 2 [Submit; Take 0; Finish 0]).
    vm_cast_no_check (eq_refl true).
  - reflexivity.
  - by eexists.
Defined.

Lemma threads_at_most_tasks_witness :
  (length (threads Midway.pool) ≤ length (futures Midway.pool))%nat.
Proof.
  apply (threads_at_most_tasks Example.normal Example.pandas Example.sf 2
           [Example.Account; Example.Contact; Example.Account] Example.clean
           Midway.pool).
  apply (fire_all_default Example.normal Example.pandas
           Example.sf 2 Midway.schedule).
  vm_cast_no_check (eq_refl true).
Defined.

(** ** What the set-up keeps *)

Lemma preserves_bind {E A B} (P : World → Prop) (m : M E A) (f : A → M E B) :
  preserves P m → (∀ x, preserves P (f x)) → preserves P (m ≫= f).
Proof.
  intros Hm Hf w Hw. unfold mbind, M_bind.
  specialize (Hm w Hw). destruct (m w) as [[e|x] w1]; [done|].
  by apply Hf.
Qed.

Lemma preserves_uncaught {A} (P : World → Prop) (m : M exn A) :
  preserves P m → preserves P (uncaught m).
Proof.
  intros Hm w Hw. unfold uncaught. specialize (Hm w Hw).
  by destruct (m w) as [[e|x] w1].
Qed.

Lemma preserves_mret {E A} (P : World → Prop) (x : A) :
  preserves P (mret x : M E A).
Proof. by intros w Hw. Qed.

Lemma preserves_for_each {E A} (P : World → Prop) (l : list A)
    (body : A → M E ()) :
  (∀ x, preserves P (body x)) → preserves P (for_each l body).
Proof.
  intros Hbody. induction l as [|x l IH]; simpl; [apply preserves_mret|].
  apply preserves_bind; [apply Hbody|by intros _].
Qed.

Section SetUpKeeps.

Variable args : Args.

Lemma rmtree_keeps (d p : path) (x : node) :
  ¬ d `prefix_of` p →
  preserves (λ w, w_fs w !! p = Some x) (rmtree d).
Proof.
  intros Hd w Hw. unfold rmtree.
  destruct (w_fs w !! d) as [[|c]|]; simpl; try done;
    by apply map_lookup_filter_Some.
Qed.

Lemma mkdir_keeps (d p : path) (x : node) :
  preserves (λ w, w_fs w !! p = Some x) (mkdir d).
Proof.
  intros w Hw. unfold mkdir.
  destruct (existsb (is_file (w_fs w)) (ancestors d)) eqn:Hfile; [done|].
  simpl. rewrite lookup_mkdirs. case_decide as Hin; [|done].
  destruct x as [|c]; [done|]. exfalso.
  assert (existsb (is_file (w_fs w)) (ancestors d) = true) as Htrue;
    [|congruence].
  apply existsb_exists. exists p. split; [by apply list_elem_of_In|].
  unfold is_file. by rewrite Hw.
Qed.

(** X16: however [pre_steps] ends, it has removed and changed nothing
    outside the two output directories: a file or directory that is not
    [csv] or [pq] under the output path, nor inside them, is as it was. *)
Theorem pre_steps_keeps_the_rest (w : World) (p : path) (x : node) :
  ¬ output_path args ++ [lit "csv"] `prefix_of` p →
  ¬ output_path args ++ [lit "pq"] `prefix_of` p →
  w_fs w !! p = Some x →
  w_fs (pre_steps args w).2 !! p = Some x.
Proof.
  intros Hcsv Hpq. revert w.
  change (preserves (λ w, w_fs w !! p = Some x) (pre_steps args)).
  unfold pre_steps. apply preserves_bind.
  - apply preserves_uncaught. simpl.
    repeat (apply preserves_bind; [|intros _]);
      try apply preserves_mret; try apply mkdir_keeps;
      by apply rmtree_keeps.
  - intros _. apply preserves_bind; [by intros w Hw|]. intros fs.
    case_match.
    + apply preserves_bind; [by intros w Hw|]. intros _. by intros w Hw.
    + apply preserves_uncaught, mkdir_keeps.
Qed.

End SetUpKeeps.


Lemma pre_steps_keeps_the_rest_witness :
  w_fs (pre_steps Example.normal Leftover.world).2 !! [lit "config.ini"]
  = Some (File (Text (lit "2"))).
Proof.
  apply pre_steps_keeps_the_rest.
  - intros [k Hk]. discriminate Hk.
  - intros [k Hk]. discriminate Hk.
  - vm_compute. reflexivity.
Defined.

Section SetUpDone.

Variable args : Args.

Lemma pre_steps_inr (w w' : World) :
  pre_steps args w = (inr (), w') →
  w_log w' = w_log w ∧ w_net w' = w_net w
  ∧ (∀ dir, dir ∈ [lit "csv"; lit "pq"] →
       w_fs w' !! (output_path args ++ [dir]) = Some Dir
       ∧ ∀ p, inside (output_path args ++ [dir]) p →
              w_fs w' !! p = None
              ∨ (w_fs w' !! p = Some Dir ∧ p ∈ ancestors (log_path args)))
  ∧ is_dir (w_fs w') (log_path args) = true
  ∧ path_exists (w_fs w') (config args) = true
  ∧ path_exists (w_fs w') (json args) = true.
Proof.
  unfold pre_steps.
  intros ([] & wa & Hclean%uncaught_inr & Hrest)%bind_inr.
  apply clean_output_spec in Hclean as (Hlog & Hnet & Hdirs).
  revert Hrest. unfold files, mbind at 1, M_bind at 1.
  unfold CONFIG_FILE, JSON_FILE.
  destruct (path_exists (w_fs wa) (config args)
            && path_exists (w_fs wa) (json args)) eqn:Hex; simpl.
  2:{ unfold_M. done. }
  apply andb_prop in Hex as [Hc Hj].
  intros Hmk%uncaught_inr. unfold mkdir in Hmk.
  destruct (existsb (is_file (w_fs wa)) (ancestors (log_path args)));
    [done|].
  injection Hmk as <-. simpl.
  assert (∀ p, path_exists (w_fs wa) p = true →
            path_exists (foldr (λ q fs, <[q:=Dir]> fs) (w_fs wa)
                           (ancestors (log_path args))) p = true) as Hkeep.
  { intros [|x p]; [done|]. simpl. intros Hp%bool_decide_eq_true.
    apply bool_decide_eq_true. rewrite lookup_mkdirs. by case_decide. }
  split_and!; [done|done| |  |by apply Hkeep|by apply Hkeep].
  - intros dir Hdir. destruct (Hdirs dir Hdir) as [Hd Hin]. split.
    + rewrite lookup_mkdirs. by case_decide.
    + intros p Hp. rewrite lookup_mkdirs. case_decide; [by right|].
      left. by apply Hin.
  - destruct (log_path args) as [|x l] eqn:Hl; [done|].
    unfold is_dir. rewrite lookup_mkdirs, decide_True; [done|].
    by apply ancestors_self.
Qed.

(** X17: when [pre_steps] returns, nothing was logged or sent; [csv] and
    [pq] are directories under the output path and hold no file (below
    them there is nothing but, possibly, directories on the way to the log
    directory); the log directory is there, and so are the config file and
    the schema file. *)
Theorem pre_steps_leaves_empty_directories (w w' : World) :
  pre_steps args w = (inr (), w') →
  w_log w' = w_log w ∧ w_net w' = w_net w
  ∧ (∀ dir, dir ∈ [lit "csv"; lit "pq"] →
       w_fs w' !! (output_path args ++ [dir]) = Some Dir
       ∧ ∀ p, inside (output_path args ++ [dir]) p →
              w_fs w' !! p = None
              ∨ (w_fs w' !! p = Some Dir ∧ p ∈ ancestors (log_path args)))
  ∧ is_dir (w_fs w') (log_path args) = true
  ∧ path_exists (w_fs w') (config args) = true
  ∧ path_exists (w_fs w') (json args) = true.
Proof. apply pre_steps_inr. Qed.

End SetUpDone.

Lemma pre_steps_leaves_empty_directories_witness :
  ∃ w', pre_steps Example.normal
          {| w_fs := <[ [lit "objects.json"] := File (Text (lit "[]")) ]>
                       (w_fs Leftover.world);
             w_log := []; w_net := [] |} = (inr (), w')
        ∧ w_fs w' !! [lit "out"; lit "csv"; lit "Account.csv"] = None.
Proof.
  destruct (pre_steps Example.normal
              {| w_fs := <[ [lit "objects.json"] := File (Text (lit "[]")) ]>
                           (w_fs Leftover.world);
                 w_log := []; w_net := [] |}) as [r w'] eqn:Hrun.
  assert (r = inr ()) as ->.
  { apply (f_equal fst) in Hrun. vm_compute in Hrun. congruence. }
  exists w'. split; [done|].
  destruct (pre_steps_leaves_empty_directories Example.normal _ w' Hrun)
    as (_ & _ & Hdirs & _).
  destruct (Hdirs (lit "csv")) as [_ Hin]; [by left|].
  destruct (Hin [lit "out"; lit "csv"; lit "Account.csv"]) as [H|[_ H]];
    [split; [by exists [lit "Account.csv"]|discriminate]|done|].
  exfalso. apply ancestors_length in H. vm_compute in H. lia.
Defined.


(** ** Files in pairs *)

Section Pairs.

Variable args : Args.
Variable pd : Pandas.

Lemma csv_path_inj (o o' : SfObject) :
  csv_path args o = csv_path args o' ↔ obj_api_name o = obj_api_name o'.
Proof.
  unfold csv_path. split; [|by intros ->].
  intros H%app_inv_head. injection H as H. by apply app_inv_tail in H.
Qed.

Lemma pq_path_inj (o o' : SfObject) :
  pq_path args o = pq_path args o' ↔ obj_api_name o = obj_api_name o'.
Proof.
  unfold pq_path. split; [|by intros ->].
  intros H%app_inv_head. injection H as H. by apply app_inv_tail in H.
Qed.

Lemma csv_not_pq (o o' : SfObject) : csv_path args o ≠ pq_path args o'.
Proof. unfold csv_path, pq_path. intros H%app_inv_head. discriminate H. Qed.

Lemma file_not_directory (o : SfObject) (d : pystr) :
  csv_path args o ≠ output_path args ++ [d]
  ∧ pq_path args o ≠ output_path args ++ [d].
Proof.
  unfold csv_path, pq_path.
  split; intros H%app_inv_head; discriminate H.
Qed.

Lemma writable_ready (w : World) (d x : pystr) :
  w_fs w !! (output_path args ++ [d]) = Some Dir →
  w_fs w !! (output_path args ++ [d; x]) ≠ Some Dir →
  writable w (output_path args ++ [d; x]) = true.
Proof.
  intros Hd Hx. unfold writable. rewrite parent_snoc.
  apply andb_true_intro. split.
  - unfold is_dir. rewrite Hd. by destruct (output_path args).
  - apply negb_true_iff. unfold is_dir.
    destruct (w_fs w !! (output_path args ++ [d; x])) as [[|c]|]; try done;
      by destruct (output_path args).
Qed.

(** What a task does to the files when the directories are ready: nothing,
    both writes, or the first write alone when pyarrow refuses the table. *)
Lemma coerce_and_write_files (o : SfObject) (df : DataFrame) (w : World) :
  output_ready args (w_fs w) →
  let r := coerce_and_write args pd o df w in
  w_fs r.2 = w_fs w
  ∨ (∃ n c1 c2, r.1 = inr n
       ∧ w_fs r.2 = <[pq_path args o := File c2]>
                      (<[csv_path args o := File c1]> (w_fs w)))
  ∨ (∃ e df' c1, r.1 = inl e ∧ arrow_error pd df' = Some e
       ∧ w_fs r.2 = <[csv_path args o := File c1]> (w_fs w)).
Proof.
  intros (Hcsv & Hpq & Hfree). simpl.
  rewrite coerce_and_write_spec. simpl.
  destruct (astype (cast_cell pd) (dict_fields o) df) as [e|df']; [by left|].
  destruct (Hfree o) as [Hc Hq].
  assert (∀ w1, w_fs w1 = w_fs w → writable w1 (csv_path args o) = true)
    as Hw1.
  { intros w1 Hfs. apply (writable_ready _ (lit "csv")); by rewrite Hfs. }
  assert (∀ w2 c, w_fs w2 = <[csv_path args o := File c]> (w_fs w) →
            writable w2 (pq_path args o) = true) as Hw2.
  { intros w2 c Hfs. apply (writable_ready _ (lit "pq")); rewrite Hfs.
    - rewrite lookup_insert_ne; [done|].
      destruct (file_not_directory o (lit "pq")) as [H _]. exact H.
    - fold (pq_path args o).
      rewrite lookup_insert_ne; [done|]. apply csv_not_pq. }
  rewrite Hw1; [|done].
  destruct (arrow_error pd df') as [e|] eqn:Harrow.
  { right. right. exists e, df', (csv_of df'). by split_and!. }
  erewrite Hw2; [|done].
  right. left. simpl. eauto.
Qed.

Lemma get_sf_data_files (sf : Salesforce) (o : SfObject) (w : World) :
  output_ready args (w_fs w) →
  let r := get_sf_data args pd sf o w in
  w_fs r.2 = w_fs w
  ∨ (∃ n c1 c2, r.1 = inr n
       ∧ w_fs r.2 = <[pq_path args o := File c2]>
                      (<[csv_path args o := File c1]> (w_fs w)))
  ∨ (∃ e df' c1, r.1 = inl e ∧ arrow_error pd df' = Some e
       ∧ w_fs r.2 = <[csv_path args o := File c1]> (w_fs w)).
Proof.
  intros Hready. simpl. rewrite get_sf_data_spec. simpl.
  destruct (answer args sf o) as [e|data]; [by left|].
  destruct (truthy data); [|by left].
  destruct (raw_table args data) as [e|df]; [by left|].
  by apply (coerce_and_write_files o df
              (add_net [issued args o] (add_log [fields_line o] w))).
Qed.

Lemma output_ready_written (o : SfObject) (c1 c2 : content)
    (fs : gmap path node) :
  output_ready args fs →
  output_ready args (<[pq_path args o := File c2]>
                       (<[csv_path args o := File c1]> fs)).
Proof.
  intros (Hcsv & Hpq & Hfree).
  destruct (file_not_directory o (lit "csv")) as [Hc1 Hq1].
  destruct (file_not_directory o (lit "pq")) as [Hc2 Hq2].
  split_and!.
  - by rewrite !lookup_insert_ne.
  - by rewrite !lookup_insert_ne.
  - intros o'. destruct (Hfree o') as [Hc Hq]. split.
    + rewrite lookup_insert_ne; [|apply not_eq_sym, csv_not_pq].
      destruct (decide (csv_path args o = csv_path args o')) as [->|Hne].
      * by rewrite lookup_insert_eq.
      * by rewrite lookup_insert_ne.
    + destruct (decide (pq_path args o = pq_path args o')) as [->|Hne].
      * by rewrite lookup_insert_eq.
      * rewrite lookup_insert_ne; [|done].
        rewrite lookup_insert_ne; [done|apply csv_not_pq].
Qed.

(** X18: with the two directories in place, a task leaves the files as
    they were, or returns its row count with the CSV file and the parquet
    file of its object written, or raises the exception with which pyarrow
    refuses its table, and then the CSV file alone is written. *)
Theorem task_writes_both_files_or_none
    (sf : Salesforce) (o : SfObject) (w : World) :
  output_ready args (w_fs w) →
  let r := get_sf_data args pd sf o w in
  w_fs r.2 = w_fs w
  ∨ (∃ n c1 c2, r.1 = inr n
       ∧ w_fs r.2 = <[pq_path args o := File c2]>
                      (<[csv_path args o := File c1]> (w_fs w)))
  ∨ (∃ e df' c1, r.1 = inl e ∧ arrow_error pd df' = Some e
       ∧ w_fs r.2 = <[csv_path args o := File c1]> (w_fs w)).
Proof. apply get_sf_data_files. Qed.

Lemma output_ready_csv (o : SfObject) (c1 : content) (fs : gmap path node) :
  output_ready args fs →
  output_ready args (<[csv_path args o := File c1]> fs).
Proof.
  intros (Hcsv & Hpq & Hfree).
  destruct (file_not_directory o (lit "csv")) as [Hc1 Hq1].
  destruct (file_not_directory o (lit "pq")) as [Hc2 Hq2].
  split_and!.
  - by rewrite lookup_insert_ne.
  - by rewrite lookup_insert_ne.
  - intros o'. destruct (Hfree o') as [Hc Hq]. split.
    + destruct (decide (csv_path args o = csv_path args o')) as [->|Hne].
      * by rewrite lookup_insert_eq.
      * by rewrite lookup_insert_ne.
    + rewrite lookup_insert_ne; [done|apply csv_not_pq].
Qed.

Lemma parquet_has_csv_csv (o : SfObject) (c1 : content) (fs : gmap path node) :
  parquet_has_csv args fs →
  parquet_has_csv args (<[csv_path args o := File c1]> fs).
Proof.
  intros Hpair o'. unfold is_file.
  rewrite lookup_insert_ne; [|apply csv_not_pq].
  destruct (decide (csv_path args o = csv_path args o')) as [->|Hne].
  - by rewrite lookup_insert_eq.
  - rewrite lookup_insert_ne; [|done]. apply Hpair.
Qed.

Lemma parquet_has_csv_written (o : SfObject) (c1 c2 : content)
    (fs : gmap path node) :
  parquet_has_csv args fs →
  parquet_has_csv args (<[pq_path args o := File c2]>
                          (<[csv_path args o := File c1]> fs)).
Proof.
  intros Hpair o'. unfold is_file.
  destruct (decide (obj_api_name o = obj_api_name o')) as [Heq|Hne].
  - apply csv_path_inj in Heq as Hc. intros _. rewrite <- Hc.
    rewrite lookup_insert_ne; [|apply not_eq_sym, csv_not_pq].
    by rewrite lookup_insert_eq.
  - rewrite (lookup_insert_ne _ (pq_path args o) (pq_path args o'));
      [|by intros ?%pq_path_inj].
    rewrite (lookup_insert_ne _ (csv_path args o) (pq_path args o'));
      [|apply csv_not_pq].
    rewrite (lookup_insert_ne _ (pq_path args o) (csv_path args o'));
      [|apply not_eq_sym, csv_not_pq].
    rewrite (lookup_insert_ne _ (csv_path args o) (csv_path args o'));
      [|by intros ?%csv_path_inj].
    apply Hpair.
Qed.

(** Whatever the tasks of a pool do, the directories stay ready and no
    parquet file comes without its CSV file. *)
Lemma pool_files (max_workers : nat) (sf : Salesforce) (s s' : Pool) :
  output_ready args (w_fs (world s)) →
  parquet_has_csv args (w_fs (world s)) →
  rtc (step args pd max_workers sf) s s' →
  output_ready args (w_fs (world s'))
  ∧ parquet_has_csv args (w_fs (world s')).
Proof.
  intros Hready Hpair Hreach.
  induction Hreach as [|s0 s1 s' [e Hfire] Hrest IH]; [done|].
  assert (output_ready args (w_fs (world s1))
          ∧ parquet_has_csv args (w_fs (world s1))) as [H1 H2];
    [|by apply IH].
  destruct (fire_world _ _ _ _ e _ _ Hfire)
    as [->|[(f & fu & Hf & ->)|(f & fu & r & name & Hf & Hname & ->)]];
    [done| |done].
  destruct (get_sf_data_files sf (fut_obj fu) (world s0) Hready)
    as [->|[(n & c1 & c2 & _ & ->)|(e1 & df' & c1 & _ & _ & ->)]]; [done| |].
  - split; [by apply output_ready_written|by apply parquet_has_csv_written].
  - split; [by apply output_ready_csv|by apply parquet_has_csv_csv].
Qed.

End Pairs.


(** ** A whole run *)

Lemma ancestors_prefix (d p : path) : p ∈ ancestors d → p `prefix_of` d.
Proof.
  unfold ancestors. intros (n & -> & _)%list_elem_of_fmap.
  exists (skipn n d). by rewrite take_drop.
Qed.

Lemma prefix_snoc (d l : path) (x : pystr) :
  d `prefix_of` l ++ [x] → d = l ++ [x] ∨ d `prefix_of` l.
Proof.
  intros [k Hk]. destruct k as [|y k _] using rev_ind.
  - left. by rewrite app_nil_r in Hk.
  - right. rewrite app_assoc in Hk. apply app_inj_tail in Hk as [-> _].
    by exists k.
Qed.

Section Whole.

Variable args : Args.
Variable pd : Pandas.
Variable connect : pystr → pystr → pystr → pystr → exn + Salesforce.
Variable parse_config : content → exn + gmap pystr (gmap pystr pystr).
Variable json_load : content → exn + list SfObject.
Variable int_of_str : pystr → option Z.
Variable choose : Pool → nat.

Lemma init_logger_inr (w w' : World) :
  init_logger args w = (inr (), w') →
  w_log w' = w_log w ∧ w_net w' = w_net w
  ∧ (∀ p x, w_fs w !! p = Some x → w_fs w' !! p = Some x)
  ∧ (∀ p, p ≠ log_file args → w_fs w' !! p = w_fs w !! p).
Proof.
  intros H%uncaught_inr. unfold open_append in H.
  destruct (is_dir (w_fs w) (parent _) && negb (is_dir (w_fs w) _)); [|done].
  injection H as <-. simpl. fold (log_file args).
  split_and!; [done|done| |].
  - intros p x Hp. destruct (w_fs w !! log_file args) eqn:Hl; [done|].
    rewrite lookup_insert_ne; [done|]. intros <-. congruence.
  - intros p Hp. destruct (w_fs w !! log_file args); [done|].
    by rewrite lookup_insert_ne.
Qed.

Lemma pre_steps_net (w : World) : w_net (pre_steps args w).2 = w_net w.
Proof.
  set (N := w_net w).
  assert (preserves (λ w', w_net w' = N) (pre_steps args)) as H;
    [|by apply H].
  assert (∀ d, preserves (λ w', w_net w' = N) (rmtree d)) as Hrm.
  { intros d w1 H1. unfold rmtree. by destruct (w_fs w1 !! d) as [[|c]|]. }
  assert (∀ d, preserves (λ w', w_net w' = N) (mkdir d)) as Hmk.
  { intros d w1 H1. unfold mkdir. by destruct (existsb _ _). }
  unfold pre_steps. apply preserves_bind.
  - apply preserves_uncaught, preserves_for_each. intros dir.
    apply preserves_bind; [apply Hrm|intros _; apply Hmk].
  - intros _. apply preserves_bind; [by intros w1 H1|]. intros fs.
    case_match.
    + apply preserves_bind; [by intros w1 H1|]. intros _. by intros w1 H1.
    + apply preserves_uncaught, Hmk.
Qed.

Lemma init_logger_net (w : World) : w_net (init_logger args w).2 = w_net w.
Proof.
  unfold init_logger, uncaught, open_append.
  by destruct (is_dir (w_fs w) (parent _) && negb (is_dir (w_fs w) _)).
Qed.

Lemma read_config_same (p : path) (w : World) :
  (read_config parse_config p w).2 = w.
Proof.
  unfold read_config. destruct (w_fs w !! p) as [[|c]|]; try done.
  by destruct (parse_config c).
Qed.

Lemma config_get_same (cfg : gmap pystr (gmap pystr pystr)) (sec key : pystr)
    (w : World) :
  (config_get cfg sec key w).2 = w.
Proof.
  unfold config_get. destruct (cfg !! sec) as [m|]; [|done].
  by destruct (m !! key).
Qed.

Lemma get_json_data_same (p : path) (w : World) :
  (get_json_data json_load p w).2 = w.
Proof.
  unfold get_json_data. destruct (w_fs w !! p) as [[|c]|]; try done.
  by destruct (json_load c).
Qed.

Lemma get_sf_conn_world (u p t d : pystr) (w : World) :
  let r := get_sf_conn connect u p t d w in
  w_fs r.2 = w_fs w ∧ w_net r.2 = w_net w ++ [Login u d]
  ∧ (∀ sf, r.1 = inr sf → w_log r.2 = w_log w).
Proof.
  simpl. unfold get_sf_conn. unfold_M.
  destruct (connect u p t d) as [e|sf']; [|done].
  by destruct (exn_class_of e).
Qed.

(** The start-up sends nothing but the login. *)
Lemma start_up_net (w : World) :
  let r := start_up args connect parse_config json_load w in
  w_net r.2 = w_net w
  ∨ ∃ u d, w_net r.2 = w_net w ++ [Login u d].
Proof.
  simpl. unfold start_up. unfold mbind, M_bind, mret, M_ret.
  pose proof (pre_steps_net w) as H1.
  destruct (pre_steps args w) as [[a|[]] w1]; simpl in H1; [by left|].
  pose proof (init_logger_net w1) as H2.
  destruct (init_logger args w1) as [[a|[]] w2]; simpl in H2;
    [left; simpl; congruence|].
  pose proof (read_config_same (CONFIG_FILE args) w2) as H3.
  destruct (read_config parse_config (CONFIG_FILE args) w2)
    as [[a|cfg] w3]; simpl in H3; subst w3; [left; simpl; congruence|].
  pose proof (config_get_same cfg (lit "salesforce") (lit "username") w2) as H4.
  destruct (config_get cfg _ (lit "username") w2) as [[a|u] w4];
    simpl in H4; subst w4; [left; simpl; congruence|].
  pose proof (config_get_same cfg (lit "salesforce") (lit "password") w2) as H5.
  destruct (config_get cfg _ (lit "password") w2) as [[a|p] w5];
    simpl in H5; subst w5; [left; simpl; congruence|].
  pose proof (config_get_same cfg (lit "salesforce") (lit "token") w2) as H6.
  destruct (config_get cfg _ (lit "token") w2) as [[a|t] w6];
    simpl in H6; subst w6; [left; simpl; congruence|].
  pose proof (config_get_same cfg (lit "salesforce") (lit "domain") w2) as H7.
  destruct (config_get cfg _ (lit "domain") w2) as [[a|d] w7];
    simpl in H7; subst w7; [left; simpl; congruence|].
  pose proof (config_get_same cfg (lit "proc") (lit "threads") w2) as H8.
  destruct (config_get cfg _ (lit "threads") w2) as [[a|n] w8];
    simpl in H8; subst w8; [left; simpl; congruence|].
  destruct (get_sf_conn_world u p t d w2) as (_ & H9 & _).
  destruct (get_sf_conn connect u p t d w2) as [[a|sf] w9]; simpl in H9;
    [right; exists u, d; simpl; congruence|].
  pose proof (get_json_data_same (JSON_FILE args) w9) as H10.
  destruct (get_json_data json_load (JSON_FILE args) w9) as [[a|objs] w10];
    simpl in H10; subst w10; right; exists u, d; simpl; congruence.
Qed.

(** The world a start-up that completes hands to [execute]. *)
Lemma start_up_world (w w' : World) (sf : Salesforce) (objs : list SfObject)
    (threads : pystr) :
  start_up args connect parse_config json_load w = (inr (sf, objs, threads), w') →
  ∃ w0 w1 u d,
    pre_steps args w = (inr (), w0) ∧ init_logger args w0 = (inr (), w1)
    ∧ w_fs w' = w_fs w1 ∧ w_log w' = w_log w1
    ∧ w_net w' = w_net w ++ [Login u d].
Proof.
  unfold start_up.
  intros ([] & w0 & Hpre & ([] & w1 & Hlog & (cfg & w2 & Hcfg &
    (u & w3 & Hu & (p & w4 & Hp & (t & w5 & Ht & (d & w6 & Hd &
    (n & w7 & Hn & (sf' & w8 & Hsf & (objs' & w9 & Hjs & Hret)%bind_inr
    )%bind_inr)%bind_inr)%bind_inr)%bind_inr)%bind_inr)%bind_inr)%bind_inr
    )%bind_inr)%bind_inr.
  injection Hret as <- <- <- <-.
  apply read_config_inr in Hcfg as [-> _].
  apply config_get_inr in Hu as [-> _].
  apply config_get_inr in Hp as [-> _]. apply config_get_inr in Ht as [-> _].
  apply config_get_inr in Hd as [-> _]. apply config_get_inr in Hn as [-> _].
  apply get_json_data_inr in Hjs as [-> _].
  destruct (get_sf_conn_world u p t d w1) as (Hfs & Hnet & Hl).
  rewrite Hsf in Hfs, Hnet, Hl. simpl in *.
  exists w0, w1, u, d. split_and!; [done|done|done|by eapply Hl|].
  rewrite Hnet. f_equal.
  pose proof (pre_steps_net w) as H1. rewrite Hpre in H1.
  pose proof (init_logger_net w0) as H2. rewrite Hlog in H2.
  simpl in *. congruence.
Qed.

Lemma start_up_dirs (w w' : World) (sf : Salesforce) (objs : list SfObject)
    (threads : pystr) (dir : pystr) :
  start_up args connect parse_config json_load w = (inr (sf, objs, threads), w') →
  dir ∈ [lit "csv"; lit "pq"] →
  w_fs w' !! (output_path args ++ [dir]) = Some Dir.
Proof.
  intros (w0 & w1 & u & d & Hpre & Hlog & -> & _)%start_up_world Hdir.
  apply pre_steps_inr in Hpre as (_ & _ & Hdirs & _).
  apply init_logger_inr in Hlog as (_ & _ & Hkeep & _).
  apply Hkeep. by apply Hdirs.
Qed.

Lemma start_up_inside (w w' : World) (sf : Salesforce) (objs : list SfObject)
    (threads : pystr) (dir : pystr) (p : path) :
  start_up args connect parse_config json_load w = (inr (sf, objs, threads), w') →
  dir ∈ [lit "csv"; lit "pq"] →
  inside (output_path args ++ [dir]) p →
  p ≠ log_file args →
  w_fs w' !! p = None
  ∨ (w_fs w' !! p = Some Dir ∧ p ∈ ancestors (log_path args)).
Proof.
  intros (w0 & w1 & u & d & Hpre & Hlog & -> & _)%start_up_world Hdir Hin Hp.
  apply pre_steps_inr in Hpre as (_ & _ & Hdirs & _).
  apply init_logger_inr in Hlog as (_ & _ & _ & Hsame).
  rewrite Hsame by done. by apply (Hdirs dir).
Qed.

Lemma log_file_outside (dir : pystr) :
  dir ∈ [lit "csv"; lit "pq"] →
  ¬ output_path args ++ [dir] `prefix_of` log_path args →
  ¬ output_path args ++ [dir] `prefix_of` log_file args.
Proof.
  intros Hdir Hout [Heq|Hpre]%prefix_snoc; [|done].
  apply app_inj_tail in Heq as [_ ->].
  apply elem_of_cons in Hdir as [Hd|Hd]; [discriminate Hd|].
  apply list_elem_of_singleton in Hd. discriminate Hd.
Qed.

(** With the log directory elsewhere, the start-up leaves the output
    directories empty. *)
Lemma start_up_ready (w w' : World) (sf : Salesforce) (objs : list SfObject)
    (threads : pystr) :
  (∀ dir, dir ∈ [lit "csv"; lit "pq"] →
     ¬ output_path args ++ [dir] `prefix_of` log_path args) →
  start_up args connect parse_config json_load w = (inr (sf, objs, threads), w') →
  output_ready args (w_fs w') ∧ paired args (w_fs w').
Proof.
  intros Hlog Hstart.
  assert (∀ dir p, dir ∈ [lit "csv"; lit "pq"] →
            inside (output_path args ++ [dir]) p → w_fs w' !! p = None)
    as Hempty.
  { intros dir p Hdir Hin.
    destruct (start_up_inside _ _ _ _ _ dir p Hstart Hdir Hin) as [H|[_ H]];
      [|done|].
    - intros ->. destruct Hin as [Hpre _].
      by apply (log_file_outside dir Hdir (Hlog dir Hdir)).
    - exfalso. apply (Hlog dir Hdir). destruct Hin as [Hpre _].
      etrans; [exact Hpre|by apply ancestors_prefix]. }
  assert (∀ o, w_fs w' !! csv_path args o = None
               ∧ w_fs w' !! pq_path args o = None) as Hnone.
  { intros o. split.
    - apply (Hempty (lit "csv")); [by left|]. split.
      + exists [obj_api_name o ++ lit ".csv"]. unfold csv_path.
        by rewrite <- app_assoc.
      + by destruct (file_not_directory args o (lit "csv")) as [H _].
    - apply (Hempty (lit "pq")); [right; by left|]. split.
      + exists [obj_api_name o ++ lit ".parquet"]. unfold pq_path.
        by rewrite <- app_assoc.
      + by destruct (file_not_directory args o (lit "pq")) as [_ H]. }
  split.
  - split_and!.
    + apply (start_up_dirs _ _ _ _ _ _ Hstart). by left.
    + apply (start_up_dirs _ _ _ _ _ _ Hstart). right. by left.
    + intros o. destruct (Hnone o) as [-> ->]. done.
  - intros o. unfold is_file. by destruct (Hnone o) as [-> ->].
Qed.

(** A run that ends well: the start-up completes, and what is left is the
    world of the pool when [execute] leaves it. *)
Lemma main_inr (w w' : World) :
  main args pd connect parse_config json_load int_of_str choose w
    = (inr (), w') →
  ∃ sf objs threads w1 n,
    start_up args connect parse_config json_load w
      = (inr (sf, objs, threads), w1)
    ∧ (0 < Z.to_nat n)%nat
    ∧ let s := pool_at_exit args pd choose (Z.to_nat n) sf objs w1 in
      w_fs w' = w_fs (world s) ∧ w_net w' = w_net (world s).
Proof.
  rewrite main_start_up.
  destruct (start_up args connect parse_config json_load w)
    as [[a|[[sf objs] threads]] w1] eqn:Hstart; [done|].
  intros ([] & wx & Hex%uncaught_inr & Hlog)%bind_inr.
  destruct (execute_inr _ _ _ _ _ _ _ _ _ Hex) as (n & Hn & Hpos & _ & ->).
  unfold logging in Hlog. injection Hlog as <-. simpl.
  exists sf, objs, threads, w1, n. split_and!; [done|lia|done|done].
Qed.

(** A run that stops once the start-up is complete: [execute] has raised,
    and what is left is the world in which it did. *)
Lemma main_inl (w w' : World) (a : abort) (sf : Salesforce)
    (objs : list SfObject) (threads : pystr) (w1 : World) :
  start_up args connect parse_config json_load w
    = (inr (sf, objs, threads), w1) →
  main args pd connect parse_config json_load int_of_str choose w
    = (inl a, w') →
  ∃ e, a = Raise e
       ∧ execute args pd int_of_str choose sf objs threads w1 = (inl e, w').
Proof.
  intros Hstart. rewrite main_start_up, Hstart.
  unfold mbind, M_bind, uncaught.
  destruct (execute args pd int_of_str choose sf objs threads w1)
    as [[e|[]] w2]; [|done].
  intros [= <- <-]. eauto.
Qed.

(** X20: after a run that ends well, no parquet file is without its CSV
    file: with the log directory outside the two output directories, an
    object that has its parquet file has its CSV file, whatever tasks
    failed. *)
Theorem run_leaves_no_parquet_without_csv (w w' : World) :
  (∀ dir, dir ∈ [lit "csv"; lit "pq"] →
     ¬ output_path args ++ [dir] `prefix_of` log_path args) →
  main args pd connect parse_config json_load int_of_str choose w
    = (inr (), w') →
  parquet_has_csv args (w_fs w').
Proof.
  intros Hlog (sf & objs & threads & w1 & n & Hstart & Hn & Hfs & _)%main_inr.
  rewrite Hfs.
  destruct (start_up_ready _ _ _ _ _ Hlog Hstart) as [Hready Hpair].
  eapply (pool_files args pd (Z.to_nat n) sf (submitted objs w1));
    [done| |apply run_reachable].
  intros o. simpl. by rewrite (Hpair o).
Qed.

(** X21: after a run that ends well, a file inside the two output
    directories is the CSV or parquet file of an object of the schema file,
    unless it is the log file: no file of an object that is not listed is
    left from an earlier run. *)
Theorem output_files_are_of_this_run (w w' : World) :
  main args pd connect parse_config json_load int_of_str choose w
    = (inr (), w') →
  ∃ sf objs threads w1,
    start_up args connect parse_config json_load w
      = (inr (sf, objs, threads), w1)
    ∧ ∀ dir p c,
        dir ∈ [lit "csv"; lit "pq"] →
        inside (output_path args ++ [dir]) p →
        w_fs w' !! p = Some (File c) →
        p = log_file args
        ∨ ∃ o, o ∈ objs ∧ (p = csv_path args o ∨ p = pq_path args o).
Proof.
  intros (sf & objs & threads & w1 & n & Hstart & Hn & Hfs & _)%main_inr.
  exists sf, objs, threads, w1. split; [done|].
  intros dir p c Hdir Hin Hp.
  destruct (decide (p = log_file args)) as [|Hlf]; [by left|]. right.
  destruct (decide (Exists (λ o, p = csv_path args o ∨ p = pq_path args o)
                      objs)) as [Hex|Hno].
  { apply Exists_exists in Hex as (o & Ho & Hpo). eauto. }
  exfalso. rewrite Hfs in Hp.
  rewrite (pool_other_paths args pd sf (Z.to_nat n) objs w1) in Hp.
  - destruct (start_up_inside _ _ _ _ _ dir p Hstart Hdir Hin Hlf)
      as [H|[H _]]; congruence.
  - apply run_reachable.
  - intros o Ho. split; intros ->; apply Hno, Exists_exists; eauto.
Qed.

Lemma pool_net_grows (max_workers : nat) (sf : Salesforce) (s s' : Pool) :
  rtc (step args pd max_workers sf) s s' →
  ∃ l, w_net (world s') = w_net (world s) ++ l.
Proof.
  intros Hreach.
  induction Hreach as [|s0 s1 s' [e Hfire] Hrest [l IH]].
  { exists []. by rewrite app_nil_r. }
  rewrite IH.
  destruct (fire_world _ _ _ _ e _ _ Hfire)
    as [->|[(f & fu & Hf & ->)|(f & fu & r & name & Hf & Hname & ->)]]; [by exists l| |by exists l].
  rewrite get_sf_data_net, <- app_assoc. eauto.
Qed.

Lemma pool_at_exit_net (max_workers : nat) (sf : Salesforce)
    (objs : list SfObject) (w : World) :
  (0 < max_workers)%nat →
  ∃ l, w_net (world (pool_at_exit args pd choose max_workers sf objs w))
       = w_net w ++ l
       ∧ l ≡ₚ map (issued args) objs.
Proof.
  intros HW.
  destruct (pool_at_exit_spec args pd choose sf max_workers objs w HW)
    as (Hok & Hrun & Htodo & Hdone & _).
  destruct (pool_net_grows max_workers sf (submitted objs w)
              (pool_at_exit args pd choose max_workers sf objs w))
    as [l Hl]; [apply run_reachable|].
  exists l. split; [done|].
  pose proof (run_net _ _ _ _ _ _ Hrun) as Hnet.
  rewrite Hl in Hnet. simpl in Hnet. apply Permutation_app_inv_l in Hnet.
  pose proof (run_objs _ _ _ _ _ _ Hrun) as Hobjs.
  rewrite Htodo, app_nil_r in Hobjs.
  rewrite Hnet, omap_done_request; [by rewrite Hobjs|].
  intros f fu Hf. by apply (Hdone f).
Qed.

(** X22: what a run that ends well has sent: the login first, then one
    query for each object of the schema file, in some order, and nothing
    else. *)
Theorem requests_of_a_run (w w' : World) :
  main args pd connect parse_config json_load int_of_str choose w
    = (inr (), w') →
  ∃ sf objs threads w1 u d l,
    start_up args connect parse_config json_load w
      = (inr (sf, objs, threads), w1)
    ∧ w_net w' = w_net w ++ Login u d :: l
    ∧ l ≡ₚ map (issued args) objs.
Proof.
  intros (sf & objs & threads & w1 & n & Hstart & Hn & _ & Hnet)%main_inr.
  destruct (start_up_world _ _ _ _ _ Hstart)
    as (w0 & w2 & u & d & _ & _ & _ & _ & Hlogin).
  destruct (pool_at_exit_net (Z.to_nat n) sf objs w1 Hn) as (l & Hl & Hperm).
  exists sf, objs, threads, w1, u, d, l. split_and!; [done| |done].
  simpl in Hnet. rewrite Hnet, Hl, Hlogin. by rewrite <- app_assoc.
Qed.

(** X23: what a run that stops has sent: nothing at all, or the login and
    nothing else, unless it stops on the [KeyError] for an entry of the
    schema file without [obj_name]: then the loop of [execute] has raised
    it after every task has run, and the login and one query for each
    object were sent. *)
Theorem requests_of_a_stopped_run (w w' : World) (a : abort) :
  main args pd connect parse_config json_load int_of_str choose w
    = (inl a, w') →
  w_net w' = w_net w
  ∨ (∃ u d, w_net w' = w_net w ++ [Login u d])
  ∨ (a = Raise no_obj_name
     ∧ ∃ sf objs threads w1 u d l,
         start_up args connect parse_config json_load w
           = (inr (sf, objs, threads), w1)
         ∧ ¬ Forall named objs
         ∧ w_net w' = w_net w ++ Login u d :: l
         ∧ l ≡ₚ map (issued args) objs).
Proof.
  intros Hmain. pose proof (start_up_net w) as Hnet.
  destruct (start_up args connect parse_config json_load w)
    as [[a'|[[sf objs] threads]] w1] eqn:Hstart; simpl in Hnet.
  { rewrite main_start_up, Hstart in Hmain. injection Hmain as <- <-.
    destruct Hnet as [?|?]; [by left|right; by left]. }
  destruct (start_up_world _ _ _ _ _ Hstart)
    as (w0 & w2 & u & d & _ & _ & _ & _ & Hlogin).
  destruct (main_inl _ _ _ _ _ _ _ Hstart Hmain) as (e & -> & Hex).
  destruct (execute_inl _ _ _ _ _ _ _ _ _ _ Hex)
    as [(_ & -> & _)|(-> & n & Hint & Hn & -> & Hunnamed)].
  { right. left. eauto. }
  right. right. split; [done|].
  destruct (pool_at_exit_net (Z.to_nat n) sf objs w1 ltac:(lia))
    as (l & Hl & Hperm).
  exists sf, objs, threads, w1, u, d, l. split_and!; [done|done| |done].
  rewrite Hl, Hlogin. by rewrite <- app_assoc.
Qed.

(** X24: the exceptions that leave [execute]: the [ValueError] for a thread
    count that is not a positive integer, raised before the pool exists,
    with the world as it was; or the [KeyError] for an entry of the schema
    file without [obj_name], raised by the loop over the futures when every
    task has run, with the world as the pool has left it. *)
Theorem exceptions_of_execute (sf : Salesforce)
    (objs : list SfObject) (threads : pystr) (w w' : World) (e : exn) :
  execute args pd int_of_str choose sf objs threads w = (inl e, w') →
  (exn_class_of e = ValueError ∧ w' = w
   ∧ ∀ n, int_of_str threads = Some n → n ≤ 0)
  ∨ (e = no_obj_name
     ∧ ∃ n, int_of_str threads = Some n ∧ 0 < n
            ∧ w' = world (pool_at_exit args pd choose (Z.to_nat n) sf objs w)
            ∧ ¬ Forall named objs).
Proof. apply execute_inl. Qed.

Lemma pre_steps_no_file (p : path) :
  preserves (λ w, no_file (w_fs w) p) (pre_steps args).
Proof.
  assert (∀ d, preserves (λ w, no_file (w_fs w) p) (rmtree d)) as Hrm.
  { intros d w Hw c Hc. apply (Hw c).
    apply (rmtree_lookup d p w (rmtree d w).2); [|done].
    unfold rmtree. by destruct (w_fs w !! d) as [[|c']|]. }
  assert (∀ d, preserves (λ w, no_file (w_fs w) p) (mkdir d)) as Hmk.
  { intros d w Hw c Hc. apply (Hw c).
    destruct (mkdir d w) as [[e|[]] w1] eqn:Hm.
    - unfold mkdir in Hm. destruct (existsb _ _); [|done].
      by injection Hm as _ <-.
    - destruct (mkdir_lookup d p w w1 Hm) as [H|H]; simpl in *; congruence. }
  unfold pre_steps. apply preserves_bind.
  - apply preserves_uncaught, preserves_for_each. intros dir.
    apply preserves_bind; [apply Hrm|intros _; apply Hmk].
  - intros _. apply preserves_bind; [by intros w1 H1|]. intros fs.
    case_match.
    + apply preserves_bind; [by intros w1 H1|]. intros _. by intros w1 H1.
    + apply preserves_uncaught, Hmk.
Qed.

(** X25: a config path that holds no plain file stops the run before the
    login, with nothing sent.  When [pre_steps] and [init_logger] pass all
    the same, the path being a directory, [config.read] skips it and the run
    dies of the [KeyError] for the section [salesforce], which nobody
    catches. *)
Theorem run_without_config_file (w : World) :
  no_file (w_fs w) (config args) →
  ∃ a w',
    main args pd connect parse_config json_load int_of_str choose w
      = (inl a, w')
    ∧ w_net w' = w_net w
    ∧ ∀ w0 w1, pre_steps args w = (inr (), w0) →
               init_logger args w0 = (inr (), w1) →
               a = Raise (Exn KeyError (lit "salesforce")) ∧ w' = w1.
Proof.
  intros Hno. unfold main. unfold mbind, M_bind.
  pose proof (pre_steps_net w) as Hn0.
  pose proof (pre_steps_no_file (config args) w Hno) as Hno0.
  destruct (pre_steps args w) as [[a|[]] w0] eqn:Hpre; simpl in Hn0, Hno0.
  { exists a, w0. split_and!; [done|done|]. by intros w0' w1' [=]. }
  pose proof (init_logger_net w0) as Hn1.
  destruct (init_logger args w0) as [[a|[]] w1] eqn:Hlog; simpl in Hn1.
  { exists a, w1. split_and!; [done|congruence|].
    intros w0' w1' [= <-]. by rewrite Hlog. }
  assert (no_file (w_fs w1) (config args)) as Hno1.
  { apply pre_steps_inr in Hpre as (_ & _ & _ & _ & Hex & _).
    apply init_logger_inr in Hlog as (_ & _ & Hkeep & Hsame).
    intros c Hc. destruct (decide (config args = log_file args)) as [Heq|Hne].
    - destruct (config args) as [|x l] eqn:Hcfg.
      { unfold log_file in Heq. by destruct (log_path args). }
      simpl in Hex. apply bool_decide_eq_true in Hex as [y Hy].
      apply Hkeep in Hy as Hy1. rewrite Hc in Hy1. injection Hy1 as <-.
      by apply (Hno0 c).
    - rewrite Hsame in Hc by done. by apply (Hno0 c). }
  exists (Raise (Exn KeyError (lit "salesforce"))), w1.
  split_and!; [|congruence|by intros w0' w1' [= <-]; rewrite Hlog; intros [= <-]].
  unfold read_config, CONFIG_FILE.
  destruct (w_fs w1 !! config args) as [[|c]|] eqn:Hc;
    [done|by destruct (Hno1 c)|done].
Qed.

End Whole.


(** The clean world of the examples has its directories ready and empty. *)
Lemma clean_ready :
  output_ready Example.normal (w_fs Example.clean)
  ∧ paired Example.normal (w_fs Example.clean).
Proof.
  assert (∀ o, w_fs Example.clean !! csv_path Example.normal o = None
               ∧ w_fs Example.clean !! pq_path Example.normal o = None)
    as Hnone.
  { intros o. unfold Example.clean. cbn [w_fs].
    split;
      repeat (rewrite lookup_insert_ne
                by (intros H; apply (f_equal length) in H; discriminate H));
      apply lookup_singleton_ne; intros H; apply (f_equal length) in H;
      discriminate H. }
  split.
  - split_and!; [by vm_compute|by vm_compute|].
    intros o. by destruct (Hnone o) as [-> ->].
  - intros o. unfold is_file. by destruct (Hnone o) as [-> ->].
Qed.

Lemma task_writes_both_files_or_none_witness :
  let r := get_sf_data Example.normal Example.pandas Example.sf Example.Account
             Example.clean in
  w_fs r.2 = w_fs Example.clean
  ∨ (∃ n c1 c2, r.1 = inr n
       ∧ w_fs r.2 = <[pq_path Example.normal Example.Account := File c2]>
                      (<[csv_path Example.normal Example.Account := File c1]>
                         (w_fs Example.clean)))
  ∨ (∃ e df' c1, r.1 = inl e ∧ arrow_error Example.pandas df' = Some e
       ∧ w_fs r.2 = <[csv_path Example.normal Example.Account := File c1]>
                      (w_fs Example.clean)).
Proof.
  apply (task_writes_both_files_or_none Example.normal Example.pandas
           Example.sf Example.Account Example.clean).
  apply clean_ready.
Defined.

Lemma run_leaves_no_parquet_without_csv_witness :
  ∃ w', main Example.normal Example.pandas Example.connect
          Example.parse_config Example.json_load Example.int_of_digit
          Example.scheduler Example.clean = (inr (), w')
        ∧ parquet_has_csv Example.normal (w_fs w').
Proof.
  destruct (main Example.normal Example.pandas Example.connect
              Example.parse_config Example.json_load Example.int_of_digit
              Example.scheduler Example.clean) as [r w'] eqn:Hrun.
  assert (r = inr ()) as ->.
  { apply (f_equal fst) in Hrun. vm_compute in Hrun. congruence. }
  exists w'. split; [reflexivity|].
  apply (run_leaves_no_parquet_without_csv Example.normal Example.pandas
           Example.connect Example.parse_config Example.json_load
           Example.int_of_digit Example.scheduler Example.clean w');
    [|exact Hrun].
  intros dir _ [k Hk]. discriminate Hk.
Defined.

Lemma output_files_are_of_this_run_witness :
  ∃ w' sf objs threads w1,
    main Example.normal Example.pandas Example.connect
      Example.parse_config Example.json_load Example.int_of_digit
      Example.scheduler Example.clean = (inr (), w')
    ∧ start_up Example.normal Example.connect Example.parse_config
        Example.json_load Example.clean = (inr (sf, objs, threads), w1)
    ∧ ∀ dir p c,
        dir ∈ [lit "csv"; lit "pq"] →
        inside (output_path Example.normal ++ [dir]) p →
        w_fs w' !! p = Some (File c) →
        p = log_file Example.normal
        ∨ ∃ o, o ∈ objs ∧ (p = csv_path Example.normal o
                           ∨ p = pq_path Example.normal o).
Proof.
  destruct (main Example.normal Example.pandas Example.connect
              Example.parse_config Example.json_load Example.int_of_digit
              Example.scheduler Example.clean) as [r w'] eqn:Hrun.
  assert (r = inr ()) as ->.
  { apply (f_equal fst) in Hrun. vm_compute in Hrun. congruence. }
  destruct (output_files_are_of_this_run Example.normal Example.pandas
              Example.connect Example.parse_config Example.json_load
              Example.int_of_digit Example.scheduler Example.clean w' Hrun)
    as (sf & objs & threads & w1 & Hstart & Hfiles).
  exists w', sf, objs, threads, w1.
  split; [reflexivity|]. split; [exact Hstart|exact Hfiles].
Defined.

Lemma requests_of_a_run_witness :
  ∃ w' sf objs threads w1 u d l,
    main Example.normal Example.pandas Example.connect
      Example.parse_config Example.json_load Example.int_of_digit
      Example.scheduler Example.clean = (inr (), w')
    ∧ start_up Example.normal Example.connect Example.parse_config
        Example.json_load Example.clean = (inr (sf, objs, threads), w1)
    ∧ w_net w' = w_net Example.clean ++ Login u d :: l
    ∧ l ≡ₚ map (issued Example.normal) objs.
Proof.
  destruct (main Example.normal Example.pandas Example.connect
              Example.parse_config Example.json_load Example.int_of_digit
              Example.scheduler Example.clean) as [r w'] eqn:Hrun.
  assert (r = inr ()) as ->.
  { apply (f_equal fst) in Hrun. vm_compute in Hrun. congruence. }
  destruct (requests_of_a_run Example.normal Example.pandas
              Example.connect Example.parse_config Example.json_load
              Example.int_of_digit Example.scheduler Example.clean w' Hrun)
    as (sf & objs & threads & w1 & u & d & l & Hstart & Hnet & Hperm).
  exists w', sf, objs, threads, w1, u, d, l.
  split; [reflexivity|]. split; [exact Hstart|]. split; [exact Hnet|exact Hperm].
Defined.

Lemma requests_of_a_stopped_run_witness :
  ∃ a w',
    main Example.normal Example.pandas Example.refuse
      Example.parse_config Example.json_load Example.int_of_digit
      Example.scheduler Example.clean = (inl a, w')
    ∧ (w_net w' = w_net Example.clean
       ∨ (∃ u d, w_net w' = w_net Example.clean ++ [Login u d])
       ∨ (a = Raise no_obj_name
          ∧ ∃ sf objs threads w1 u d l,
              start_up Example.normal Example.refuse Example.parse_config
                Example.json_load Example.clean
                = (inr (sf, objs, threads), w1)
              ∧ ¬ Forall named objs
              ∧ w_net w' = w_net Example.clean ++ Login u d :: l
              ∧ l ≡ₚ map (issued Example.normal) objs)).
Proof.
  destruct (main Example.normal Example.pandas Example.refuse
              Example.parse_config Example.json_load Example.int_of_digit
              Example.scheduler Example.clean) as [r w'] eqn:Hrun.
  assert (r = inl (SysExit 1)) as ->.
  { apply (f_equal fst) in Hrun. vm_compute in Hrun. congruence. }
  exists (SysExit 1), w'. split; [reflexivity|].
  exact (requests_of_a_stopped_run Example.normal Example.pandas
           Example.refuse Example.parse_config Example.json_load
           Example.int_of_digit Example.scheduler Example.clean w'
           (SysExit 1) Hrun).
Defined.

Lemma exceptions_of_execute_witness :
  ∃ e w',
    execute Example.normal Example.pandas Example.int_of_digit
      Example.scheduler Example.sf
      [Example.Account; Example.Contact] (lit "0") Example.clean = (inl e, w')
    ∧ ((exn_class_of e = ValueError ∧ w' = Example.clean
        ∧ ∀ n, Example.int_of_digit (lit "0") = Some n → n ≤ 0)
       ∨ (e = no_obj_name
          ∧ ∃ n, Example.int_of_digit (lit "0") = Some n ∧ 0 < n
                 ∧ w' = world (pool_at_exit Example.normal Example.pandas
                                 Example.scheduler (Z.to_nat n) Example.sf
                                 [Example.Account; Example.Contact]
                                 Example.clean)
                 ∧ ¬ Forall named [Example.Account; Example.Contact])).
Proof.
  destruct (execute Example.normal Example.pandas Example.int_of_digit
              Example.scheduler Example.sf
              [Example.Account; Example.Contact] (lit "0") Example.clean)
    as [[e|[]] w'] eqn:Hrun.
  - exists e, w'. split; [reflexivity|].
    exact (exceptions_of_execute Example.normal Example.pandas
             Example.int_of_digit Example.scheduler Example.sf
             [Example.Account; Example.Contact] (lit "0")
             Example.clean w' e Hrun).
  - apply (f_equal fst) in Hrun. vm_compute in Hrun. discriminate Hrun.
Defined.

Lemma run_without_config_file_witness :
  let w := {| w_fs := <[ [lit "config.ini"] := Dir ]> (w_fs Example.clean);
              w_log := []; w_net := [] |} in
  no_file (w_fs w) (config Example.normal)
  ∧ ∃ a w',
      main Example.normal Example.pandas Example.connect
        Example.parse_config Example.json_load Example.int_of_digit
        Example.scheduler w = (inl a, w')
      ∧ w_net w' = w_net w
      ∧ ∀ w0 w1, pre_steps Example.normal w = (inr (), w0) →
                 init_logger Example.normal w0 = (inr (), w1) →
                 a = Raise (Exn KeyError (lit "salesforce")) ∧ w' = w1.
Proof.
  intros w.
  assert (no_file (w_fs w) (config Example.normal)) as Hno.
  { intros c. by vm_compute. }
  split; [exact Hno|].
  exact (run_without_config_file Example.normal Example.pandas
           Example.connect Example.parse_config Example.json_load
           Example.int_of_digit Example.scheduler w Hno).
Defined.
